(** * Aggregation expression tree of elasticsearch_dsl (aggs.py)

    A shallow embedding of [elasticsearch_dsl/aggs.py]: the node factory [A],
    the container protocol of [AggBase] ([__contains__], [__getitem__],
    [__setitem__], [_agg], [metric], [bucket], [pipeline]), the serializers
    [Agg.to_dict], [Bucket.to_dict], [Filter.to_dict] and the [result]
    dispatch.

    Aggregation nodes are Python objects with identity: they live in a store
    ([heap]), an address stands for the object, and every operation that
    allocates or mutates threads the store.  Parameter values other than
    nodes (numbers, strings, lists, dicts, query objects) are treated as
    values.

    Two smaller parts follow the aggregation tree: the constructors of the
    attribute dictionaries of [elasticsearch_dsl/types.py], and the file
    selection of [utils/run-unasync.py]. *)

From Stdlib Require Import ZArith String List Bool Lia.
From stdpp Require Import base option list strings.
Import ListNotations.
Local Open Scope string_scope.
Local Open Scope list_scope.
Local Set Warnings "-register-all".

(** ** Python values *)

(** The values that flow through the factory and the serializer.  [PQuery] is
    an object of the query subsystem, [PRef] an aggregation node (by address
    in the store). *)
Inductive pyval : Type :=
| PNone
| PBool (b : bool)
| PInt (z : Z)
| PStr (s : string)
| PList (l : list pyval)
| PDict (d : list (string * pyval))
| PQuery (qname : string) (qbody : list (string * pyval))
| PRef (a : nat).

(** A Python [dict] with string keys: insertion ordered, keys unique. *)
Definition dict := list (string * pyval).

Definition keys (d : dict) : list string := map fst d.

Fixpoint dict_get (k : string) (d : dict) : option pyval :=
  match d with
  | [] => None
  | (k', v) :: d' => if String.eqb k' k then Some v else dict_get k d'
  end.

(** [key in d] *)
Definition dict_has (k : string) (d : dict) : bool :=
  match dict_get k d with Some _ => true | None => false end.

(** [d[k] = v]: an existing key keeps its position, a new key goes last. *)
Fixpoint dict_set (k : string) (v : pyval) (d : dict) : dict :=
  match d with
  | [] => [(k, v)]
  | (k', v') :: d' =>
      if String.eqb k' k then (k, v) :: d' else (k', v') :: dict_set k v d'
  end.

Definition dict_del (k : string) (d : dict) : dict :=
  List.filter (fun kv => negb (String.eqb (fst kv) k)) d.

(** The keys are pairwise distinct, as in every Python dict. *)
Fixpoint uniq (l : list string) : bool :=
  match l with
  | [] => true
  | k :: l' => negb (existsb (String.eqb k) l') && uniq l'
  end.

(** [d.pop(k, default)]: the value (or the default) and the dict without [k]. *)
Definition dict_pop (k : string) (default : pyval) (d : dict) : pyval * dict :=
  (match dict_get k d with Some v => v | None => default end, dict_del k d).

(** [d.update(e)] *)
Definition dict_update (d e : dict) : dict :=
  fold_left (fun acc kv => dict_set (fst kv) (snd kv) acc) e d.

(** Python truth value, as tested by [if aggs:] and [if meta:]. *)
Definition truthy (v : pyval) : bool :=
  match v with
  | PNone => false
  | PBool b => b
  | PInt z => negb (Z.eqb z 0)
  | PStr s => negb (String.eqb s "")
  | PList l => match l with [] => false | _ => true end
  | PDict d => match d with [] => false | _ => true end
  | PQuery _ _ => true
  | PRef _ => true
  end.

(** [value in ({}, [])] *)
Definition is_empty_container (v : pyval) : bool :=
  match v with
  | PList [] => true
  | PDict [] => true
  | _ => false
  end.

(** No aggregation node occurs in the value. *)
Fixpoint no_refs (v : pyval) : bool :=
  match v with
  | PList l => forallb no_refs l
  | PDict d => forallb (fun kv => no_refs (snd kv)) d
  | PQuery _ b => forallb (fun kv => no_refs (snd kv)) b
  | PRef _ => false
  | _ => true
  end.

(** ** Exceptions *)

(** The four [ValueError]s raised by [A], told apart by their message. *)
Inductive value_error : Type :=
| FilterPositional  (* "Aggregation %r doesn't accept positional argument 'filter'." *)
| ParamsWithDict    (* "A() cannot accept parameters when passing in a dict." *)
| NotSingleAgg      (* 'A() can only accept dict with an aggregation ({"terms": {...}}).' *)
| ParamsWithAgg.    (* "A() cannot accept parameters when passing in an Agg object." *)

Inductive error : Type :=
| ValueError (m : value_error)
| QueryValueError      (* the [ValueError] of the query shortcut [Q] *)
| KeyError (k : string)
| UnknownDslObject (name : pyval)
| TypeError
| AttributeError
| RecursionError
| Unmodelled.

Inductive res (T : Type) : Type :=
| Ok (x : T)
| Err (e : error).
Arguments Ok {T} x.
Arguments Err {T} e.

Definition bind {T U : Type} (c : res T) (k : T -> res U) : res U :=
  match c with
  | Ok x => k x
  | Err e => Err e
  end.

Notation "'let*' p := c 'in' k" := (bind c (fun x => match x with p => k end))
  (at level 10, p pattern, c at level 100, k at level 200).

(** ** Classes *)

Inductive category : Type := Bucket | Metric | Pipeline.

(** The response wrappers of [response/aggs.py] that [result] chooses from. *)
Inductive view : Type := AggResponse | BucketData | FieldBucketData | TopHitsData.

(** A concrete aggregation class: its [name], the base it derives from
    ([Bucket], plain [Agg] for metrics, [Pipeline]) and the view built by its
    own [result] method when it defines (or inherits from a concrete class)
    one. *)
Record dsl_class : Type := mk_class {
  cls_name : string;
  cat : category;
  own_result : option view
}.

#[global] Instance category_eq_dec : EqDecision category.
Proof. solve_decision. Defined.

#[global] Instance view_eq_dec : EqDecision view.
Proof. solve_decision. Defined.

#[global] Instance dsl_class_eq_dec : EqDecision dsl_class.
Proof. solve_decision. Defined.

(** Every named class of aggs.py, in source order. *)
Definition classes : list dsl_class :=
  [
    mk_class "filter" Bucket None;
    mk_class "filters" Bucket None;
    mk_class "children" Bucket None;
    mk_class "parent" Bucket None;
    mk_class "date_histogram" Bucket (Some FieldBucketData);
    mk_class "auto_date_histogram" Bucket (Some FieldBucketData) (* inherited from DateHistogram *);
    mk_class "adjacency_matrix" Bucket None;
    mk_class "date_range" Bucket None;
    mk_class "geo_distance" Bucket None;
    mk_class "geohash_grid" Bucket None;
    mk_class "geohex_grid" Bucket None;
    mk_class "geotile_grid" Bucket None;
    mk_class "geo_centroid" Bucket None;
    mk_class "global" Bucket None;
    mk_class "histogram" Bucket (Some FieldBucketData);
    mk_class "ip_range" Bucket None;
    mk_class "ip_prefix" Bucket None;
    mk_class "missing" Bucket None;
    mk_class "nested" Bucket None;
    mk_class "range" Bucket None;
    mk_class "rare_terms" Bucket (Some FieldBucketData);
    mk_class "reverse_nested" Bucket None;
    mk_class "significant_terms" Bucket None;
    mk_class "significant_text" Bucket None;
    mk_class "terms" Bucket (Some FieldBucketData);
    mk_class "sampler" Bucket None;
    mk_class "diversified_sampler" Bucket None;
    mk_class "random_sampler" Bucket None;
    mk_class "composite" Bucket None;
    mk_class "variable_width_histogram" Bucket (Some FieldBucketData);
    mk_class "multi_terms" Bucket None;
    mk_class "categorize_text" Bucket None;
    mk_class "top_hits" Metric (Some TopHitsData);
    mk_class "avg" Metric None;
    mk_class "weighted_avg" Metric None;
    mk_class "cardinality" Metric None;
    mk_class "extended_stats" Metric None;
    mk_class "boxplot" Metric None;
    mk_class "geo_bounds" Metric None;
    mk_class "geo_line" Metric None;
    mk_class "max" Metric None;
    mk_class "matrix_stats" Metric None;
    mk_class "median_absolute_deviation" Metric None;
    mk_class "min" Metric None;
    mk_class "percentiles" Metric None;
    mk_class "percentile_ranks" Metric None;
    mk_class "scripted_metric" Metric None;
    mk_class "stats" Metric None;
    mk_class "sum" Metric None;
    mk_class "top_metrics" Metric None;
    mk_class "t_test" Metric None;
    mk_class "value_count" Metric None;
    mk_class "avg_bucket" Pipeline None;
    mk_class "bucket_script" Pipeline None;
    mk_class "bucket_selector" Pipeline None;
    mk_class "cumulative_sum" Pipeline None;
    mk_class "cumulative_cardinality" Pipeline None;
    mk_class "derivative" Pipeline None;
    mk_class "extended_stats_bucket" Pipeline None;
    mk_class "inference" Pipeline None;
    mk_class "max_bucket" Pipeline None;
    mk_class "min_bucket" Pipeline None;
    mk_class "moving_fn" Pipeline None;
    mk_class "moving_avg" Pipeline None;
    mk_class "moving_percentiles" Pipeline None;
    mk_class "normalize" Pipeline None;
    mk_class "percentiles_bucket" Pipeline None;
    mk_class "serial_diff" Pipeline None;
    mk_class "stats_bucket" Pipeline None;
    mk_class "sum_bucket" Pipeline None;
    mk_class "bucket_sort" Pipeline None
  ].

(** [_param_defs]: the typed parameters of a class. *)
Inductive dsl_type : Type := TAgg | TQuery.

Record pinfo : Type := mk_pinfo {
  p_type : dsl_type;
  p_multi : bool;
  p_hash : bool
}.

(** [AggBase._param_defs], inherited by every [Bucket] class that does not
    override it; [Filter], [Filters] and [Composite] declare their own.  The
    metric and pipeline classes declare none. *)
Definition param_defs (cls : dsl_class) : list (string * pinfo) :=
  match cat cls with
  | Bucket =>
      if String.eqb (cls_name cls) "filter" then
        [("filter", mk_pinfo TQuery false false); ("aggs", mk_pinfo TAgg false true)]
      else if String.eqb (cls_name cls) "filters" then
        [("filters", mk_pinfo TQuery false true); ("aggs", mk_pinfo TAgg false true)]
      else if String.eqb (cls_name cls) "composite" then
        [("sources", mk_pinfo TAgg true true); ("aggs", mk_pinfo TAgg false true)]
      else
        [("aggs", mk_pinfo TAgg false true)]
  | _ => []
  end.

Fixpoint assoc {T : Type} (k : string) (l : list (string * T)) : option T :=
  match l with
  | [] => None
  | (k', v) :: l' => if String.eqb k' k then Some v else assoc k l'
  end.

(** [isinstance(agg, Bucket)] *)
Definition is_bucket (cls : dsl_class) : bool :=
  match cat cls with Bucket => true | _ => false end.

(** [result]: [Agg.result] wraps in [AggResponse], [AggBase.result] (first in
    the method resolution order of every [Bucket]) in [BucketData]; a class
    with its own [result] uses that. *)
Definition result_view (cls : dsl_class) : view :=
  match own_result cls with
  | Some v => v
  | None => match cat cls with Bucket => BucketData | _ => AggResponse end
  end.

(** ** The store of aggregation nodes *)

(** An [Agg] instance: its class, its [_params] dict and, for a [Bucket], the
    [_base] attribute. *)
Record obj : Type := mk_obj {
  o_class : dsl_class;
  o_params : dict;
  o_base : option nat
}.

Abbreviation heap := (list obj).

Definition set_params (o : obj) (ps : dict) : obj :=
  mk_obj (o_class o) ps (o_base o).

(** ** The base class and the query subsystem *)

(** Modelled from the spec: [Agg.get_dsl_class] of the base class [DslBase]
    (utils.py), the type registry: resolves a wire name to the class
    registered under it, and fails for a name that is not registered. *)
Definition get_dsl_class (name : pyval) : res dsl_class :=
  match name with
  | PStr s =>
      match List.find (fun c => String.eqb (cls_name c) s) classes with
      | Some c => Ok c
      | None => Err (UnknownDslObject name)
      end
  | _ => Err (UnknownDslObject name)
  end.

(** Modelled from the spec: the query subsystem (query.py), an opaque value
    that knows how to serialize itself to a wire-format object.  A query
    object [PQuery n b] serializes to [{n: b}]; the shortcut [Q] passes a
    query object through and builds one from its name or from its wire-format
    mapping. *)
Definition Query_to_dict (qname : string) (qbody : dict) : pyval :=
  PDict [(qname, PDict qbody)].

Definition Q (v : pyval) : res pyval :=
  match v with
  | PQuery n b => Ok (PQuery n b)
  | PStr n => Ok (PQuery n [])
  | PDict [(n, PDict b)] => Ok (PQuery n b)
  | PDict [(n, _)] => Err TypeError
  | PDict _ => Err QueryValueError
  | _ => Err TypeError
  end.

Section Shortcut.
(** The shortcut of the type ["agg"], i.e. [A] itself, at the recursion
    depth left. *)
Variable A_ : heap -> pyval -> res (heap * nat).

Fixpoint mapM_heap {T U : Type} (f : heap -> T -> res (heap * U))
    (h : heap) (l : list T) : res (heap * list U) :=
  match l with
  | [] => Ok (h, [])
  | x :: l' =>
      let* (h1, y) := f h x in
      let* (h2, ys) := mapM_heap f h1 l' in
      Ok (h2, y :: ys)
  end.

(** Modelled from the spec: [DslBase.get_dsl_type], the shortcut that
    coerces a value of a typed parameter ("type: aggregation": the node
    factory; "type: query": the query subsystem). *)
Definition get_dsl_type (t : dsl_type) (h : heap) (v : pyval)
    : res (heap * pyval) :=
  match t with
  | TAgg => let* (h', a) := A_ h v in Ok (h', PRef a)
  | TQuery => let* q := Q v in Ok (h, q)
  end.

(** [{k: shortcut(v) for (k, v) in value.items()}] *)
Definition coerce_hash (t : dsl_type) (h : heap) (value : pyval)
    : res (heap * pyval) :=
  match value with
  | PDict d =>
      let* (h', d') := mapM_heap
        (fun h kv =>
           let* (h', v') := get_dsl_type t h (snd kv) in Ok (h', (fst kv, v')))
        h d in
      Ok (h', PDict d')
  | _ => Err AttributeError
  end.

Definition as_list (value : pyval) : list pyval :=
  match value with
  | PList l => l
  | _ => [value]
  end.

(** Modelled from the spec: the coercion that [DslBase._setattr] applies to
    the value of a typed parameter, by the [multi] and [hash] flags of its
    declaration. *)
Definition coerce (pi : pinfo) (h : heap) (value : pyval)
    : res (heap * pyval) :=
  if p_multi pi && p_hash pi then
    let* (h', l') := mapM_heap (coerce_hash (p_type pi)) h (as_list value) in
    Ok (h', PList l')
  else if p_multi pi then
    let* (h', l') := mapM_heap (get_dsl_type (p_type pi)) h (as_list value) in
    Ok (h', PList l')
  else if p_hash pi then coerce_hash (p_type pi) h value
  else get_dsl_type (p_type pi) h value.

(** Modelled from the spec: [DslBase._setattr], [self._params[name] = value]
    after the coercion of a typed parameter. *)
Definition DslBase_setattr (cls : dsl_class) (h : heap) (self_params : dict)
    (name : string) (value : pyval) : res (heap * dict) :=
  match assoc name (param_defs cls) with
  | Some pi =>
      let* (h', v') := coerce pi h value in
      Ok (h', dict_set name v' self_params)
  | None => Ok (h, dict_set name value self_params)
  end.

(** Modelled from the spec: [DslBase.__init__], which stores every keyword
    parameter through [_setattr].  ([_expand__to_dot] tells the base class
    whether to rewrite parameter names; names are kept as written here.) *)
Fixpoint DslBase_init (cls : dsl_class) (h : heap) (self_params : dict)
    (params : dict) : res (heap * dict) :=
  match params with
  | [] => Ok (h, self_params)
  | (pname, pvalue) :: rest =>
      let* (h1, sp1) := DslBase_setattr cls h self_params pname pvalue in
      DslBase_init cls h1 sp1 rest
  end.

(** [Filter.__init__(self, filter=None, **params)]: the keyword [filter] is
    bound to the named argument and put back, last, unless it is [None]. *)
Definition Filter_init (params : dict) : dict :=
  match dict_pop "filter" PNone params with
  | (PNone, params') => params'
  | (filter, params') => dict_set "filter" filter params'
  end.

(** Calling a class: the object is created, [__init__] runs
    ([Filter.__init__], then [Bucket.__init__], then [DslBase.__init__]),
    and [Bucket.__init__] ends with [self._base = self]. *)
Definition new (cls : dsl_class) (_expand__to_dot : bool) (h : heap)
    (params : dict) : res (heap * nat) :=
  let params := if String.eqb (cls_name cls) "filter" then Filter_init params
                else params in
  let* (h1, sp) := DslBase_init cls h [] params in
  let self := length h1 in
  let base := if is_bucket cls then Some self else None in
  Ok (h1 ++ [mk_obj cls sp base], self).
End Shortcut.

(** ** The node factory *)

Definition is_filter_name (name_or_agg : pyval) : bool :=
  match name_or_agg with
  | PStr s => String.eqb s "filter"
  | _ => false
  end.

(** [if v: params = params.copy(); params[key] = v] *)
Definition reattach (key : string) (v : pyval) (params : pyval) : res pyval :=
  if truthy v then
    match params with
    | PDict p => Ok (PDict (dict_set key v p))
    | _ => Err TypeError
    end
  else Ok params.

(** [A(name_or_agg, filter=None, **params)].  [fuel] bounds the nesting of
    the calls ([A] is the shortcut through which the constructor builds nested
    aggregations).  [deepcopy] of a mapping that holds no node is the mapping;
    a mapping that holds live nodes is outside this model. *)
Fixpoint A (fuel : nat) (h : heap) (name_or_agg : pyval) (filter : pyval)
    (params : dict) : res (heap * nat) :=
  match fuel with
  | O => Err RecursionError
  | S fuel' =>
      let* params :=
        match filter with
        | PNone => Ok params
        | _ =>
            if negb (is_filter_name name_or_agg)
            then Err (ValueError FilterPositional)
            else Ok (dict_set "filter" filter params)
        end in
      match name_or_agg with
      | PDict agg =>
          match params with
          | _ :: _ => Err (ValueError ParamsWithDict)
          | [] =>
              if negb (no_refs name_or_agg) then Err Unmodelled else
              let '(aggs, agg) := dict_pop "aggs" PNone agg in
              let '(meta, agg) := dict_pop "meta" PNone agg in
              match agg with
              | [(agg_type, params)] =>
                  let* params := reattach "aggs" aggs params in
                  let* params := reattach "meta" meta params in
                  let* cls := get_dsl_class (PStr agg_type) in
                  match params with
                  | PDict params =>
                      new (fun h v => A fuel' h v PNone []) cls false h params
                  | _ => Err TypeError
                  end
              | _ => Err (ValueError NotSingleAgg)
              end
          end
      | PRef a =>
          match params with
          | _ :: _ => Err (ValueError ParamsWithAgg)
          | [] => Ok (h, a)
          end
      | _ =>
          let* cls := get_dsl_class name_or_agg in
          new (fun h v => A fuel' h v PNone []) cls true h params
      end
  end.

(** ** Serialization *)

Fixpoint mapM {T U : Type} (f : T -> res U) (l : list T) : res (list U) :=
  match l with
  | [] => Ok []
  | x :: l' =>
      let* y := f x in
      let* ys := mapM f l' in
      Ok (y :: ys)
  end.

Section Serialize.
(** [to_dict] of the node at an address, at the recursion depth left. *)
Variable to_dict_ : nat -> res pyval.

(** [value.to_dict()] *)
Definition value_to_dict (value : pyval) : res pyval :=
  match value with
  | PRef a => to_dict_ a
  | PQuery n b => Ok (Query_to_dict n b)
  | _ => Err AttributeError
  end.

(** [{k: v.to_dict() for k, v in value.items()}] *)
Definition hash_to_dict (value : pyval) : res pyval :=
  match value with
  | PDict d =>
      let* d' := mapM (fun kv => let* w := value_to_dict (snd kv) in
                                 Ok (fst kv, w)) d in
      Ok (PDict d')
  | _ => Err AttributeError
  end.

Definition typed_to_dict (pi : pinfo) (value : pyval) : res pyval :=
  if p_multi pi && p_hash pi then
    match value with
    | PList l => let* l' := mapM hash_to_dict l in Ok (PList l')
    | _ => Err TypeError
    end
  else if p_multi pi then
    match value with
    | PList l => let* l' := mapM value_to_dict l in Ok (PList l')
    | _ => Err TypeError
    end
  else if p_hash pi then hash_to_dict value
  else value_to_dict value.

(** [hasattr(value, "to_dict")] *)
Definition has_to_dict (value : pyval) : bool :=
  match value with
  | PRef _ | PQuery _ _ => true
  | _ => false
  end.

(** The body of the loop of [DslBase.to_dict]: the serialized value of one
    parameter, or [None] when the loop continues without storing it. *)
Definition serialize_param (cls : dsl_class) (pname : string) (value : pyval)
    : res (option pyval) :=
  match assoc pname (param_defs cls) with
  | Some pi =>
      if is_empty_container value then Ok None
      else let* value := typed_to_dict pi value in Ok (Some value)
  | None =>
      let* value := if has_to_dict value then value_to_dict value
                    else Ok value in
      Ok (Some value)
  end.

(** The loop of [DslBase.to_dict] over [self._params.items()], filling [d]. *)
Fixpoint serialize_params (cls : dsl_class) (d : dict) (params : dict)
    : res dict :=
  match params with
  | [] => Ok d
  | (pname, value) :: rest =>
      let* r := serialize_param cls pname value in
      match r with
      | None => serialize_params cls d rest
      | Some value => serialize_params cls (dict_set pname value d) rest
      end
  end.

(** Modelled from the spec: [DslBase.to_dict], [{self.name: d}] where [d]
    holds the serialized parameters: a typed parameter that is an empty
    container is left out, a node-valued or query-valued parameter is
    serialized by its own [to_dict]. *)
Definition DslBase_to_dict (self : obj) : res dict :=
  let* d := serialize_params (o_class self) [] (o_params self) in
  Ok [(cls_name (o_class self), PDict d)].

(** [Agg.to_dict] *)
Definition Agg_to_dict (self : obj) : res dict :=
  let name := cls_name (o_class self) in
  let* d := DslBase_to_dict self in
  match dict_get name d with
  | None => Err (KeyError name)
  | Some (PDict n) =>
      if dict_has "meta" n then
        let '(meta, n) := dict_pop "meta" PNone n in
        Ok (dict_set "meta" meta (dict_set name (PDict n) d))
      else Ok d
  | Some _ => Ok d
  end.

(** [Bucket.to_dict]; [super(AggBase, self).to_dict()] is [Agg.to_dict]. *)
Definition Bucket_to_dict (self : obj) : res dict :=
  let name := cls_name (o_class self) in
  let* d := Agg_to_dict self in
  match dict_get name d with
  | None => Err (KeyError name)
  | Some (PDict n) =>
      if dict_has "aggs" n then
        let '(aggs, n) := dict_pop "aggs" PNone n in
        Ok (dict_set "aggs" aggs (dict_set name (PDict n) d))
      else Ok d
  | Some _ => Ok d
  end.

(** [Filter.to_dict] *)
Definition Filter_to_dict (self : obj) : res dict :=
  let name := cls_name (o_class self) in
  let* d := Bucket_to_dict self in
  match dict_get name d with
  | None => Err (KeyError name)
  | Some (PDict n) =>
      let '(filter, n) := dict_pop "filter" (PDict []) n in
      match filter with
      | PDict f => Ok (dict_set name (PDict (dict_update n f)) d)
      | _ => Err TypeError
      end
  | Some _ => Ok d
  end.

(** The [to_dict] that the class of [self] resolves to. *)
Definition to_dict_method (self : obj) : res dict :=
  if String.eqb (cls_name (o_class self)) "filter" then Filter_to_dict self
  else if is_bucket (o_class self) then Bucket_to_dict self
  else Agg_to_dict self.
End Serialize.

(** [agg.to_dict()] for the node at address [a]. *)
Fixpoint to_dict (fuel : nat) (h : heap) (a : nat) : res pyval :=
  match fuel with
  | O => Err RecursionError
  | S fuel' =>
      match h !! a with
      | None => Err Unmodelled
      | Some self =>
          let* d := to_dict_method (to_dict fuel' h) self in
          Ok (PDict d)
      end
  end.

(** ** The container protocol of [AggBase] *)

(** The outcome of a method that may mutate nodes before it raises: the store
    after the call, and the value returned or the exception. *)
Definition outcome (T : Type) : Type := heap * res T.

(** The children of a node: [self._params.get("aggs", {})]. *)
Definition aggs_of (o : obj) : dict :=
  match dict_get "aggs" (o_params o) with
  | Some (PDict d) => d
  | _ => []
  end.

Definition child (h : heap) (self : nat) (agg_name : string) : option nat :=
  match h !! self with
  | Some o =>
      match dict_get agg_name (aggs_of o) with
      | Some (PRef c) => Some c
      | _ => None
      end
  | None => None
  end.

(** [AggBase.__contains__] *)
Definition AggBase_contains (h : heap) (self : nat) (key : string) : res bool :=
  match h !! self with
  | None => Err Unmodelled
  | Some o =>
      match dict_get "aggs" (o_params o) with
      | None => Ok false
      | Some (PDict aggs) => Ok (dict_has key aggs)
      | Some _ => Err TypeError
      end
  end.

(** [self._params["aggs"][agg_name] = agg] *)
Definition store_child (o : obj) (agg_name : string) (agg : nat) : obj :=
  set_params o
    (dict_set "aggs" (PDict (dict_set agg_name (PRef agg) (aggs_of o))) (o_params o)).

(** [self._params.setdefault("aggs", {})] *)
Definition setdefault_aggs (o : obj) : obj :=
  if dict_has "aggs" (o_params o) then o
  else set_params o (dict_set "aggs" (PDict []) (o_params o)).

(** [AggBase.__getitem__].  In the call [A(agg.name, filter=None,
    **agg._params)] a key of [agg._params] that names a parameter of [A]
    collides with the arguments already given. *)
Definition AggBase_getitem (fuel : nat) (h : heap) (self : nat)
    (agg_name : string) : outcome nat :=
  match h !! self with
  | None => (h, Err Unmodelled)
  | Some o =>
      if negb (is_bucket (o_class o)) then (h, Err TypeError) else
      let h1 := <[self := setdefault_aggs o]> h in
      match dict_get "aggs" (o_params (setdefault_aggs o)) with
      | Some (PDict aggs) =>
          match dict_get agg_name aggs with
          | None => (h1, Err (KeyError agg_name))
          | Some (PRef agg) =>
              match h1 !! agg with
              | None => (h1, Err Unmodelled)
              | Some co =>
                  if is_bucket (o_class co) then
                    if dict_has "filter" (o_params co)
                       || dict_has "name_or_agg" (o_params co)
                    then (h1, Err TypeError)
                    else
                      match A fuel h1 (PStr (cls_name (o_class co))) PNone
                              (o_params co) with
                      | Err e => (h1, Err e)
                      | Ok (h2, agg') =>
                          match h2 !! self with
                          | None => (h2, Err Unmodelled)
                          | Some o2 =>
                              (<[self := store_child o2 agg_name agg']> h2, Ok agg')
                          end
                      end
                  else (h1, Ok agg)
              end
          | Some _ => (h1, Err Unmodelled)
          end
      | _ => (h1, Err TypeError)
      end
  end.

(** [AggBase.__setitem__]: [self.aggs[agg_name] = A(agg)].  The right-hand
    side is evaluated first; [self.aggs] creates the dict when it is missing. *)
Definition AggBase_setitem (fuel : nat) (h : heap) (self : nat)
    (agg_name : string) (agg : pyval) : outcome unit :=
  match A fuel h agg PNone [] with
  | Err e => (h, Err e)
  | Ok (h1, a) =>
      match h1 !! self with
      | None => (h1, Err Unmodelled)
      | Some o =>
          if negb (is_bucket (o_class o)) then (h1, Err TypeError) else
          match dict_get "aggs" (o_params o) with
          | Some (PDict _) | None =>
              (<[self := store_child o agg_name a]> h1, Ok tt)
          | Some _ => (h1, Err TypeError)
          end
      end
  end.

(** The call [A(agg_type, *args, **params)]: positional and keyword arguments
    are bound to [name_or_agg], [filter] and [**params] as Python does. *)
Definition call_A (fuel : nat) (h : heap) (agg_type : pyval) (args : list pyval)
    (params : dict) : res (heap * nat) :=
  if dict_has "name_or_agg" params then Err TypeError else
  match args with
  | [] =>
      let '(filter, params) := dict_pop "filter" PNone params in
      A fuel h agg_type filter params
  | [filter] =>
      if dict_has "filter" params then Err TypeError
      else A fuel h agg_type filter params
  | _ => Err TypeError
  end.

(** A key of [**params] that names a parameter already given by position:
    Python raises [TypeError] ("got multiple values for argument"). *)
Definition collides (names : list string) (params : dict) : bool :=
  existsb (fun k => dict_has k params) names.

(** [AggBase._agg(self, bucket, name, agg_type, *args, **params)], as it is
    called by [metric], [bucket] and [pipeline]:
    [self._agg(False, name, agg_type, *args, **params)]. *)
Definition AggBase_agg (fuel : nat) (h : heap) (self : nat) (bucket : bool)
    (name : string) (agg_type : pyval) (args : list pyval) (params : dict)
    : outcome nat :=
  if collides ["self"; "bucket"; "name"; "agg_type"] params
  then (h, Err TypeError) else
  match call_A fuel h agg_type args params with
  | Err e => (h, Err e)
  | Ok (h1, agg) =>
      match AggBase_setitem fuel h1 self name (PRef agg) with
      | (h2, Err e) => (h2, Err e)
      | (h2, Ok _) =>
          (* For chaining - when creating new buckets return them,
             otherwise return self._base so we can keep chaining *)
          if bucket then (h2, Ok agg)
          else
            match h2 !! self with
            | Some o =>
                match o_base o with
                | Some base => (h2, Ok base)
                | None => (h2, Err AttributeError)
                end
            | None => (h2, Err Unmodelled)
            end
      end
  end.

(** [metric(self, name, agg_type, *args, **params)], and likewise [bucket]
    and [pipeline]: a keyword [self], [name] or [agg_type] collides at the
    method itself. *)
Definition metric (fuel : nat) (h : heap) (self : nat) (name : string)
    (agg_type : pyval) (args : list pyval) (params : dict) : outcome nat :=
  if collides ["self"; "name"; "agg_type"] params then (h, Err TypeError) else
  AggBase_agg fuel h self false name agg_type args params.

Definition bucket (fuel : nat) (h : heap) (self : nat) (name : string)
    (agg_type : pyval) (args : list pyval) (params : dict) : outcome nat :=
  if collides ["self"; "name"; "agg_type"] params then (h, Err TypeError) else
  AggBase_agg fuel h self true name agg_type args params.

Definition pipeline (fuel : nat) (h : heap) (self : nat) (name : string)
    (agg_type : pyval) (args : list pyval) (params : dict) : outcome nat :=
  if collides ["self"; "name"; "agg_type"] params then (h, Err TypeError) else
  AggBase_agg fuel h self false name agg_type args params.

(** [AggBase.result] / [Agg.result] and the overrides: the view that wraps
    the response data of the node at [self]. *)
Definition result (h : heap) (self : nat) : option view :=
  match h !! self with
  | Some o => Some (result_view (o_class o))
  | None => None
  end.

(** A mutation of a node by its holder: [node._params[name] = value]. *)
Definition set_param (h : heap) (node : nat) (name : string) (value : pyval)
    : heap :=
  match h !! node with
  | Some o => <[node := set_params o (dict_set name value (o_params o))]> h
  | None => h
  end.

(** ** Well-formed nodes *)

(** What the constructor leaves in a typed parameter: node objects for the
    type ["agg"], query objects for the type ["query"], in the container that
    the [multi] and [hash] flags ask for. *)
Definition is_obj (t : dsl_type) (v : pyval) : bool :=
  match t, v with
  | TAgg, PRef _ => true
  | TQuery, PQuery _ _ => true
  | _, _ => false
  end.

Definition hash_of (t : dsl_type) (v : pyval) : bool :=
  match v with
  | PDict d => forallb (fun kv => is_obj t (snd kv)) d
  | _ => false
  end.

Definition coerced (pi : pinfo) (v : pyval) : bool :=
  if p_multi pi && p_hash pi then
    match v with PList l => forallb (hash_of (p_type pi)) l | _ => false end
  else if p_multi pi then
    match v with PList l => forallb (is_obj (p_type pi)) l | _ => false end
  else if p_hash pi then hash_of (p_type pi) v
  else is_obj (p_type pi) v.

Definition coerced_params (cls : dsl_class) (ps : dict) : bool :=
  forallb (fun kv => match assoc (fst kv) (param_defs cls) with
                     | Some pi => coerced pi (snd kv)
                     | None => true
                     end) ps.

(** The class is one of the registry. *)
Definition registered (cls : dsl_class) : bool :=
  bool_decide (cls ∈ classes).

(** A node as [__init__] builds it: an instance of a registered class whose
    [_params] is a dict with coerced typed parameters. *)
Definition wf_obj (o : obj) : bool :=
  registered (o_class o)
  && uniq (keys (o_params o))
  && coerced_params (o_class o) (o_params o).

(** The nodes a value refers to. *)
Fixpoint refs (v : pyval) : list nat :=
  match v with
  | PRef a => [a]
  | PList l => flat_map refs l
  | PDict d => flat_map (fun kv => refs (snd kv)) d
  | PQuery _ b => flat_map (fun kv => refs (snd kv)) b
  | _ => []
  end.

(** The nodes that [to_dict] of [o] descends into: those of the typed
    parameters that are not skipped, and a node held directly by an untyped
    parameter. *)
Definition subnodes (o : obj) : list nat :=
  flat_map (fun kv => match assoc (fst kv) (param_defs (o_class o)) with
                      | Some _ => refs (snd kv)
                      | None => match snd kv with PRef a => [a] | _ => [] end
                      end) (o_params o).

(** The tree below [a] is well formed down to depth [n], where it ends. *)
Fixpoint wf_tree (n : nat) (h : heap) (a : nat) : bool :=
  match n with
  | O => false
  | S n' =>
      match h !! a with
      | Some o => wf_obj o && forallb (wf_tree n' h) (subnodes o)
      | None => false
      end
  end.

(** ** Closed forms used in the proofs *)

(** The entries that the loop of [DslBase.to_dict] stores, in order. *)
Fixpoint serialized_entries (to_dict_ : nat -> res pyval) (cls : dsl_class)
    (params : dict) : res dict :=
  match params with
  | [] => Ok []
  | (pname, value) :: rest =>
      let* r := serialize_param to_dict_ cls pname value in
      let* es := serialized_entries to_dict_ cls rest in
      Ok (match r with Some w => (pname, w) :: es | None => es end)
  end.

(** The entry of [n] under [key], as a one-entry dict, when there is one. *)
Definition sibling (key : string) (n : dict) : dict :=
  match dict_get key n with
  | Some v => [(key, v)]
  | None => []
  end.

(** The object under the kind tag, from the serialized parameters [n]. *)
Definition inner_of (cls : dsl_class) (n : dict) : res dict :=
  let n1 := dict_del "meta" n in
  let n2 := if is_bucket cls then dict_del "aggs" n1 else n1 in
  if String.eqb (cls_name cls) "filter" then
    match dict_get "filter" n2 with
    | Some (PDict f) => Ok (dict_update (dict_del "filter" n2) f)
    | Some _ => Err TypeError
    | None => Ok n2
    end
  else Ok n2.

(** The wire object of a node of class [cls] with serialized parameters [n]:
    the kind tag first, then [meta], then [aggs]. *)
Definition wire_of (cls : dsl_class) (n : dict) : res dict :=
  let* inner := inner_of cls n in
  Ok ((cls_name cls, PDict inner)
        :: sibling "meta" n
        ++ (if is_bucket cls then sibling "aggs" n else [])).

(** The query held by a [filter] node does not serialize under a reserved
    key.  (No query of the query subsystem is named so.) *)
Definition filter_ok (o : obj) : bool :=
  match dict_get "filter" (o_params o) with
  | Some (PQuery qn _) =>
      negb (String.eqb qn "filter" || String.eqb qn "aggs" || String.eqb qn "meta")
  | _ => true
  end.

(** How the loop of [DslBase.to_dict] serializes the value of an untyped
    parameter. *)
Definition untyped_to_dict (to_dict_ : nat -> res pyval) (value : pyval)
    : res pyval :=
  if has_to_dict value then value_to_dict to_dict_ value else Ok value.

(** The serialized children: [{k: v.to_dict() for k, v in aggs.items()}]. *)
Definition children_to_dict (to_dict_ : nat -> res pyval) (aggs : dict)
    : res dict :=
  mapM (fun kv => let* w := value_to_dict to_dict_ (snd kv) in Ok (fst kv, w)) aggs.

(** The [meta] parameter, when there is one, is truthy ([A] re-attaches
    [meta] under [if meta:]). *)
Definition meta_ok (o : obj) : bool :=
  match dict_get "meta" (o_params o) with
  | Some m => truthy m
  | None => true
  end.

(** The tree below [a] is well formed down to depth [n], and every node of it
    has a truthy [meta], if any, and a filter query, if any, that does not
    serialize under a reserved key. *)
Fixpoint round_trip_ok (n : nat) (h : heap) (a : nat) : bool :=
  match n with
  | O => false
  | S n' =>
      match h !! a with
      | Some o =>
          wf_obj o && meta_ok o && filter_ok o
          && forallb (round_trip_ok n' h) (subnodes o)
      | None => false
      end
  end.

(** The wire entry [kw] can be given back to the constructor of [cls]: the
    value that [_setattr] stores for it serializes to the entry again, in
    every later store. *)
Definition rebuilds (n : nat) (cls : dsl_class) (kw : string * pyval) : Prop :=
  forall h0 : heap, exists (h1 : heap) (v' : pyval),
    match assoc (fst kw) (param_defs cls) with
    | Some pi => coerce (fun h v => A n h v PNone []) pi h0 (snd kw)
    | None => Ok (h0, snd kw)
    end = Ok (h1, v') /\
    h0 `prefix_of` h1 /\
    forall h2 : heap, h1 `prefix_of` h2 ->
      serialize_param (to_dict n h2) cls (fst kw) v' = Ok (Some (snd kw)).

(** The parameters that [A] hands to the constructor for the wire-format
    mapping [agg]: those under the kind tag, with [aggs] and [meta]
    re-attached when they are truthy. *)
Definition reattached (agg : dict) (params : dict) : dict :=
  let aggs := fst (dict_pop "aggs" PNone agg) in
  let meta := fst (dict_pop "meta" PNone (dict_del "aggs" agg)) in
  let params := if truthy aggs then dict_set "aggs" aggs params else params in
  if truthy meta then dict_set "meta" meta params else params.

(** The keys of a wire-format mapping besides the reserved [aggs] and
    [meta]. *)
Definition non_reserved (agg : dict) : dict :=
  dict_del "meta" (dict_del "aggs" agg).

(** A one-entry dict, or the empty one. *)
Definition opt_entry (key : string) (v : option pyval) : dict :=
  match v with
  | Some v => [(key, v)]
  | None => []
  end.

(** ** Wire-format mappings that the factory builds *)

(** The shortcut of a declared type accepts the value: the node factory at
    the depth left ([ws]), or the query shortcut. *)
Definition shortcut_ok (ws : pyval -> bool) (t : dsl_type) (v : pyval) : bool :=
  match t with
  | TAgg => ws v
  | TQuery => match Q v with Ok _ => true | Err _ => false end
  end.

Definition hash_ok (ws : pyval -> bool) (t : dsl_type) (v : pyval) : bool :=
  match v with
  | PDict d => forallb (fun kv => shortcut_ok ws t (snd kv)) d
  | _ => false
  end.

(** The value of a typed parameter can be coerced, following [coerce]. *)
Definition coercible (ws : pyval -> bool) (pi : pinfo) (v : pyval) : bool :=
  if p_multi pi && p_hash pi then forallb (hash_ok ws (p_type pi)) (as_list v)
  else if p_multi pi then forallb (shortcut_ok ws (p_type pi)) (as_list v)
  else if p_hash pi then hash_ok ws (p_type pi) v
  else shortcut_ok ws (p_type pi) v.

(** What the factory builds a node from, down to depth [n]: the name of a
    registered kind; a node; a mapping that holds no node and has one key
    besides [aggs] and [meta], of a registered kind, with a mapping under it,
    such that every typed parameter among the re-attached ones can be
    coerced -- for [aggs], every child is well shaped in turn. *)
Fixpoint well_shaped (n : nat) (v : pyval) : bool :=
  match n with
  | O => false
  | S n' =>
      match v with
      | PDict agg =>
          no_refs v &&
          match non_reserved agg with
          | [(agg_type, PDict params)] =>
              match get_dsl_class (PStr agg_type) with
              | Ok cls =>
                  let ps := reattached agg params in
                  forallb
                    (fun kv =>
                       match assoc (fst kv) (param_defs cls) with
                       | Some pi => coercible (well_shaped n') pi (snd kv)
                       | None => true
                       end)
                    (if String.eqb (cls_name cls) "filter" then Filter_init ps
                     else ps)
              | Err _ => false
              end
          | _ => false
          end
      | PRef _ => true
      | _ => match get_dsl_class v with Ok _ => true | Err _ => false end
      end
  end.

(** ** Example trees *)

Definition Terms : dsl_class := mk_class "terms" Bucket (Some FieldBucketData).
Definition Max : dsl_class := mk_class "max" Metric None.
Definition FilterAgg : dsl_class := mk_class "filter" Bucket None.

(** [A("terms", field="t")] *)
Definition ex_root : heap :=
  [mk_obj Terms [("field", PStr "t")] (Some 0)].

(** The same after [.bucket("a", "terms", field="f")]. *)
Definition ex_tree : heap :=
  [mk_obj Terms [("field", PStr "t"); ("aggs", PDict [("a", PRef 1)])] (Some 0);
   mk_obj Terms [("field", PStr "f")] (Some 1)].

(** [A("filter", Q("term", f=1), meta={"a": 1})] *)
Definition ex_filter : heap :=
  [mk_obj FilterAgg
     [("meta", PDict [("a", PInt 1)]); ("filter", PQuery "term" [("f", PInt 1)])]
     (Some 0)].

(** [{"terms": {"field": "tags"}, "aggs": {"x": {"max": {"field": "y"}}}}] *)
Definition ex_wire : dict :=
  [("terms", PDict [("field", PStr "tags")]);
   ("aggs", PDict [("x", PDict [("max", PDict [("field", PStr "y")])])])].

(** The store that [A(ex_wire)] builds from the empty one. *)
Definition ex_built : heap :=
  [mk_obj Max [("field", PStr "y")] None;
   mk_obj Terms [("field", PStr "tags"); ("aggs", PDict [("x", PRef 0)])] (Some 1)].

(** A mapping whose child under [aggs] has no kind key, and one whose [meta]
    is empty. *)
Definition ex_bad_child : dict :=
  [("terms", PDict []); ("aggs", PDict [("x", PDict [])])].

Definition ex_empty_meta : dict :=
  [("terms", PDict [("field", PStr "tags")]); ("meta", PDict [])].

(** ** The container protocol: iteration and membership *)

(** [AggBase.__iter__]: [iter(self.aggs)], the names of the children in the
    order of the dict; [self.aggs] creates the dict when it is missing. *)
Definition AggBase_iter (h : heap) (self : nat) : outcome (list string) :=
  match h !! self with
  | None => (h, Err Unmodelled)
  | Some o =>
      if negb (is_bucket (o_class o)) then (h, Err TypeError) else
      let h1 := <[self := setdefault_aggs o]> h in
      match dict_get "aggs" (o_params (setdefault_aggs o)) with
      | Some (PDict aggs) => (h1, Ok (keys aggs))
      | _ => (h1, Err Unmodelled)
      end
  end.

(** [Agg.__contains__] *)
Definition Agg_contains (h : heap) (self : nat) (key : string) : res bool :=
  Ok false.

(** [key in agg]: [AggBase.__contains__] comes first in the method resolution
    order of a [Bucket], a metric or a pipeline has [Agg.__contains__]. *)
Definition contains (h : heap) (self : nat) (key : string) : res bool :=
  match h !! self with
  | None => Err Unmodelled
  | Some o =>
      if is_bucket (o_class o) then AggBase_contains h self key
      else Agg_contains h self key
  end.

(** A parameter value that the loop of [DslBase.to_dict] stores as it is. *)
Definition plain (v : pyval) : bool := negb (has_to_dict v).

(** ["__" in pname].  A constructor that is not called with
    [_expand__to_dot=False] may rewrite such a parameter name. *)
Definition has_dunder (pname : string) : bool :=
  match String.index 0 "__" pname with
  | Some _ => true
  | None => false
  end.

(** * Typed attribute dictionaries (types.py)

    Every class of [types.py] is a thin wrapper around a dict: its
    [__init__] takes keyword-only parameters that default to the sentinel
    [DEFAULT], copies those that were given into [kwargs] and hands [kwargs]
    to the [__init__] of its base. *)

(** A value of a keyword: the sentinel [DEFAULT] or any other object. *)
Inductive tval : Type :=
| DEFAULT
| Val (v : pyval).

(** A keyword dict: insertion ordered, keys unique. *)
Definition tdict := list (string * tval).

Fixpoint kw_get (k : string) (d : tdict) : option tval :=
  match d with
  | [] => None
  | (k', v) :: d' => if String.eqb k' k then Some v else kw_get k d'
  end.

(** [kwargs[k] = v] *)
Fixpoint kw_set (k : string) (v : tval) (d : tdict) : tdict :=
  match d with
  | [] => [(k, v)]
  | (k', v') :: d' =>
      if String.eqb k' k then (k, v) :: d' else (k', v') :: kw_set k v d'
  end.

(** How a parameter is stored: [kwargs["p"] = p] or [kwargs["p"] = str(p)]. *)
Inductive conv : Type := Raw | Str.

(** A class of [types.py]: its name, its base, and its [__init__] when it
    defines one: the keyword-only parameters in the order of the [if]
    statements of the body, and whether the body ends with
    [super().__init__( **kwargs)] ([true]) or [super().__init__(kwargs)]. *)
Record type_class : Type := mk_type {
  t_name : string;
  t_base : string;
  t_init : option (list (string * conv) * bool)
}.

(** The classes of types.py, in source order. *)
Definition type_classes : list type_class :=
  [ mk_type "QueryBase" "AttrDict" (Some
      ([("boost", Raw); ("_name", Raw)],
       false));
    mk_type "CommonTermsQuery" "QueryBase" (Some
      ([("query", Raw); ("analyzer", Raw); ("cutoff_frequency", Raw);
        ("high_freq_operator", Raw); ("low_freq_operator", Raw);
        ("minimum_should_match", Raw); ("boost", Raw); ("_name", Raw)],
       true));
    mk_type "CoordsGeoBounds" "AttrDict" (Some
      ([("top", Raw); ("bottom", Raw); ("left", Raw); ("right", Raw)],
       false));
    mk_type "FunctionScoreContainer" "AttrDict" (Some
      ([("exp", Raw); ("gauss", Raw); ("linear", Raw); ("field_value_factor", Raw);
        ("random_score", Raw); ("script_score", Raw); ("filter", Raw); ("weight", Raw)],
       false));
    mk_type "FuzzyQuery" "QueryBase" (Some
      ([("value", Raw); ("max_expansions", Raw); ("prefix_length", Raw);
        ("rewrite", Raw); ("transpositions", Raw); ("fuzziness", Raw); ("boost", Raw);
        ("_name", Raw)],
       true));
    mk_type "GeoHashLocation" "AttrDict" (Some
      ([("geohash", Raw)],
       false));
    mk_type "GeoPolygonPoints" "AttrDict" (Some
      ([("points", Raw)],
       false));
    mk_type "GeoShapeFieldQuery" "AttrDict" (Some
      ([("shape", Raw); ("indexed_shape", Raw); ("relation", Raw)],
       false));
    mk_type "InnerHits" "AttrDict" (Some
      ([("name", Raw); ("size", Raw); ("from_", Raw); ("collapse", Raw);
        ("docvalue_fields", Raw); ("explain", Raw); ("highlight", Raw);
        ("ignore_unmapped", Raw); ("script_fields", Str); ("seq_no_primary_term", Raw);
        ("fields", Str); ("sort", Str); ("_source", Raw); ("stored_fields", Str);
        ("track_scores", Raw); ("version", Raw)],
       false));
    mk_type "IntervalsQuery" "QueryBase" (Some
      ([("all_of", Raw); ("any_of", Raw); ("fuzzy", Raw); ("match", Raw);
        ("prefix", Raw); ("wildcard", Raw); ("boost", Raw); ("_name", Raw)],
       true));
    mk_type "LatLonGeoLocation" "AttrDict" (Some
      ([("lat", Raw); ("lon", Raw)],
       false));
    mk_type "LikeDocument" "AttrDict" (Some
      ([("doc", Raw); ("fields", Str); ("_id", Raw); ("_index", Raw);
        ("per_field_analyzer", Str); ("routing", Raw); ("version", Raw);
        ("version_type", Raw)],
       false));
    mk_type "MatchBoolPrefixQuery" "QueryBase" (Some
      ([("query", Raw); ("analyzer", Raw); ("fuzziness", Raw); ("fuzzy_rewrite", Raw);
        ("fuzzy_transpositions", Raw); ("max_expansions", Raw);
        ("minimum_should_match", Raw); ("operator", Raw); ("prefix_length", Raw);
        ("boost", Raw); ("_name", Raw)],
       true));
    mk_type "MatchPhrasePrefixQuery" "QueryBase" (Some
      ([("query", Raw); ("analyzer", Raw); ("max_expansions", Raw); ("slop", Raw);
        ("zero_terms_query", Raw); ("boost", Raw); ("_name", Raw)],
       true));
    mk_type "MatchPhraseQuery" "QueryBase" (Some
      ([("query", Raw); ("analyzer", Raw); ("slop", Raw); ("zero_terms_query", Raw);
        ("boost", Raw); ("_name", Raw)],
       true));
    mk_type "MatchQuery" "QueryBase" (Some
      ([("query", Raw); ("analyzer", Raw); ("auto_generate_synonyms_phrase_query", Raw);
        ("cutoff_frequency", Raw); ("fuzziness", Raw); ("fuzzy_rewrite", Raw);
        ("fuzzy_transpositions", Raw); ("lenient", Raw); ("max_expansions", Raw);
        ("minimum_should_match", Raw); ("operator", Raw); ("prefix_length", Raw);
        ("zero_terms_query", Raw); ("boost", Raw); ("_name", Raw)],
       true));
    mk_type "PinnedDoc" "AttrDict" (Some
      ([("_id", Raw); ("_index", Raw)],
       false));
    mk_type "PrefixQuery" "QueryBase" (Some
      ([("value", Raw); ("rewrite", Raw); ("case_insensitive", Raw); ("boost", Raw);
        ("_name", Raw)],
       true));
    mk_type "QueryVectorBuilder" "AttrDict" (Some
      ([("text_embedding", Raw)],
       false));
    mk_type "RankFeatureFunction" "AttrDict" None;
    mk_type "RankFeatureFunctionLinear" "RankFeatureFunction" None;
    mk_type "RankFeatureFunctionLogarithm" "RankFeatureFunction" (Some
      ([("scaling_factor", Raw)],
       true));
    mk_type "RankFeatureFunctionSaturation" "RankFeatureFunction" (Some
      ([("pivot", Raw)],
       true));
    mk_type "RankFeatureFunctionSigmoid" "RankFeatureFunction" (Some
      ([("pivot", Raw); ("exponent", Raw)],
       true));
    mk_type "RegexpQuery" "QueryBase" (Some
      ([("value", Raw); ("case_insensitive", Raw); ("flags", Raw);
        ("max_determinized_states", Raw); ("rewrite", Raw); ("boost", Raw);
        ("_name", Raw)],
       true));
    mk_type "Script" "AttrDict" (Some
      ([("source", Raw); ("id", Raw); ("params", Raw); ("lang", Raw); ("options", Raw)],
       false));
    mk_type "ShapeFieldQuery" "AttrDict" (Some
      ([("indexed_shape", Raw); ("relation", Raw); ("shape", Raw)],
       false));
    mk_type "SpanQuery" "AttrDict" (Some
      ([("span_containing", Raw); ("span_field_masking", Raw); ("span_first", Raw);
        ("span_gap", Str); ("span_multi", Raw); ("span_near", Raw); ("span_not", Raw);
        ("span_or", Raw); ("span_term", Str); ("span_within", Raw)],
       false));
    mk_type "SpanTermQuery" "QueryBase" (Some
      ([("value", Raw); ("boost", Raw); ("_name", Raw)],
       true));
    mk_type "TermQuery" "QueryBase" (Some
      ([("value", Raw); ("case_insensitive", Raw); ("boost", Raw); ("_name", Raw)],
       true));
    mk_type "TermsLookup" "AttrDict" (Some
      ([("index", Raw); ("id", Raw); ("path", Str); ("routing", Raw)],
       false));
    mk_type "TermsSetQuery" "QueryBase" (Some
      ([("terms", Raw); ("minimum_should_match_field", Str);
        ("minimum_should_match_script", Raw); ("boost", Raw); ("_name", Raw)],
       true));
    mk_type "TextExpansionQuery" "QueryBase" (Some
      ([("model_id", Raw); ("model_text", Raw); ("pruning_config", Raw); ("boost", Raw);
        ("_name", Raw)],
       true));
    mk_type "TokenPruningConfig" "AttrDict" (Some
      ([("tokens_freq_ratio_threshold", Raw); ("tokens_weight_threshold", Raw);
        ("only_score_pruned_tokens", Raw)],
       false));
    mk_type "TopLeftBottomRightGeoBounds" "AttrDict" (Some
      ([("top_left", Raw); ("bottom_right", Raw)],
       false));
    mk_type "TopRightBottomLeftGeoBounds" "AttrDict" (Some
      ([("top_right", Raw); ("bottom_left", Raw)],
       false));
    mk_type "WeightedTokensQuery" "QueryBase" (Some
      ([("tokens", Raw); ("pruning_config", Raw); ("boost", Raw); ("_name", Raw)],
       true));
    mk_type "WildcardQuery" "QueryBase" (Some
      ([("case_insensitive", Raw); ("rewrite", Raw); ("value", Raw); ("wildcard", Raw);
        ("boost", Raw); ("_name", Raw)],
       true));
    mk_type "WktGeoBounds" "AttrDict" (Some
      ([("wkt", Raw)],
       false));
    mk_type "FieldLookup" "AttrDict" (Some
      ([("id", Raw); ("index", Raw); ("path", Str); ("routing", Raw)],
       false));
    mk_type "FieldCollapse" "AttrDict" (Some
      ([("field", Str); ("inner_hits", Raw); ("max_concurrent_group_searches", Raw);
        ("collapse", Raw)],
       false));
    mk_type "FieldAndFormat" "AttrDict" (Some
      ([("field", Str); ("format", Raw); ("include_unmapped", Raw)],
       false));
    mk_type "HighlightBase" "AttrDict" (Some
      ([("type", Raw); ("boundary_chars", Raw); ("boundary_max_scan", Raw);
        ("boundary_scanner", Raw); ("boundary_scanner_locale", Raw);
        ("force_source", Raw); ("fragmenter", Raw); ("fragment_size", Raw);
        ("highlight_filter", Raw); ("highlight_query", Raw);
        ("max_fragment_length", Raw); ("max_analyzed_offset", Raw);
        ("no_match_size", Raw); ("number_of_fragments", Raw); ("options", Raw);
        ("order", Raw); ("phrase_limit", Raw); ("post_tags", Raw); ("pre_tags", Raw);
        ("require_field_match", Raw); ("tags_schema", Raw)],
       false));
    mk_type "Highlight" "HighlightBase" (Some
      ([("fields", Str); ("encoder", Raw); ("type", Raw); ("boundary_chars", Raw);
        ("boundary_max_scan", Raw); ("boundary_scanner", Raw);
        ("boundary_scanner_locale", Raw); ("force_source", Raw); ("fragmenter", Raw);
        ("fragment_size", Raw); ("highlight_filter", Raw); ("highlight_query", Raw);
        ("max_fragment_length", Raw); ("max_analyzed_offset", Raw);
        ("no_match_size", Raw); ("number_of_fragments", Raw); ("options", Raw);
        ("order", Raw); ("phrase_limit", Raw); ("post_tags", Raw); ("pre_tags", Raw);
        ("require_field_match", Raw); ("tags_schema", Raw)],
       true));
    mk_type "ScriptField" "AttrDict" (Some
      ([("script", Raw); ("ignore_failure", Raw)],
       false));
    mk_type "SortOptions" "AttrDict" (Some
      ([("_score", Raw); ("_doc", Raw); ("_geo_distance", Raw); ("_script", Raw)],
       false));
    mk_type "SourceFilter" "AttrDict" (Some
      ([("excludes", Str); ("includes", Str)],
       false));
    mk_type "IntervalsAllOf" "AttrDict" (Some
      ([("intervals", Raw); ("max_gaps", Raw); ("ordered", Raw); ("filter", Raw)],
       false));
    mk_type "IntervalsAnyOf" "AttrDict" (Some
      ([("intervals", Raw); ("filter", Raw)],
       false));
    mk_type "IntervalsFuzzy" "AttrDict" (Some
      ([("term", Raw); ("analyzer", Raw); ("fuzziness", Raw); ("prefix_length", Raw);
        ("transpositions", Raw); ("use_field", Str)],
       false));
    mk_type "IntervalsMatch" "AttrDict" (Some
      ([("query", Raw); ("analyzer", Raw); ("max_gaps", Raw); ("ordered", Raw);
        ("use_field", Str); ("filter", Raw)],
       false));
    mk_type "IntervalsPrefix" "AttrDict" (Some
      ([("prefix", Raw); ("analyzer", Raw); ("use_field", Str)],
       false));
    mk_type "IntervalsWildcard" "AttrDict" (Some
      ([("pattern", Raw); ("analyzer", Raw); ("use_field", Str)],
       false));
    mk_type "TextEmbedding" "AttrDict" (Some
      ([("model_id", Raw); ("model_text", Raw)],
       false));
    mk_type "SpanContainingQuery" "QueryBase" (Some
      ([("big", Raw); ("little", Raw); ("boost", Raw); ("_name", Raw)],
       true));
    mk_type "SpanFieldMaskingQuery" "QueryBase" (Some
      ([("field", Str); ("query", Raw); ("boost", Raw); ("_name", Raw)],
       true));
    mk_type "SpanFirstQuery" "QueryBase" (Some
      ([("end", Raw); ("match", Raw); ("boost", Raw); ("_name", Raw)],
       true));
    mk_type "SpanMultiTermQuery" "QueryBase" (Some
      ([("match", Raw); ("boost", Raw); ("_name", Raw)],
       true));
    mk_type "SpanNearQuery" "QueryBase" (Some
      ([("clauses", Raw); ("in_order", Raw); ("slop", Raw); ("boost", Raw);
        ("_name", Raw)],
       true));
    mk_type "SpanNotQuery" "QueryBase" (Some
      ([("exclude", Raw); ("include", Raw); ("dist", Raw); ("post", Raw); ("pre", Raw);
        ("boost", Raw); ("_name", Raw)],
       true));
    mk_type "SpanOrQuery" "QueryBase" (Some
      ([("clauses", Raw); ("boost", Raw); ("_name", Raw)],
       true));
    mk_type "SpanWithinQuery" "QueryBase" (Some
      ([("big", Raw); ("little", Raw); ("boost", Raw); ("_name", Raw)],
       true));
    mk_type "HighlightField" "HighlightBase" (Some
      ([("fragment_offset", Raw); ("matched_fields", Str); ("analyzer", Raw);
        ("type", Raw); ("boundary_chars", Raw); ("boundary_max_scan", Raw);
        ("boundary_scanner", Raw); ("boundary_scanner_locale", Raw);
        ("force_source", Raw); ("fragmenter", Raw); ("fragment_size", Raw);
        ("highlight_filter", Raw); ("highlight_query", Raw);
        ("max_fragment_length", Raw); ("max_analyzed_offset", Raw);
        ("no_match_size", Raw); ("number_of_fragments", Raw); ("options", Raw);
        ("order", Raw); ("phrase_limit", Raw); ("post_tags", Raw); ("pre_tags", Raw);
        ("require_field_match", Raw); ("tags_schema", Raw)],
       true));
    mk_type "ScoreSort" "AttrDict" (Some
      ([("order", Raw)],
       false));
    mk_type "GeoDistanceSort" "AttrDict" (Some
      ([("mode", Raw); ("distance_type", Raw); ("ignore_unmapped", Raw); ("order", Raw);
        ("unit", Raw); ("nested", Raw)],
       false));
    mk_type "ScriptSort" "AttrDict" (Some
      ([("script", Raw); ("order", Raw); ("type", Raw); ("mode", Raw); ("nested", Raw)],
       false));
    mk_type "IntervalsContainer" "AttrDict" (Some
      ([("all_of", Raw); ("any_of", Raw); ("fuzzy", Raw); ("match", Raw);
        ("prefix", Raw); ("wildcard", Raw)],
       false));
    mk_type "IntervalsFilter" "AttrDict" (Some
      ([("after", Raw); ("before", Raw); ("contained_by", Raw); ("containing", Raw);
        ("not_contained_by", Raw); ("not_containing", Raw); ("not_overlapping", Raw);
        ("overlapping", Raw); ("script", Raw)],
       false));
    mk_type "NestedSortValue" "AttrDict" (Some
      ([("path", Str); ("filter", Raw); ("max_children", Raw); ("nested", Raw)],
       false))
  ].

(** The value bound to the keyword-only parameter [p] by a call with the
    keywords [call]: the keyword, or the default [DEFAULT]. *)
Definition bound (p : string) (call : tdict) : tval :=
  match kw_get p call with
  | Some v => v
  | None => DEFAULT
  end.

Definition declares (fields : list (string * conv)) (k : string) : bool :=
  existsb (String.eqb k) (map fst fields).

(** [ **kwargs]: the keywords of the call that name no parameter. *)
Definition rest_kwargs (fields : list (string * conv)) (call : tdict) : tdict :=
  List.filter (fun kv => negb (declares fields (fst kv))) call.

(** How [AttrDict.__init__] (utils.py) is finally called: with the dict as
    its one positional argument, or with the entries of the dict as keyword
    arguments. *)
Inductive attrdict_call : Type :=
| Positional (d : tdict)
| Keywords (d : tdict).

Section Str.
(** The builtin [str]. *)
Variable str : pyval -> string.

Definition convert (c : conv) (v : pyval) : pyval :=
  match c with
  | Raw => v
  | Str => PStr (str v)
  end.

(** The [if p is not DEFAULT: kwargs["p"] = ...] statements of a body. *)
Definition init_body (fields : list (string * conv)) (call : tdict) : tdict :=
  fold_left
    (fun kwargs pc =>
       match bound (fst pc) call with
       | DEFAULT => kwargs
       | Val v => kw_set (fst pc) (Val (convert (snd pc) v)) kwargs
       end)
    fields (rest_kwargs fields call).

(** The [__init__] methods that run, from the first found along the bases
    up to (not including) [AttrDict.__init__], on the keywords [call]. *)
Fixpoint run_inits (inits : list (list (string * conv) * bool)) (call : tdict)
    : res attrdict_call :=
  match inits with
  | [] => Ok (Keywords call)
  | (fields, splat) :: up =>
      let kwargs := init_body fields call in
      if splat then run_inits up kwargs
      else match up with
           | [] => Ok (Positional kwargs)
           | _ => Err TypeError
           end
  end.
End Str.

(** The [__init__] methods that a call of the class [cname] goes through.
    [defined] lists the classes from the last defined to the first: a class
    statement finds its base among the classes defined above it. *)
Fixpoint inits_of (defined : list type_class) (cname : string)
    : option (list (list (string * conv) * bool)) :=
  match defined with
  | [] => if String.eqb cname "AttrDict" then Some [] else None
  | c :: earlier =>
      if String.eqb (t_name c) cname then
        match inits_of earlier (t_base c) with
        | Some up => Some (match t_init c with
                           | Some i => i :: up
                           | None => up
                           end)
        | None => None
        end
      else inits_of earlier cname
  end.

(** [cname( **call)] *)
Definition construct (str : pyval -> string) (cname : string) (call : tdict)
    : res attrdict_call :=
  match inits_of (rev type_classes) cname with
  | Some inits => run_inits str inits call
  | None => Err Unmodelled
  end.

(** The entries that the body stores for the parameters that were given. *)
Definition supplied (str : pyval -> string) (fields : list (string * conv))
    (call : tdict) : tdict :=
  flat_map (fun pc => match bound (fst pc) call with
                      | DEFAULT => []
                      | Val v => [(fst pc, Val (convert str (snd pc) v))]
                      end) fields.

(** * The file selection of utils/run-unasync.py *)

Fixpoint has_char (c : Ascii.ascii) (s : string) : bool :=
  match s with
  | EmptyString => false
  | String a s' => Ascii.eqb a c || has_char c s'
  end.

(** [s.rpartition(c)[-1]]: what follows the last [c], or [s] itself when
    there is no [c]. *)
Fixpoint rpartition_last (c : Ascii.ascii) (s : string) : string :=
  match s with
  | EmptyString => EmptyString
  | String a s' =>
      if has_char c s' then rpartition_last c s'
      else if Ascii.eqb a c then s' else s
  end.

(** The character [.] *)
Definition dot : Ascii.ascii := Ascii.ascii_of_nat 46.

(** The test of [main] on a file name:
    [filename.rpartition(".")[-1] in ("py", "pyi") and not
    filename.startswith("utils.py")]. *)
Definition selected (filename : string) : bool :=
  let ext := rpartition_last dot filename in
  (String.eqb ext "py" || String.eqb ext "pyi")
  && negb (String.prefix "utils.py" filename).

(** ** Definitions used in the statements *)

(** The classes that build a [FieldBucketData]. *)
Definition field_buckets : list string :=
  ["terms"; "rare_terms"; "histogram"; "date_histogram"; "auto_date_histogram";
   "variable_width_histogram"].

Definition aggs_ok (o : obj) : Prop :=
  match dict_get "aggs" (o_params o) with
  | Some (PDict _) | None => True
  | Some _ => False
  end.

(** The store after [self[k]] has copied the bucket child [co] to the fresh
    address [length h]. *)
Definition after_getitem (h : heap) (self : nat) (o co : obj) (k : string) : heap :=
  <[self := store_child o k (length h)]>
    (h ++ [mk_obj (o_class co) (o_params co) (Some (length h))]).

(** The filter query of [o] is found again, as a plain parameter under its
    own name, among the parameters [ps]; they hold no [filter]. *)
Definition filter_flattened (o : obj) (ps : dict) : Prop :=
  cls_name (o_class o) = "filter" ->
  dict_get "filter" ps = None /\
  forall qn qb, dict_get "filter" (o_params o) = Some (PQuery qn qb) ->
                dict_get qn ps = Some (PDict qb).

(** * Properties *)

(** ** Dictionaries *)

Lemma eqb_refl_s (k : string) : String.eqb k k = true.
Proof. apply String.eqb_refl. Qed.

Lemma eqb_neq_s (k k' : string) : k <> k' -> String.eqb k k' = false.
Proof. intros H. apply String.eqb_neq. exact H. Qed.

Lemma dict_get_keys (k : string) (d : dict) :
  dict_get k d = None <-> ~ In k (keys d).
Proof.
  induction d as [|[k' v] d IH]; simpl.
  - tauto.
  - destruct (String.eqb k' k) eqn:E.
    + apply String.eqb_eq in E. subst. split; [discriminate | intros H; exfalso; auto].
    + apply String.eqb_neq in E. rewrite IH. tauto.
Qed.

Lemma dict_has_keys (k : string) (d : dict) :
  dict_has k d = true <-> In k (keys d).
Proof.
  unfold dict_has. destruct (dict_get k d) eqn:E.
  - split; [|reflexivity]. intros _.
    destruct (in_dec String.string_dec k (keys d)) as [i|n]; [exact i|].
    apply dict_get_keys in n. congruence.
  - split; [discriminate|]. intros i. apply dict_get_keys in E. contradiction.
Qed.

Lemma dict_has_false (k : string) (d : dict) :
  dict_has k d = false <-> ~ In k (keys d).
Proof.
  rewrite <- dict_has_keys. destruct (dict_has k d); split; congruence.
Qed.

Lemma dict_set_fresh (k : string) (v : pyval) (d : dict) :
  ~ In k (keys d) -> dict_set k v d = d ++ [(k, v)].
Proof.
  induction d as [|[k' v'] d IH]; simpl; intros H.
  - reflexivity.
  - rewrite eqb_neq_s by (intros ->; apply H; left; reflexivity).
    rewrite IH by tauto. reflexivity.
Qed.

Lemma dict_get_set_eq (k : string) (v : pyval) (d : dict) :
  dict_get k (dict_set k v d) = Some v.
Proof.
  induction d as [|[k' v'] d IH]; simpl.
  - now rewrite eqb_refl_s.
  - destruct (String.eqb k' k) eqn:E; simpl.
    + now rewrite eqb_refl_s.
    + now rewrite E.
Qed.

Lemma dict_get_set_ne (k k0 : string) (v : pyval) (d : dict) :
  k <> k0 -> dict_get k0 (dict_set k v d) = dict_get k0 d.
Proof.
  intros Hne. induction d as [|[k' v'] d IH]; simpl.
  - now rewrite eqb_neq_s.
  - destruct (String.eqb k' k) eqn:E; simpl.
    + apply String.eqb_eq in E. subst k'. now rewrite eqb_neq_s.
    + now rewrite IH.
Qed.

Lemma keys_dict_set (k : string) (v : pyval) (d : dict) :
  keys (dict_set k v d) = if dict_has k d then keys d else keys d ++ [k].
Proof.
  unfold dict_has. induction d as [|[k' v'] d IH]; simpl.
  - reflexivity.
  - destruct (String.eqb k' k) eqn:E; simpl.
    + apply String.eqb_eq in E. now subst.
    + rewrite IH. now destruct (dict_get k d).
Qed.

Lemma dict_get_del_eq (k : string) (d : dict) : dict_get k (dict_del k d) = None.
Proof.
  induction d as [|[k' v'] d IH]; simpl; [reflexivity|].
  destruct (String.eqb k' k) eqn:E; simpl; [exact IH|]. now rewrite E.
Qed.

Lemma dict_get_del_ne (k k0 : string) (d : dict) :
  k <> k0 -> dict_get k0 (dict_del k d) = dict_get k0 d.
Proof.
  intros Hne. induction d as [|[k' v'] d IH]; simpl; [reflexivity|].
  destruct (String.eqb k' k) eqn:E; simpl.
  - apply String.eqb_eq in E. subst k'. now rewrite eqb_neq_s.
  - now rewrite IH.
Qed.

Lemma dict_del_absent (k : string) (d : dict) :
  ~ In k (keys d) -> dict_del k d = d.
Proof.
  induction d as [|[k' v'] d IH]; simpl; intros H; [reflexivity|].
  rewrite eqb_neq_s by (intros ->; apply H; left; reflexivity). simpl.
  now rewrite IH by tauto.
Qed.

Lemma keys_dict_del (k : string) (d : dict) :
  keys (dict_del k d) = List.filter (fun k' => negb (String.eqb k' k)) (keys d).
Proof.
  induction d as [|[k' v'] d IH]; simpl; [reflexivity|].
  destruct (String.eqb k' k); simpl; now rewrite IH.
Qed.

Lemma In_keys_del (k k0 : string) (d : dict) :
  In k0 (keys (dict_del k d)) <-> In k0 (keys d) /\ k0 <> k.
Proof.
  rewrite keys_dict_del, List.filter_In, negb_true_iff, String.eqb_neq. tauto.
Qed.

Lemma NoDup_keys_del (k : string) (d : dict) :
  List.NoDup (keys d) -> List.NoDup (keys (dict_del k d)).
Proof. rewrite keys_dict_del. apply List.NoDup_filter. Qed.

Lemma uniq_NoDup (l : list string) : uniq l = true <-> List.NoDup l.
Proof.
  induction l as [|k l IH]; simpl.
  - split; [constructor | reflexivity].
  - rewrite andb_true_iff, negb_true_iff, IH. split.
    + intros [Hk Hl]. constructor; [|exact Hl]. intros Hin.
      assert (existsb (String.eqb k) l = true) as E; [|congruence].
      apply existsb_exists. exists k. split; [exact Hin | apply String.eqb_refl].
    + intros H. inversion H as [|? ? Hk Hl]; subst. split; [|exact Hl].
      destruct (existsb (String.eqb k) l) eqn:E; [|reflexivity].
      apply existsb_exists in E as (x & Hx & Ex). apply String.eqb_eq in Ex.
      subst. contradiction.
Qed.

(** ** The exception monad *)

Lemma bind_Ok {T U : Type} (c : res T) (k : T -> res U) (y : U) :
  bind c k = Ok y -> exists x, c = Ok x /\ k x = Ok y.
Proof. destruct c as [x|e]; simpl; [eauto | discriminate]. Qed.

Lemma bind_Err {T U : Type} (c : res T) (k : T -> res U) (e : error) :
  bind c k = Err e -> c = Err e \/ exists x, c = Ok x /\ k x = Err e.
Proof. destruct c as [x|e']; simpl; [eauto | intros [= ->]; auto]. Qed.

Ltac inv_bind H :=
  let x := fresh "x" in
  let Hx := fresh "Hx" in
  apply bind_Ok in H as (x & Hx & H).

Tactic Notation "bind_inv" hyp(H) "as" simple_intropattern(p) ident(Hx) :=
  apply bind_Ok in H as (p & Hx & H).

(** ** The factory only allocates *)

Section Alloc.
Variable A_ : heap -> pyval -> res (heap * nat).
Hypothesis A_prefix_ : forall h v h' a, A_ h v = Ok (h', a) -> h `prefix_of` h'.

Lemma mapM_heap_prefix {T U : Type} (f : heap -> T -> res (heap * U)) :
  (forall h x h' y, f h x = Ok (h', y) -> h `prefix_of` h') ->
  forall l h h' ys, mapM_heap f h l = Ok (h', ys) -> h `prefix_of` h'.
Proof.
  intros Hf l. induction l as [|x l IH]; simpl; intros h h' ys H.
  - injection H as <- <-. reflexivity.
  - inv_bind H. destruct x0 as [h1 y]. inv_bind H. destruct x0 as [h2 ys'].
    injection H as <- <-. etrans; [eapply Hf; eassumption | eapply IH; eassumption].
Qed.

Lemma get_dsl_type_prefix t h v h' w :
  get_dsl_type A_ t h v = Ok (h', w) -> h `prefix_of` h'.
Proof.
  destruct t; simpl; intros H; inv_bind H.
  - destruct x as [h1 a]. injection H as <- <-. eapply A_prefix_; eassumption.
  - injection H as <- <-. reflexivity.
Qed.

Lemma coerce_hash_prefix t h v h' w :
  coerce_hash A_ t h v = Ok (h', w) -> h `prefix_of` h'.
Proof.
  destruct v; simpl; try discriminate. intros H. inv_bind H.
  destruct x as [h1 d']. injection H as <- <-.
  eapply mapM_heap_prefix; [|eassumption].
  intros h0 kv h0' y H0. inv_bind H0. destruct x as [h2 v']. injection H0 as <- <-.
  eapply get_dsl_type_prefix; eassumption.
Qed.

Lemma coerce_prefix pi h v h' w :
  coerce A_ pi h v = Ok (h', w) -> h `prefix_of` h'.
Proof.
  unfold coerce. destruct (p_multi pi), (p_hash pi); simpl; intros H.
  - inv_bind H. destruct x as [h1 l']. injection H as <- <-.
    eapply mapM_heap_prefix; [|eassumption]. intros; eapply coerce_hash_prefix; eassumption.
  - inv_bind H. destruct x as [h1 l']. injection H as <- <-.
    eapply mapM_heap_prefix; [|eassumption]. intros; eapply get_dsl_type_prefix; eassumption.
  - eapply coerce_hash_prefix; eassumption.
  - eapply get_dsl_type_prefix; eassumption.
Qed.

Lemma DslBase_setattr_prefix cls h sp name v h' sp' :
  DslBase_setattr A_ cls h sp name v = Ok (h', sp') -> h `prefix_of` h'.
Proof.
  unfold DslBase_setattr. destruct (assoc name (param_defs cls)); intros H.
  - inv_bind H. destruct x as [h1 v']. injection H as <- <-.
    eapply coerce_prefix; eassumption.
  - injection H as <- <-. reflexivity.
Qed.

Lemma DslBase_init_prefix cls params :
  forall h sp h' sp', DslBase_init A_ cls h sp params = Ok (h', sp') -> h `prefix_of` h'.
Proof.
  induction params as [|[k v] params IH]; simpl; intros h sp h' sp' H.
  - injection H as <- <-. reflexivity.
  - inv_bind H. destruct x as [h1 sp1].
    etrans; [eapply DslBase_setattr_prefix; eassumption | eapply IH; eassumption].
Qed.

(** The constructor appends the new object, and only it, after whatever
    its parameters allocate. *)
Lemma new_inv cls e h params h' a :
  new A_ cls e h params = Ok (h', a) ->
  exists h1 sp,
    DslBase_init A_ cls h []
      (if String.eqb (cls_name cls) "filter" then Filter_init params else params)
      = Ok (h1, sp) /\
    a = length h1 /\
    h' = h1 ++ [mk_obj cls sp (if is_bucket cls then Some a else None)] /\
    h `prefix_of` h1.
Proof.
  unfold new. intros H. inv_bind H. destruct x as [h1 sp]. injection H as <- <-.
  exists h1, sp. repeat split; try assumption.
  eapply DslBase_init_prefix; eassumption.
Qed.

Lemma new_prefix cls e h params h' a :
  new A_ cls e h params = Ok (h', a) -> h `prefix_of` h'.
Proof.
  intros H. apply new_inv in H as (h1 & sp & _ & _ & -> & Hp).
  etrans; [exact Hp | apply prefix_app_r; reflexivity].
Qed.
End Alloc.

Lemma A_unfold n h name_or_agg filter params :
  A (S n) h name_or_agg filter params =
  let* params :=
    match filter with
    | PNone => Ok params
    | _ =>
        if negb (is_filter_name name_or_agg)
        then Err (ValueError FilterPositional)
        else Ok (dict_set "filter" filter params)
    end in
  match name_or_agg with
  | PDict agg =>
      match params with
      | _ :: _ => Err (ValueError ParamsWithDict)
      | [] =>
          if negb (no_refs name_or_agg) then Err Unmodelled else
          let '(aggs, agg) := dict_pop "aggs" PNone agg in
          let '(meta, agg) := dict_pop "meta" PNone agg in
          match agg with
          | [(agg_type, params)] =>
              let* params := reattach "aggs" aggs params in
              let* params := reattach "meta" meta params in
              let* cls := get_dsl_class (PStr agg_type) in
              match params with
              | PDict params =>
                  new (fun h v => A n h v PNone []) cls false h params
              | _ => Err TypeError
              end
          | _ => Err (ValueError NotSingleAgg)
          end
      end
  | PRef a =>
      match params with
      | _ :: _ => Err (ValueError ParamsWithAgg)
      | [] => Ok (h, a)
      end
  | _ =>
      let* cls := get_dsl_class name_or_agg in
      new (fun h v => A n h v PNone []) cls true h params
  end.
Proof. reflexivity. Qed.

Lemma A_prefix fuel : forall h v f p h' a,
  A fuel h v f p = Ok (h', a) -> h `prefix_of` h'.
Proof.
  induction fuel as [|n IH]; intros h v f p h' a H; [discriminate|].
  rewrite A_unfold in H. cbv zeta in H. inv_bind H.
  assert (Hnew : forall cls e ps, new (fun h v => A n h v PNone []) cls e h ps = Ok (h', a) ->
                 h `prefix_of` h').
  { intros cls e ps. apply new_prefix. intros; eapply IH; eassumption. }
  destruct v; try (inv_bind H; eapply Hnew; eassumption).
  - destruct x; [|discriminate].
    destruct (negb (no_refs (PDict d))); [discriminate|].
    destruct (dict_pop "aggs" PNone d) as [aggs agg].
    destruct (dict_pop "meta" PNone agg) as [meta agg'].
    destruct agg' as [|[agg_type params] [|]]; try discriminate.
    bind_inv H as p1 Hp1. bind_inv H as p2 Hp2. bind_inv H as cls Hcls.
    destruct p2; try discriminate. eapply Hnew; eassumption.
  - destruct x; [|discriminate]. injection H as <- <-. reflexivity.
Qed.

(** ** The registry *)

Lemma get_dsl_class_In (name : pyval) (cls : dsl_class) :
  get_dsl_class name = Ok cls ->
  In cls classes /\ name = PStr (cls_name cls).
Proof.
  unfold get_dsl_class. destruct name; try discriminate.
  destruct (List.find _ classes) as [c|] eqn:E; [|discriminate].
  intros [= <-]. apply List.find_some in E as [Hin Hn].
  apply String.eqb_eq in Hn. subst. auto.
Qed.

Lemma registered_not_reserved (cls : dsl_class) :
  In cls classes -> cls_name cls <> "aggs" /\ cls_name cls <> "meta".
Proof.
  intros Hin. simpl in Hin.
  repeat (destruct Hin as [<-|Hin]; [split; discriminate|]). contradiction.
Qed.

(** C3, as the code has it: a node of a registered bucket kind is
    materialized as a [FieldBucketData] when its kind is one of terms,
    rare_terms, histogram, date_histogram, auto_date_histogram and
    variable_width_histogram, and as the generic [BucketData] for every other
    bucket kind, multi_terms included. *)
Theorem C3_result_view_of_buckets (h : heap) (self : nat) (o : obj) :
  h !! self = Some o ->
  get_dsl_class (PStr (cls_name (o_class o))) = Ok (o_class o) ->
  is_bucket (o_class o) = true ->
  result h self =
    Some (if existsb (String.eqb (cls_name (o_class o))) field_buckets
          then FieldBucketData else BucketData).
Proof.
  intros Ho Hc Hb. unfold result. rewrite Ho. f_equal.
  apply get_dsl_class_In in Hc as [Hin _].
  destruct (o_class o) as [n c r]. simpl in Hin.
  repeat (destruct Hin as [[= <- <- <-]|Hin]; [try discriminate Hb; reflexivity|]).
  contradiction.
Qed.

(** C9: the factory refuses keyword parameters next to a wire-format mapping
    or next to an existing node, and passes an existing node through. *)
Theorem C9_ambiguous_input (fuel : nat) (h : heap) (agg : dict) (a : nat)
    (params : dict) :
  params <> [] ->
  A (S fuel) h (PDict agg) PNone params = Err (ValueError ParamsWithDict) /\
  A (S fuel) h (PRef a) PNone params = Err (ValueError ParamsWithAgg) /\
  A (S fuel) h (PRef a) PNone [] = Ok (h, a).
Proof.
  intros Hp. rewrite !A_unfold. destruct params as [|kv params]; [contradiction|].
  simpl. auto.
Qed.

(** ** Chaining *)

Lemma A_name_inv n h s f p h' a :
  A (S n) h (PStr s) f p = Ok (h', a) ->
  exists cls sp,
    get_dsl_class (PStr s) = Ok cls /\
    h' !! a = Some (mk_obj cls sp (if is_bucket cls then Some a else None)) /\
    length h <= a /\ length h' = S a /\ h `prefix_of` h'.
Proof.
  rewrite A_unfold. cbv zeta. intros H.
  bind_inv H as ps Hps. bind_inv H as cls Hcls.
  pose proof H as Hp. apply new_prefix in Hp; [|intros; eapply A_prefix; eassumption].
  apply new_inv in H as (h1 & sp & _ & -> & -> & Hpre);
    [|intros; eapply A_prefix; eassumption].
  exists cls, sp. split; [exact Hcls|]. split; [|split; [|split]].
  - rewrite lookup_app_r by lia. now rewrite Nat.sub_diag.
  - now apply prefix_length.
  - rewrite length_app. simpl. lia.
  - exact Hp.
Qed.

Lemma call_A_name_inv n h s args p h' a :
  call_A (S n) h (PStr s) args p = Ok (h', a) ->
  exists cls sp,
    get_dsl_class (PStr s) = Ok cls /\
    h' !! a = Some (mk_obj cls sp (if is_bucket cls then Some a else None)) /\
    length h <= a /\ length h' = S a /\ h `prefix_of` h'.
Proof.
  unfold call_A. destruct (dict_has "name_or_agg" p); [discriminate|].
  destruct args as [|f [|]]; [| |discriminate].
  - destruct (dict_pop "filter" PNone p). apply A_name_inv.
  - destruct (dict_has "filter" p); [discriminate|]. apply A_name_inv.
Qed.

Lemma setitem_ref n h self name a o :
  h !! self = Some o -> is_bucket (o_class o) = true -> aggs_ok o ->
  AggBase_setitem (S n) h self name (PRef a) =
    (<[self := store_child o name a]> h, Ok tt).
Proof.
  intros Ho Hb Hok. unfold AggBase_setitem. rewrite A_unfold. simpl.
  rewrite Ho, Hb. simpl. unfold aggs_ok in Hok.
  destruct (dict_get "aggs" (o_params o)) as [[]|]; try contradiction; reflexivity.
Qed.

Lemma child_store_child h self o name a :
  self < length h ->
  child (<[self := store_child o name a]> h) self name = Some a.
Proof.
  intros Hlt. unfold child. rewrite list_lookup_insert_eq by exact Hlt.
  unfold aggs_of, store_child. simpl. rewrite dict_get_set_eq.
  now rewrite dict_get_set_eq.
Qed.

(** C4, as the code has it: called with keyword parameters that do not
    collide with the parameters of the methods, [bucket] stores and returns
    the node that the factory has just built, at an address that did not
    exist before the call; [metric] and [pipeline] store the new node and
    return [self._base], which for a bucket is that bucket itself (set by
    [Bucket.__init__]) -- the node the method was called on, not the node on
    which a chain of [bucket] calls started.  No call changes the class or
    the [_base] of an existing node, and a new bucket is its own [_base].  A
    keyword parameter named [self], [bucket], [name] or [agg_type] collides
    with a parameter of the method or of [_agg]: the call raises [TypeError]
    and nothing is built or stored. *)
Theorem C4_chaining (n : nat) (h h1 : heap) (self r : nat) (o : obj)
    (name kind : string) (args : list pyval) (params : dict) :
  h !! self = Some o ->
  is_bucket (o_class o) = true ->
  o_base o = Some self ->
  aggs_ok o ->
  collides ["self"; "bucket"; "name"; "agg_type"] params = false ->
  call_A (S n) h (PStr kind) args params = Ok (h1, r) ->
  let h2 := <[self := store_child o name r]> h1 in
  bucket (S n) h self name (PStr kind) args params = (h2, Ok r) /\
  metric (S n) h self name (PStr kind) args params = (h2, Ok self) /\
  pipeline (S n) h self name (PStr kind) args params = (h2, Ok self) /\
  length h <= r /\
  child h2 self name = Some r /\
  (forall a oa, h !! a = Some oa ->
     exists oa', h2 !! a = Some oa' /\
                 o_class oa' = o_class oa /\ o_base oa' = o_base oa) /\
  (exists ro, h2 !! r = Some ro /\ cls_name (o_class ro) = kind /\
              (is_bucket (o_class ro) = true -> o_base ro = Some r)) /\
  (forall ps, collides ["self"; "bucket"; "name"; "agg_type"] ps = true ->
     bucket (S n) h self name (PStr kind) args ps = (h, Err TypeError) /\
     metric (S n) h self name (PStr kind) args ps = (h, Err TypeError) /\
     pipeline (S n) h self name (PStr kind) args ps = (h, Err TypeError)).
Proof.
  intros Ho Hb Hbase Hok Hcol Hcall h2.
  assert (Hcol3 : collides ["self"; "name"; "agg_type"] params = false).
  { unfold collides in *. cbn [existsb] in *.
    destruct (dict_has "self" params), (dict_has "bucket" params),
      (dict_has "name" params), (dict_has "agg_type" params);
      try discriminate Hcol; reflexivity. }
  destruct (call_A_name_inv _ _ _ _ _ _ _ Hcall) as (cls & sp & Hcls & Hr & Hle & Hlen & Hpre).
  pose proof (prefix_lookup_Some _ _ _ _ Ho Hpre) as Ho1.
  pose proof (lookup_lt_Some _ _ _ Ho) as Hlt.
  pose proof (lookup_lt_Some _ _ _ Ho1) as Hlt1.
  assert (Hset : AggBase_setitem (S n) h1 self name (PRef r) = (h2, Ok tt))
    by (apply setitem_ref; assumption).
  assert (Hself : h2 !! self = Some (store_child o name r))
    by (apply list_lookup_insert_eq; exact Hlt1).
  unfold bucket, metric, pipeline. rewrite Hcol3.
  unfold AggBase_agg. rewrite Hcol, Hcall, Hset, Hself. simpl.
  rewrite Hbase. repeat split; try reflexivity; try exact Hle;
    try (match goal with
         | Hps : (dict_has "self" ?ps || _) = true |- _ =>
             destruct (dict_has "self" ps), (dict_has "bucket" ps),
               (dict_has "name" ps), (dict_has "agg_type" ps);
             try discriminate Hps; reflexivity
         end).
  - apply child_store_child. exact Hlt1.
  - intros a oa Ha. destruct (decide (a = self)) as [->|Hne].
    + exists (store_child o name r). rewrite Ho in Ha. injection Ha as <-.
      split; [exact Hself|]. split; reflexivity.
    + exists oa. split; [|split; reflexivity]. unfold h2.
      rewrite list_lookup_insert_ne by congruence.
      eapply prefix_lookup_Some; eassumption.
  - exists (mk_obj cls sp (if is_bucket cls then Some r else None)). split; [|split].
    + unfold h2. rewrite list_lookup_insert_ne by lia. exact Hr.
    + simpl. apply get_dsl_class_In in Hcls as [_ [= ->]]. reflexivity.
    + simpl. intros ->. reflexivity.
Qed.

(** ** Serialization in closed form *)

Lemma registered_In (cls : dsl_class) : registered cls = true -> In cls classes.
Proof.
  unfold registered. intros H. apply bool_decide_eq_true in H.
  now apply list_elem_of_In.
Qed.

Lemma registered_get (cls : dsl_class) :
  registered cls = true -> get_dsl_class (PStr (cls_name cls)) = Ok cls.
Proof.
  intros H. apply registered_In in H. simpl in H.
  repeat (destruct H as [<-|H]; [reflexivity|]). contradiction.
Qed.

Lemma get_registered (name : pyval) (cls : dsl_class) :
  get_dsl_class name = Ok cls -> registered cls = true.
Proof.
  intros H. apply get_dsl_class_In in H as [H _]. unfold registered.
  apply bool_decide_eq_true. now apply list_elem_of_In.
Qed.

Lemma registered_filter_bucket (cls : dsl_class) :
  registered cls = true -> cls_name cls = "filter" -> is_bucket cls = true.
Proof.
  intros H. apply registered_In in H. simpl in H.
  repeat (destruct H as [<-|H]; [intros E; try discriminate E; reflexivity|]).
  contradiction.
Qed.

Section ClosedForm.
Variable td : nat -> res pyval.

Lemma serialize_params_entries cls ps : forall d,
  List.NoDup (keys ps) ->
  (forall k, In k (keys ps) -> ~ In k (keys d)) ->
  serialize_params td cls d ps =
    (let* es := serialized_entries td cls ps in Ok (d ++ es)).
Proof.
  induction ps as [|[k v] ps IH]; intros d Hnd Hdis; simpl.
  - now rewrite app_nil_r.
  - inversion Hnd as [|? ? Hk Hnd']; subst.
    destruct (serialize_param td cls k v) as [[w|]|e]; simpl; [| |reflexivity].
    + rewrite IH; [| exact Hnd' |].
      * destruct (serialized_entries td cls ps); simpl; [|reflexivity].
        rewrite dict_set_fresh by (apply Hdis; left; reflexivity).
        now rewrite <- app_assoc.
      * intros k0 Hk0. rewrite keys_dict_set.
        destruct (dict_has k d) eqn:E.
        -- apply Hdis. now right.
        -- rewrite in_app_iff. intros [Hin|[<-|[]]].
           ++ revert Hin. apply Hdis. now right.
           ++ contradiction.
    + rewrite IH; [| exact Hnd' |].
      * now destruct (serialized_entries td cls ps).
      * intros k0 Hk0. apply Hdis. now right.
Qed.

Lemma keys_serialized_entries cls ps es :
  serialized_entries td cls ps = Ok es ->
  forall k, In k (keys es) -> In k (keys ps).
Proof.
  revert es. induction ps as [|[k v] ps IH]; simpl; intros es H k0 Hin.
  - injection H as <-. exact Hin.
  - bind_inv H as r Hr. bind_inv H as es' Hes. injection H as <-.
    destruct r as [w|].
    + destruct Hin as [<-|Hin]; [now left | right; eapply IH; eauto].
    + right; eapply IH; eauto.
Qed.

Lemma NoDup_serialized_entries cls ps es :
  serialized_entries td cls ps = Ok es ->
  List.NoDup (keys ps) -> List.NoDup (keys es).
Proof.
  revert es. induction ps as [|[k v] ps IH]; simpl; intros es H Hnd.
  - injection H as <-. constructor.
  - bind_inv H as r Hr. bind_inv H as es' Hes. injection H as <-.
    inversion Hnd as [|? ? Hk Hnd']; subst.
    destruct r as [w|]; [|eapply IH; eauto].
    simpl. constructor; [|eapply IH; eauto].
    intros Hin. apply Hk. eapply keys_serialized_entries; eauto.
Qed.

Lemma Agg_to_dict_closed (self : obj) :
  cls_name (o_class self) <> "meta" ->
  Agg_to_dict td self =
    (let* n := serialize_params td (o_class self) [] (o_params self) in
     Ok ((cls_name (o_class self), PDict (dict_del "meta" n)) :: sibling "meta" n)).
Proof.
  intros Hnm. apply String.eqb_neq in Hnm.
  unfold Agg_to_dict, DslBase_to_dict.
  destruct (serialize_params td (o_class self) [] (o_params self)) as [n|e];
    [|reflexivity].
  simpl. rewrite String.eqb_refl. unfold sibling, dict_has, dict_pop.
  destruct (dict_get "meta" n) eqn:E; simpl.
  - now rewrite ?String.eqb_refl, Hnm.
  - apply dict_get_keys in E. now rewrite dict_del_absent.
Qed.

Lemma Bucket_to_dict_closed (self : obj) :
  cls_name (o_class self) <> "meta" ->
  cls_name (o_class self) <> "aggs" ->
  Bucket_to_dict td self =
    (let* n := serialize_params td (o_class self) [] (o_params self) in
     Ok ((cls_name (o_class self), PDict (dict_del "aggs" (dict_del "meta" n)))
           :: sibling "meta" n ++ sibling "aggs" n)).
Proof.
  intros Hnm Hna. apply String.eqb_neq in Hna.
  unfold Bucket_to_dict. rewrite Agg_to_dict_closed by exact Hnm.
  destruct (serialize_params td (o_class self) [] (o_params self)) as [n|e];
    [|reflexivity].
  simpl. rewrite String.eqb_refl. unfold dict_has, dict_pop.
  rewrite dict_get_del_ne by discriminate.
  unfold sibling.
  destruct (dict_get "aggs" n) eqn:E; destruct (dict_get "meta" n) eqn:E2; simpl;
    rewrite ?String.eqb_refl, ?Hna; simpl; try reflexivity;
    rewrite (dict_del_absent "aggs" (dict_del "meta" n)); try reflexivity;
    rewrite In_keys_del; apply dict_get_keys in E; tauto.
Qed.

Lemma Filter_to_dict_closed (self : obj) :
  cls_name (o_class self) <> "meta" ->
  cls_name (o_class self) <> "aggs" ->
  Filter_to_dict td self =
    (let* n := serialize_params td (o_class self) [] (o_params self) in
     let n2 := dict_del "aggs" (dict_del "meta" n) in
     let* inner :=
       match dict_get "filter" n2 with
       | Some (PDict f) => Ok (dict_update (dict_del "filter" n2) f)
       | Some _ => Err TypeError
       | None => Ok n2
       end in
     Ok ((cls_name (o_class self), PDict inner)
           :: sibling "meta" n ++ sibling "aggs" n)).
Proof.
  intros Hnm Hna.
  unfold Filter_to_dict. rewrite Bucket_to_dict_closed by assumption.
  destruct (serialize_params td (o_class self) [] (o_params self)) as [n|e];
    [|reflexivity].
  simpl. rewrite String.eqb_refl. unfold dict_pop.
  destruct (dict_get "filter" (dict_del "aggs" (dict_del "meta" n))) as [f|] eqn:E.
  - destruct f; simpl; rewrite ?String.eqb_refl; reflexivity.
  - simpl. rewrite ?String.eqb_refl. apply dict_get_keys in E.
    now rewrite dict_del_absent.
Qed.

(** What the [to_dict] of a registered class returns. *)
Lemma to_dict_method_wire (self : obj) :
  registered (o_class self) = true ->
  to_dict_method td self =
    (let* n := serialize_params td (o_class self) [] (o_params self) in
     wire_of (o_class self) n).
Proof.
  intros Hreg.
  destruct (registered_not_reserved _ (registered_In _ Hreg)) as [Hna Hnm].
  pose proof (registered_filter_bucket _ Hreg) as Hfb.
  unfold to_dict_method, wire_of, inner_of.
  destruct (String.eqb (cls_name (o_class self)) "filter") eqn:Ef.
  - apply String.eqb_eq in Ef. rewrite (Hfb Ef).
    rewrite Filter_to_dict_closed by assumption.
    destruct (serialize_params td (o_class self) [] (o_params self)) as [n|e];
      [|reflexivity].
    simpl. now destruct (dict_get "filter" _) as [[]|].
  - destruct (is_bucket (o_class self)).
    + now rewrite Bucket_to_dict_closed by assumption.
    + rewrite Agg_to_dict_closed by assumption.
      destruct (serialize_params td (o_class self) [] (o_params self)) as [n|e];
        [|reflexivity].
      simpl. now rewrite app_nil_r.
Qed.
End ClosedForm.

(** ** Serialization is stable under allocation and more fuel *)

Lemma mapM_mono {T U : Type} (f g : T -> res U) (l : list T) :
  (forall x y, In x l -> f x = Ok y -> g x = Ok y) ->
  forall ys, mapM f l = Ok ys -> mapM g l = Ok ys.
Proof.
  induction l as [|x l IH]; simpl; intros Hfg ys H; [exact H|].
  bind_inv H as y Hy. bind_inv H as ys' Hys. injection H as <-.
  rewrite (Hfg x y) by auto. simpl. rewrite (IH (fun x y Hin => Hfg x y (or_intror Hin)) ys') by exact Hys.
  reflexivity.
Qed.

Section Mono.
Variables td td' : nat -> res pyval.
Hypothesis Hmono : forall a d, td a = Ok d -> td' a = Ok d.

Lemma value_to_dict_mono v w :
  value_to_dict td v = Ok w -> value_to_dict td' v = Ok w.
Proof. destruct v; simpl; auto. Qed.

Lemma hash_to_dict_mono v w :
  hash_to_dict td v = Ok w -> hash_to_dict td' v = Ok w.
Proof.
  destruct v; simpl; auto. intros H. bind_inv H as d' Hd. injection H as <-.
  erewrite mapM_mono; [reflexivity| |exact Hd].
  intros kv y _ Hy. bind_inv Hy as w Hw. injection Hy as <-.
  now rewrite (value_to_dict_mono _ _ Hw).
Qed.

Lemma typed_to_dict_mono pi v w :
  typed_to_dict td pi v = Ok w -> typed_to_dict td' pi v = Ok w.
Proof.
  unfold typed_to_dict. destruct (p_multi pi), (p_hash pi); simpl.
  - destruct v; auto. intros H. bind_inv H as l' Hl. injection H as <-.
    erewrite mapM_mono; [reflexivity| |exact Hl].
    intros; now apply hash_to_dict_mono.
  - destruct v; auto. intros H. bind_inv H as l' Hl. injection H as <-.
    erewrite mapM_mono; [reflexivity| |exact Hl].
    intros; now apply value_to_dict_mono.
  - apply hash_to_dict_mono.
  - apply value_to_dict_mono.
Qed.

Lemma serialize_param_mono cls k v r :
  serialize_param td cls k v = Ok r -> serialize_param td' cls k v = Ok r.
Proof.
  unfold serialize_param. destruct (assoc k (param_defs cls)) as [pi|].
  - destruct (is_empty_container v); auto.
    intros H. bind_inv H as w Hw. injection H as <-.
    now rewrite (typed_to_dict_mono _ _ _ Hw).
  - intros H. bind_inv H as w Hw. injection H as <-.
    destruct (has_to_dict v); [|now rewrite Hw].
    now rewrite (value_to_dict_mono _ _ Hw).
Qed.

Lemma serialize_params_mono cls ps : forall d d',
  serialize_params td cls d ps = Ok d' -> serialize_params td' cls d ps = Ok d'.
Proof.
  induction ps as [|[k v] ps IH]; simpl; intros d d' H; [exact H|].
  bind_inv H as r Hr. rewrite (serialize_param_mono _ _ _ _ Hr). simpl.
  destruct r; now apply IH.
Qed.

Lemma serialized_entries_mono cls ps : forall es,
  serialized_entries td cls ps = Ok es -> serialized_entries td' cls ps = Ok es.
Proof.
  induction ps as [|[k v] ps IH]; simpl; intros es H; [exact H|].
  bind_inv H as r Hr. bind_inv H as es' Hes. injection H as <-.
  rewrite (serialize_param_mono _ _ _ _ Hr). simpl. now rewrite (IH _ Hes).
Qed.

Lemma to_dict_method_mono self d :
  to_dict_method td self = Ok d -> to_dict_method td' self = Ok d.
Proof.
  assert (HD : forall d, DslBase_to_dict td self = Ok d -> DslBase_to_dict td' self = Ok d).
  { unfold DslBase_to_dict. intros d0 H. bind_inv H as n Hn.
    now rewrite (serialize_params_mono _ _ _ _ Hn). }
  assert (HA : forall d, Agg_to_dict td self = Ok d -> Agg_to_dict td' self = Ok d).
  { unfold Agg_to_dict. intros d0 H. bind_inv H as n Hn. now rewrite (HD _ Hn). }
  assert (HB : forall d, Bucket_to_dict td self = Ok d -> Bucket_to_dict td' self = Ok d).
  { unfold Bucket_to_dict. intros d0 H. bind_inv H as n Hn. now rewrite (HA _ Hn). }
  assert (HF : forall d, Filter_to_dict td self = Ok d -> Filter_to_dict td' self = Ok d).
  { unfold Filter_to_dict. intros d0 H. bind_inv H as n Hn. now rewrite (HB _ Hn). }
  unfold to_dict_method.
  destruct (String.eqb _ _); [apply HF|]. destruct (is_bucket _); auto.
Qed.
End Mono.

Lemma to_dict_mono n : forall m h h' a d,
  to_dict n h a = Ok d -> n <= m -> h `prefix_of` h' -> to_dict m h' a = Ok d.
Proof.
  induction n as [|n IH]; intros m h h' a d H Hle Hpre; [discriminate|].
  destruct m as [|m]; [lia|]. simpl in *.
  destruct (h !! a) as [self|] eqn:Ha; [|discriminate].
  rewrite (prefix_lookup_Some _ _ _ _ Ha Hpre).
  bind_inv H as w Hw. injection H as <-.
  erewrite to_dict_method_mono; [reflexivity| |exact Hw].
  intros a0 d0 H0. eapply IH; [exact H0 | lia | exact Hpre].
Qed.

Lemma to_dict_closed_gen n h a o :
  h !! a = Some o -> registered (o_class o) = true ->
  List.NoDup (keys (o_params o)) ->
  to_dict (S n) h a =
    (let* es := serialized_entries (to_dict n h) (o_class o) (o_params o) in
     let* w := wire_of (o_class o) es in
     Ok (PDict w)).
Proof.
  intros Ho Hreg Hu.
  simpl. rewrite Ho. rewrite to_dict_method_wire by exact Hreg.
  rewrite serialize_params_entries by (auto; intros ? _ []).
  destruct (serialized_entries _ _ _); reflexivity.
Qed.

Lemma to_dict_closed n h a o :
  h !! a = Some o -> wf_obj o = true ->
  to_dict (S n) h a =
    (let* es := serialized_entries (to_dict n h) (o_class o) (o_params o) in
     let* w := wire_of (o_class o) es in
     Ok (PDict w)).
Proof.
  intros Ho Hwf. unfold wf_obj in Hwf.
  apply andb_true_iff in Hwf as [Hwf _]. apply andb_true_iff in Hwf as [Hreg Hu].
  apply uniq_NoDup in Hu. now apply to_dict_closed_gen.
Qed.

(** ** Serialization of a well-formed tree returns *)

Lemma mapM_total {T U : Type} (f : T -> res U) (l : list T) :
  (forall x, In x l -> exists y, f x = Ok y) -> exists ys, mapM f l = Ok ys.
Proof.
  induction l as [|x l IH]; simpl; intros H; [eauto|].
  destruct (H x) as [y Hy]; [auto|]. destruct IH as [ys Hys]; [auto|].
  rewrite Hy, Hys. simpl. eauto.
Qed.

Lemma forallb_In {T : Type} (p : T -> bool) (l : list T) (x : T) :
  forallb p l = true -> In x l -> p x = true.
Proof. intros H. now apply forallb_forall. Qed.

Section Total.
Variable td : nat -> res pyval.

Lemma value_to_dict_total t v :
  is_obj t v = true ->
  (forall c, In c (refs v) -> exists w, td c = Ok w) ->
  exists w, value_to_dict td v = Ok w.
Proof.
  destruct t, v; simpl; try discriminate; intros _ H; eauto.
Qed.

Lemma hash_to_dict_total t v :
  hash_of t v = true ->
  (forall c, In c (refs v) -> exists w, td c = Ok w) ->
  exists w, hash_to_dict td v = Ok w.
Proof.
  destruct v; simpl; try discriminate. intros Hd Hrefs.
  destruct (mapM_total (fun kv => let* w := value_to_dict td (snd kv) in Ok (fst kv, w)) d)
    as [d' Hd'].
  - intros kv Hin. destruct (value_to_dict_total t (snd kv)) as [w Hw].
    + eapply forallb_In in Hd; [exact Hd | exact Hin].
    + intros c Hc. apply Hrefs. apply in_flat_map. eauto.
    + rewrite Hw. simpl. eauto.
  - rewrite Hd'. simpl. eauto.
Qed.

Lemma typed_to_dict_total pi v :
  coerced pi v = true ->
  (forall c, In c (refs v) -> exists w, td c = Ok w) ->
  exists w, typed_to_dict td pi v = Ok w.
Proof.
  unfold coerced, typed_to_dict.
  destruct (p_multi pi), (p_hash pi); simpl.
  - destruct v; try discriminate. simpl. intros Hl Hrefs.
    destruct (mapM_total (hash_to_dict td) l) as [l' Hl'].
    + intros x Hin. eapply hash_to_dict_total.
      * eapply forallb_In in Hl; [exact Hl | exact Hin].
      * intros c Hc. apply Hrefs. apply in_flat_map. eauto.
    + rewrite Hl'. simpl. eauto.
  - destruct v; try discriminate. simpl. intros Hl Hrefs.
    destruct (mapM_total (value_to_dict td) l) as [l' Hl'].
    + intros x Hin. eapply value_to_dict_total.
      * eapply forallb_In in Hl; [exact Hl | exact Hin].
      * intros c Hc. apply Hrefs. apply in_flat_map. eauto.
    + rewrite Hl'. simpl. eauto.
  - apply hash_to_dict_total.
  - apply value_to_dict_total.
Qed.

Lemma serialize_param_total cls k v :
  match assoc k (param_defs cls) with
  | Some pi => coerced pi v = true
  | None => True
  end ->
  (forall c,
     In c (match assoc k (param_defs cls) with
           | Some _ => refs v
           | None => match v with PRef a => [a] | _ => [] end
           end) ->
     exists w, td c = Ok w) ->
  exists r, serialize_param td cls k v = Ok r.
Proof.
  unfold serialize_param. destruct (assoc k (param_defs cls)) as [pi|].
  - intros Hc Hrefs. destruct (is_empty_container v); [eauto|].
    destruct (typed_to_dict_total pi v Hc Hrefs) as [w Hw]. rewrite Hw. simpl. eauto.
  - intros _ Hrefs. destruct v; simpl; eauto.
    destruct (Hrefs a) as [w Hw]; [now left|]. rewrite Hw. simpl. eauto.
Qed.

Lemma serialized_entries_total (o : obj) :
  coerced_params (o_class o) (o_params o) = true ->
  (forall c, In c (subnodes o) -> exists w, td c = Ok w) ->
  exists es, serialized_entries td (o_class o) (o_params o) = Ok es.
Proof.
  unfold coerced_params, subnodes. generalize (o_class o) as cls.
  intros cls. induction (o_params o) as [|[k v] ps IH]; simpl; intros Hc Hrefs; [eauto|].
  apply andb_true_iff in Hc as [Hc1 Hc2].
  destruct (serialize_param_total cls k v) as [r Hr].
  - destruct (assoc k (param_defs cls)); auto.
  - intros c Hin. apply Hrefs. apply in_app_iff. now left.
  - destruct IH as [es Hes]; [exact Hc2 | |].
    + intros c Hin. apply Hrefs. apply in_app_iff. now right.
    + rewrite Hr, Hes. simpl. eauto.
Qed.

Lemma dict_get_In k (d : dict) v : dict_get k d = Some v -> In (k, v) d.
Proof.
  induction d as [|[k' v'] d IH]; simpl; [discriminate|].
  destruct (String.eqb k' k) eqn:E.
  - apply String.eqb_eq in E. intros [= ->]. left. now subst.
  - auto.
Qed.

Lemma serialized_entries_In cls ps : forall es k w,
  serialized_entries td cls ps = Ok es -> In (k, w) es ->
  exists v, In (k, v) ps /\ serialize_param td cls k v = Ok (Some w).
Proof.
  induction ps as [|[k0 v0] ps IH]; simpl; intros es k w H Hin.
  - injection H as <-. destruct Hin.
  - bind_inv H as r Hr. bind_inv H as es' Hes. injection H as <-.
    destruct r as [w0|].
    + destruct Hin as [[= <- <-]|Hin]; [eauto|].
      destruct (IH _ _ _ Hes Hin) as (v & Hv & Hs). eauto.
    + destruct (IH _ _ _ Hes Hin) as (v & Hv & Hs). eauto.
Qed.

Lemma serialized_entries_get cls ps : forall es k,
  serialized_entries td cls ps = Ok es -> List.NoDup (keys ps) ->
  match dict_get k ps with
  | Some v => exists r, serialize_param td cls k v = Ok r /\ dict_get k es = r
  | None => dict_get k es = None
  end.
Proof.
  induction ps as [|[k0 v0] ps IH]; simpl; intros es k H Hnd.
  - injection H as <-. reflexivity.
  - bind_inv H as r Hr. bind_inv H as es' Hes. injection H as <-.
    inversion Hnd as [|? ? Hk Hnd']; subst.
    specialize (IH _ k Hes Hnd').
    destruct (String.eqb k0 k) eqn:E.
    + apply String.eqb_eq in E. subst k0. exists r. split; [exact Hr|].
      assert (dict_get k es' = None) as Hnone.
      { apply dict_get_keys. intros Hin. apply Hk.
        eapply keys_serialized_entries; eauto. }
      destruct r; simpl; [now rewrite String.eqb_refl | exact Hnone].
    + destruct r; simpl; [rewrite E|]; exact IH.
Qed.
End Total.

(** ** The declared parameters *)

Lemma assoc_meta (cls : dsl_class) : assoc "meta" (param_defs cls) = None.
Proof.
  unfold param_defs. destruct (cat cls); try reflexivity.
  repeat (destruct (String.eqb _ _); [reflexivity|]). reflexivity.
Qed.

Lemma assoc_aggs (cls : dsl_class) :
  assoc "aggs" (param_defs cls) =
    if is_bucket cls then Some (mk_pinfo TAgg false true) else None.
Proof.
  unfold param_defs, is_bucket. destruct (cat cls); try reflexivity.
  repeat (destruct (String.eqb _ _); [reflexivity|]). reflexivity.
Qed.

Lemma assoc_filter (cls : dsl_class) :
  is_bucket cls = true -> cls_name cls = "filter" ->
  assoc "filter" (param_defs cls) = Some (mk_pinfo TQuery false false).
Proof.
  unfold param_defs, is_bucket. destruct (cat cls); try discriminate.
  intros _ ->. reflexivity.
Qed.

Lemma assoc_untyped_filter_class (cls : dsl_class) (k : string) :
  cls_name cls = "filter" -> k <> "filter" -> k <> "aggs" ->
  assoc k (param_defs cls) = None.
Proof.
  unfold param_defs. intros Hn Hf Ha. destruct (cat cls); try reflexivity.
  rewrite (proj2 (String.eqb_eq _ _) Hn). cbn [assoc].
  now rewrite !eqb_neq_s by congruence.
Qed.

Lemma wf_obj_inv (o : obj) :
  wf_obj o = true ->
  registered (o_class o) = true /\ List.NoDup (keys (o_params o)) /\
  coerced_params (o_class o) (o_params o) = true.
Proof.
  unfold wf_obj. rewrite !andb_true_iff, uniq_NoDup. tauto.
Qed.

Lemma coerced_params_get cls ps k v pi :
  coerced_params cls ps = true -> dict_get k ps = Some v ->
  assoc k (param_defs cls) = Some pi -> coerced pi v = true.
Proof.
  intros Hc Hg Hpi. apply dict_get_In in Hg.
  unfold coerced_params in Hc. eapply forallb_In in Hc; [|exact Hg].
  simpl in Hc. now rewrite Hpi in Hc.
Qed.

Lemma wf_tree_inv n h a :
  wf_tree (S n) h a = true ->
  exists o, h !! a = Some o /\ wf_obj o = true /\
            forall c, In c (subnodes o) -> wf_tree n h c = true.
Proof.
  simpl. destruct (h !! a) as [o|]; [|discriminate].
  rewrite andb_true_iff. intros [Hwf Hsub]. exists o. repeat split; auto.
  intros c Hc. eapply forallb_In; eauto.
Qed.

(** ** The shape of a serialized node *)

Section Shape.
Variable td : nat -> res pyval.

(** The serialized [filter] parameter of a filter node is the wire object
    of its query. *)
Lemma filter_entry (o : obj) es :
  wf_obj o = true -> cls_name (o_class o) = "filter" ->
  serialized_entries td (o_class o) (o_params o) = Ok es ->
  match dict_get "filter" (o_params o) with
  | Some (PQuery qn qb) => dict_get "filter" es = Some (Query_to_dict qn qb)
  | Some _ => False
  | None => dict_get "filter" es = None
  end.
Proof.
  intros Hwf Hname Hes. apply wf_obj_inv in Hwf as (Hreg & Hnd & Hc).
  pose proof (registered_filter_bucket _ Hreg Hname) as Hb.
  pose proof (assoc_filter _ Hb Hname) as Hpi.
  pose proof (serialized_entries_get td _ _ _ "filter" Hes Hnd) as Hg.
  destruct (dict_get "filter" (o_params o)) as [v|] eqn:E; [|exact Hg].
  pose proof (coerced_params_get _ _ _ _ _ Hc E Hpi) as Hv.
  destruct v; try discriminate Hv.
  destruct Hg as (r & Hr & Hg). unfold serialize_param in Hr. rewrite Hpi in Hr.
  simpl in Hr. injection Hr as <-. exact Hg.
Qed.

Lemma inner_of_total (o : obj) es :
  wf_obj o = true ->
  serialized_entries td (o_class o) (o_params o) = Ok es ->
  exists inner, inner_of (o_class o) es = Ok inner.
Proof.
  intros Hwf Hes. unfold inner_of.
  destruct (String.eqb (cls_name (o_class o)) "filter") eqn:Ef; [|eauto].
  apply String.eqb_eq in Ef.
  pose proof (filter_entry o es Hwf Ef Hes) as Hf.
  apply wf_obj_inv in Hwf as (Hreg & _ & _).
  rewrite (registered_filter_bucket _ Hreg Ef).
  rewrite !dict_get_del_ne by discriminate.
  destruct (dict_get "filter" (o_params o)) as [[]|]; try contradiction;
    rewrite Hf; unfold Query_to_dict; eauto.
Qed.
End Shape.

Lemma to_dict_shape n h a :
  wf_tree (S n) h a = true ->
  exists o es inner,
    h !! a = Some o /\ wf_obj o = true /\
    serialized_entries (to_dict n h) (o_class o) (o_params o) = Ok es /\
    inner_of (o_class o) es = Ok inner /\
    to_dict (S n) h a =
      Ok (PDict ((cls_name (o_class o), PDict inner)
                   :: sibling "meta" es
                   ++ (if is_bucket (o_class o) then sibling "aggs" es else []))).
Proof.
  revert h a. induction n as [|n IH]; intros h a Hwf;
    apply wf_tree_inv in Hwf as (o & Ho & Hwf & Hsub).
  - destruct (serialized_entries_total (to_dict 0 h) o) as [es Hes].
    + now apply wf_obj_inv in Hwf.
    + intros c Hc. specialize (Hsub c Hc). discriminate.
    + destruct (inner_of_total _ o es Hwf Hes) as [inner Hin].
      exists o, es, inner. repeat split; auto.
      rewrite (to_dict_closed _ _ _ _ Ho Hwf), Hes. cbn [bind]. unfold wire_of.
      now rewrite Hin.
  - destruct (serialized_entries_total (to_dict (S n) h) o) as [es Hes].
    + now apply wf_obj_inv in Hwf.
    + intros c Hc. specialize (Hsub c Hc).
      destruct (IH h c Hsub) as (? & ? & ? & _ & _ & _ & _ & ->). eauto.
    + destruct (inner_of_total _ o es Hwf Hes) as [inner Hin].
      exists o, es, inner. repeat split; auto.
      rewrite (to_dict_closed _ _ _ _ Ho Hwf), Hes. cbn [bind]. unfold wire_of.
      now rewrite Hin.
Qed.

(** Serializing a well-formed tree returns a wire object. *)
Lemma to_dict_total n h a :
  wf_tree n h a = true -> exists d, to_dict n h a = Ok (PDict d).
Proof.
  destruct n as [|n]; [discriminate|]. intros Hwf.
  destruct (to_dict_shape n h a Hwf) as (? & ? & ? & _ & _ & _ & _ & ->). eauto.
Qed.

Lemma sibling_get key n k :
  dict_get k (sibling key n) = if String.eqb key k then dict_get key n else None.
Proof.
  unfold sibling. destruct (dict_get key n) eqn:E; simpl.
  - now destruct (String.eqb key k).
  - now destruct (String.eqb key k).
Qed.

Lemma dict_get_app k (d1 d2 : dict) :
  dict_get k (d1 ++ d2) =
    match dict_get k d1 with Some v => Some v | None => dict_get k d2 end.
Proof.
  induction d1 as [|[k' v'] d1 IH]; simpl; [reflexivity|].
  now destruct (String.eqb k' k).
Qed.

Lemma keys_sibling key n : keys (sibling key n) = if dict_has key n then [key] else [].
Proof. unfold sibling, dict_has. now destruct (dict_get key n). Qed.

(** The object under the kind tag holds neither [meta] nor, for a bucket,
    [aggs]. *)
Lemma inner_of_reserved (o : obj) es inner (td : nat -> res pyval) :
  wf_obj o = true -> filter_ok o = true ->
  serialized_entries td (o_class o) (o_params o) = Ok es ->
  inner_of (o_class o) es = Ok inner ->
  dict_get "meta" inner = None /\
  (is_bucket (o_class o) = true -> dict_get "aggs" inner = None).
Proof.
  intros Hwf Hfok Hes. unfold inner_of.
  set (n2 := if is_bucket (o_class o) then dict_del "aggs" (dict_del "meta" es)
             else dict_del "meta" es).
  assert (Hm : dict_get "meta" n2 = None).
  { unfold n2. destruct (is_bucket _);
      rewrite ?(dict_get_del_ne "aggs" "meta") by discriminate; apply dict_get_del_eq. }
  assert (Ha : is_bucket (o_class o) = true -> dict_get "aggs" n2 = None).
  { unfold n2. intros ->. apply dict_get_del_eq. }
  destruct (String.eqb (cls_name (o_class o)) "filter") eqn:Ef;
    [|intros [= <-]; auto].
  apply String.eqb_eq in Ef.
  pose proof (filter_entry td o es Hwf Ef Hes) as Hf.
  assert (Hn2 : dict_get "filter" n2 = dict_get "filter" es).
  { unfold n2. destruct (is_bucket _); now rewrite !dict_get_del_ne by discriminate. }
  rewrite Hn2. unfold filter_ok in Hfok.
  destruct (dict_get "filter" (o_params o)) as [[]|]; try contradiction; rewrite Hf.
  - unfold Query_to_dict. intros [= <-]. simpl.
    rewrite !negb_true_iff, !orb_false_iff, !String.eqb_neq in Hfok.
    destruct Hfok as [[Hq1 Hq2] Hq3].
    rewrite !dict_get_set_ne by congruence.
    rewrite !dict_get_del_ne by discriminate. auto.
  - intros [= <-]. auto.
Qed.

(** C6: serializing a node gives an object with its kind tag as the one key
    besides [meta] and [aggs]; the serialized children of a bucket are under
    the sibling key [aggs] exactly when there are some, the [meta] parameter
    is under the sibling key [meta] exactly when the node has one, and the
    object under the kind tag holds neither. *)
Theorem C6_hoisting (n : nat) (h : heap) (a : nat) (o : obj) :
  h !! a = Some o ->
  wf_tree (S n) h a = true ->
  filter_ok o = true ->
  exists d inner,
    to_dict (S n) h a = Ok (PDict d) /\
    dict_get (cls_name (o_class o)) d = Some (PDict inner) /\
    List.NoDup (keys d) /\
    (forall k, In k (keys d) ->
       k = cls_name (o_class o) \/ k = "meta" \/ k = "aggs") /\
    (is_bucket (o_class o) = true ->
       dict_get "aggs" inner = None /\
       match aggs_of o with
       | [] => dict_get "aggs" d = None
       | cs => exists ws, children_to_dict (to_dict n h) cs = Ok ws /\
                          dict_get "aggs" d = Some (PDict ws)
       end) /\
    dict_get "meta" inner = None /\
    match dict_get "meta" (o_params o) with
    | Some m => exists w, untyped_to_dict (to_dict n h) m = Ok w /\
                          dict_get "meta" d = Some w
    | None => dict_get "meta" d = None
    end.
Proof.
  intros Ho Hwf Hfok.
  destruct (to_dict_shape n h a Hwf) as (o' & es & inner & Ho' & Hwfo & Hes & Hin & Hd).
  rewrite Ho in Ho'. injection Ho' as <-.
  destruct (inner_of_reserved o es inner _ Hwfo Hfok Hes Hin) as [Hinm Hina].
  destruct (wf_obj_inv _ Hwfo) as (Hreg & Hnd & Hco).
  destruct (registered_not_reserved _ (registered_In _ Hreg)) as [Hna Hnm].
  set (name := cls_name (o_class o)) in *.
  assert (Ea : String.eqb name "aggs" = false) by now apply String.eqb_neq.
  assert (Em : String.eqb name "meta" = false) by now apply String.eqb_neq.
  eexists. exists inner. split; [exact Hd|].
  assert (Hgetm : dict_get "meta"
            ((name, PDict inner) :: sibling "meta" es
               ++ (if is_bucket (o_class o) then sibling "aggs" es else []))
          = dict_get "meta" es).
  { cbn [dict_get]. rewrite Em, dict_get_app, sibling_get. cbn.
    destruct (dict_get "meta" es); [reflexivity|].
    destruct (is_bucket _); [|reflexivity]. now rewrite sibling_get. }
  assert (Hgeta : is_bucket (o_class o) = true ->
          dict_get "aggs"
            ((name, PDict inner) :: sibling "meta" es
               ++ (if is_bucket (o_class o) then sibling "aggs" es else []))
          = dict_get "aggs" es).
  { intros ->. cbn [dict_get]. rewrite Ea, dict_get_app, !sibling_get. cbn.
    reflexivity. }
  split; [|split; [|split; [|split; [|split]]]].
  - cbn [dict_get]. now rewrite String.eqb_refl.
  - cbn [keys map fst]. fold (keys (sibling "meta" es ++
      (if is_bucket (o_class o) then sibling "aggs" es else []))).
    unfold keys. rewrite map_app. fold (keys (sibling "meta" es)).
    rewrite keys_sibling.
    assert (Hk2 : map fst (if is_bucket (o_class o) then sibling "aggs" es else [])
                  = if is_bucket (o_class o) && dict_has "aggs" es then ["aggs"] else []).
    { destruct (is_bucket _); [|reflexivity]. apply keys_sibling. }
    rewrite Hk2.
    destruct (dict_has "meta" es), (is_bucket (o_class o) && dict_has "aggs" es);
      repeat constructor; simpl; intuition congruence.
  - intros k Hk. cbn [keys map fst] in Hk. destruct Hk as [<-|Hk]; [now left|].
    right. unfold keys in Hk. rewrite map_app in Hk. apply in_app_iff in Hk as [Hk|Hk].
    + fold (keys (sibling "meta" es)) in Hk. rewrite keys_sibling in Hk.
      destruct (dict_has "meta" es); [|destruct Hk].
      destruct Hk as [<-|[]]. now left.
    + destruct (is_bucket _); [|destruct Hk].
      fold (keys (sibling "aggs" es)) in Hk. rewrite keys_sibling in Hk.
      destruct (dict_has "aggs" es); [|destruct Hk].
      destruct Hk as [<-|[]]. now right.
  - intros Hb. split; [now apply Hina|]. rewrite (Hgeta Hb).
    pose proof (serialized_entries_get _ _ _ _ "aggs" Hes Hnd) as Hg.
    pose proof (assoc_aggs (o_class o)) as Hpi. rewrite Hb in Hpi.
    unfold aggs_of. destruct (dict_get "aggs" (o_params o)) as [v|] eqn:E; [|exact Hg].
    pose proof (coerced_params_get _ _ _ _ _ Hco E Hpi) as Hv.
    destruct v; try discriminate Hv.
    destruct Hg as (r & Hr & Hg). unfold serialize_param in Hr. rewrite Hpi in Hr.
    destruct d as [|kv d].
    + simpl in Hr. injection Hr as <-. exact Hg.
    + cbn [is_empty_container] in Hr. bind_inv Hr as w Hw. injection Hr as <-.
      unfold typed_to_dict in Hw. cbn in Hw. bind_inv Hw as ws Hws. injection Hw as <-.
      exists ws. split; [exact Hws | exact Hg].
  - exact Hinm.
  - rewrite Hgetm.
    pose proof (serialized_entries_get _ _ _ _ "meta" Hes Hnd) as Hg.
    destruct (dict_get "meta" (o_params o)) as [m|]; [|exact Hg].
    destruct Hg as (r & Hr & Hg). unfold serialize_param in Hr.
    rewrite assoc_meta in Hr. bind_inv Hr as w Hw. injection Hr as <-.
    exists w. split; [exact Hw | exact Hg].
Qed.

(** C5: the serialized form of a filter node has, under the kind tag, the
    other serialized parameters updated with the fields of the query's own
    wire object -- so the query is found under its own name and there is no
    [filter] key -- while [meta] and [aggs] are siblings of the kind tag as
    for every other bucket. *)
Theorem C5_filter_merged (n : nat) (h : heap) (a : nat) (o : obj)
    (qn : string) (qb : dict) :
  h !! a = Some o ->
  cls_name (o_class o) = "filter" ->
  wf_tree (S n) h a = true ->
  dict_get "filter" (o_params o) = Some (PQuery qn qb) ->
  filter_ok o = true ->
  exists es f inner d,
    serialized_entries (to_dict n h) (o_class o) (o_params o) = Ok es /\
    Query_to_dict qn qb = PDict f /\
    inner = dict_update (dict_del "filter" (dict_del "aggs" (dict_del "meta" es))) f /\
    to_dict (S n) h a = Ok (PDict d) /\
    d = ("filter", PDict inner) :: sibling "meta" es ++ sibling "aggs" es /\
    dict_get "filter" d = Some (PDict inner) /\
    dict_get qn inner = Some (PDict qb) /\
    dict_get "filter" inner = None /\
    dict_get "meta" inner = None /\
    dict_get "aggs" inner = None /\
    (forall k, k <> qn -> k <> "filter" -> k <> "aggs" -> k <> "meta" ->
       dict_get k inner = dict_get k es) /\
    dict_get "meta" d = dict_get "meta" es /\
    dict_get "aggs" d = dict_get "aggs" es.
Proof.
  intros Ho Hname Hwf Hq Hfok.
  destruct (to_dict_shape n h a Hwf) as (o' & es & inner & Ho' & Hwfo & Hes & Hin & Hd).
  rewrite Ho in Ho'. injection Ho' as <-.
  destruct (wf_obj_inv _ Hwfo) as (Hreg & Hnd & Hco).
  pose proof (registered_filter_bucket _ Hreg Hname) as Hb.
  pose proof (filter_entry (to_dict n h) o es Hwfo Hname Hes) as Hf. rewrite Hq in Hf.
  unfold filter_ok in Hfok. rewrite Hq in Hfok.
  rewrite !negb_true_iff, !orb_false_iff, !String.eqb_neq in Hfok.
  destruct Hfok as [[Hq1 Hq2] Hq3].
  unfold inner_of in Hin. rewrite Hname, Hb in Hin. cbn [String.eqb] in Hin.
  rewrite Hb, Hname in Hd.
  change (String.eqb "filter" "filter") with true in Hin. cbv iota in Hin.
  rewrite !dict_get_del_ne in Hin by discriminate. rewrite Hf in Hin.
  unfold Query_to_dict in Hin. injection Hin as <-.
  exists es, [(qn, PDict qb)]. eexists. eexists.
  split; [exact Hes|]. split; [reflexivity|]. split; [reflexivity|].
  split; [exact Hd|]. split; [reflexivity|].
  cbn [dict_update fold_left fst snd].
  split; [reflexivity|]. split; [apply dict_get_set_eq|].
  split; [|split; [|split; [|split; [|split]]]].
  - rewrite dict_get_set_ne by congruence. apply dict_get_del_eq.
  - rewrite dict_get_set_ne by congruence. rewrite !dict_get_del_ne by discriminate.
    apply dict_get_del_eq.
  - rewrite dict_get_set_ne by congruence. rewrite !dict_get_del_ne by discriminate.
    apply dict_get_del_eq.
  - intros k H1 H2 H3 H4. rewrite dict_get_set_ne by congruence.
    now rewrite !dict_get_del_ne by congruence.
  - cbn [dict_get]. change (String.eqb "filter" "meta") with false. cbv iota.
    rewrite dict_get_app, !sibling_get. cbn. now destruct (dict_get "meta" es).
  - cbn [dict_get]. change (String.eqb "filter" "aggs") with false. cbv iota.
    rewrite dict_get_app, !sibling_get. cbn. reflexivity.
Qed.

(** ** Copying a node through the factory *)

Lemma mapM_heap_id {T : Type} (f : heap -> T -> res (heap * T)) (h : heap) (l : list T) :
  (forall x, In x l -> f h x = Ok (h, x)) -> mapM_heap f h l = Ok (h, l).
Proof.
  induction l as [|x l IH]; simpl; intros H; [reflexivity|].
  rewrite H by auto. simpl. rewrite IH by auto. reflexivity.
Qed.

Section Copy.
Variable n : nat.
Let A_ := fun (h : heap) (v : pyval) => A (S n) h v PNone [].

Lemma get_dsl_type_obj t h v :
  is_obj t v = true -> get_dsl_type A_ t h v = Ok (h, v).
Proof. destruct t, v; simpl; try discriminate; reflexivity. Qed.

Lemma coerce_hash_id t h v :
  hash_of t v = true -> coerce_hash A_ t h v = Ok (h, v).
Proof.
  destruct v; simpl; try discriminate. intros Hd.
  rewrite mapM_heap_id; [reflexivity|].
  intros [k v] Hin. simpl. rewrite get_dsl_type_obj; [reflexivity|].
  exact (forallb_In _ _ (k, v) Hd Hin).
Qed.

Lemma coerce_id pi h v : coerced pi v = true -> coerce A_ pi h v = Ok (h, v).
Proof.
  unfold coerced, coerce. destruct (p_multi pi), (p_hash pi); simpl.
  - destruct v; try discriminate. simpl. intros Hl.
    rewrite mapM_heap_id; [reflexivity|]. intros x Hin. apply coerce_hash_id.
    eapply forallb_In in Hl; [exact Hl | exact Hin].
  - destruct v; try discriminate. simpl. intros Hl.
    rewrite mapM_heap_id; [reflexivity|]. intros x Hin. apply get_dsl_type_obj.
    eapply forallb_In in Hl; [exact Hl | exact Hin].
  - apply coerce_hash_id.
  - apply get_dsl_type_obj.
Qed.

Lemma DslBase_init_id cls h ps : forall sp,
  List.NoDup (keys ps) -> coerced_params cls ps = true ->
  (forall k, In k (keys ps) -> ~ In k (keys sp)) ->
  DslBase_init A_ cls h sp ps = Ok (h, sp ++ ps).
Proof.
  induction ps as [|[k v] ps IH]; simpl; intros sp Hnd Hc Hdis.
  - now rewrite app_nil_r.
  - inversion Hnd as [|? ? Hk Hnd']; subst.
    apply andb_true_iff in Hc as [Hc1 Hc2]. simpl in Hc1.
    assert (Hset : DslBase_setattr A_ cls h sp k v = Ok (h, sp ++ [(k, v)])).
    { unfold DslBase_setattr. destruct (assoc k (param_defs cls)) as [pi|].
      - rewrite coerce_id by exact Hc1. simpl.
        now rewrite dict_set_fresh by (apply Hdis; now left).
      - now rewrite dict_set_fresh by (apply Hdis; now left). }
    rewrite Hset. simpl. rewrite IH; [now rewrite <- app_assoc | exact Hnd' | exact Hc2 |].
    intros k0 Hk0. unfold keys. rewrite map_app, in_app_iff. simpl.
    intros [Hin|[<-|[]]]; [|contradiction].
    revert Hin. apply Hdis. now right.
Qed.

(** [A(agg.name, **agg._params)] on the parameters of a well-formed node
    allocates one object, with the same class and the same parameters. *)
Lemma A_copy cls ps h :
  registered cls = true ->
  List.NoDup (keys ps) -> coerced_params cls ps = true ->
  dict_has "filter" ps = false ->
  A (S (S n)) h (PStr (cls_name cls)) PNone ps =
    Ok (h ++ [mk_obj cls ps (if is_bucket cls then Some (length h) else None)],
        length h).
Proof.
  intros Hreg Hnd Hc Hf. rewrite A_unfold. cbn [bind].
  rewrite (registered_get _ Hreg). cbn [bind]. unfold new.
  assert (Hfi : (if String.eqb (cls_name cls) "filter" then Filter_init ps else ps) = ps).
  { destruct (String.eqb _ _); [|reflexivity]. unfold Filter_init, dict_pop.
    apply dict_has_false in Hf. rewrite (proj2 (dict_get_keys _ _) Hf).
    now apply dict_del_absent. }
  rewrite Hfi. fold A_. rewrite DslBase_init_id; auto.
Qed.
End Copy.

(** ** Reading a child *)

Lemma child_inv h self k c :
  child h self k = Some c ->
  exists o, h !! self = Some o /\ dict_get k (aggs_of o) = Some (PRef c).
Proof.
  unfold child. destruct (h !! self) as [o|]; [|discriminate].
  destruct (dict_get k (aggs_of o)) as [[]|] eqn:E; try discriminate.
  intros [= ->]. eauto.
Qed.

Lemma aggs_of_inv o k v :
  dict_get k (aggs_of o) = Some v ->
  dict_get "aggs" (o_params o) = Some (PDict (aggs_of o)).
Proof.
  unfold aggs_of. destruct (dict_get "aggs" (o_params o)) as [[]|]; try discriminate.
  reflexivity.
Qed.

(** [__getitem__] on a bucket child that the factory can copy: the copy is
    allocated, stored under the name in the container, and returned. *)
Lemma getitem_bucket_child n h self c o co k :
  h !! self = Some o -> is_bucket (o_class o) = true ->
  dict_get k (aggs_of o) = Some (PRef c) ->
  h !! c = Some co ->
  is_bucket (o_class co) = true -> wf_obj co = true ->
  dict_has "filter" (o_params co) = false ->
  dict_has "name_or_agg" (o_params co) = false ->
  AggBase_getitem (S (S n)) h self k =
    (<[self := store_child o k (length h)]>
       (h ++ [mk_obj (o_class co) (o_params co) (Some (length h))]),
     Ok (length h)).
Proof.
  intros Ho Hb Hk Hc Hcb Hwf Hf Hn.
  apply wf_obj_inv in Hwf as (Hreg & Hnd & Hco).
  pose proof (aggs_of_inv _ _ _ Hk) as Haggs.
  assert (Hsd : setdefault_aggs o = o).
  { unfold setdefault_aggs, dict_has. now rewrite Haggs. }
  unfold AggBase_getitem. rewrite Ho, Hb. cbn [negb]. rewrite Hsd.
  rewrite list_insert_id by exact Ho. rewrite Haggs, Hk, Hc, Hcb, Hf, Hn.
  cbn [orb]. rewrite A_copy by assumption. rewrite Hcb.
  rewrite lookup_app_l by (eapply lookup_lt_Some; eassumption). rewrite Ho.
  reflexivity.
Qed.

Lemma children_to_dict_get (td : nat -> res pyval) cs ws k v :
  children_to_dict td cs = Ok ws -> dict_get k cs = Some v ->
  exists w, value_to_dict td v = Ok w /\ dict_get k ws = Some w.
Proof.
  unfold children_to_dict. revert ws.
  induction cs as [|[k0 v0] cs IH]; simpl; intros ws H Hk; [discriminate|].
  bind_inv H as y Hy. bind_inv H as ys Hys. injection H as <-.
  bind_inv Hy as w0 Hw0. injection Hy as <-. simpl.
  destruct (String.eqb k0 k).
  - injection Hk as <-. eauto.
  - eapply IH; eauto.
Qed.

(** The wire object of a bucket holds its serialized children under [aggs]. *)
Lemma bucket_wire n h a o :
  h !! a = Some o -> wf_tree (S n) h a = true -> is_bucket (o_class o) = true ->
  exists d, to_dict (S n) h a = Ok (PDict d) /\
    match aggs_of o with
    | [] => dict_get "aggs" d = None
    | cs => exists ws, children_to_dict (to_dict n h) cs = Ok ws /\
                       dict_get "aggs" d = Some (PDict ws)
    end.
Proof.
  intros Ho Hwf Hb.
  destruct (to_dict_shape n h a Hwf) as (o' & es & inner & Ho' & Hwfo & Hes & Hin & Hd).
  rewrite Ho in Ho'. injection Ho' as <-.
  destruct (wf_obj_inv _ Hwfo) as (Hreg & Hnd & Hco).
  destruct (registered_not_reserved _ (registered_In _ Hreg)) as [Hna Hnm].
  apply String.eqb_neq in Hna. rewrite Hb in Hd.
  eexists. split; [exact Hd|].
  cbn [dict_get]. rewrite Hna, dict_get_app, !sibling_get. cbn.
  pose proof (serialized_entries_get _ _ _ _ "aggs" Hes Hnd) as Hg.
  pose proof (assoc_aggs (o_class o)) as Hpi. rewrite Hb in Hpi.
  unfold aggs_of. destruct (dict_get "aggs" (o_params o)) as [v|] eqn:E; [|exact Hg].
  pose proof (coerced_params_get _ _ _ _ _ Hco E Hpi) as Hv.
  destruct v; try discriminate Hv.
  destruct Hg as (r & Hr & Hg). unfold serialize_param in Hr. rewrite Hpi in Hr.
  destruct d as [|kv d].
  - simpl in Hr. injection Hr as <-. exact Hg.
  - cbn [is_empty_container] in Hr. bind_inv Hr as w Hw. injection Hr as <-.
    unfold typed_to_dict in Hw. cbn in Hw. bind_inv Hw as ws Hws. injection Hw as <-.
    exists ws. split; [exact Hws | exact Hg].
Qed.

(** An untyped parameter other than [meta] is found, serialized, under the
    kind tag. *)
Lemma node_wire_param n h a o p v :
  h !! a = Some o -> wf_tree (S n) h a = true ->
  dict_get "filter" (o_params o) = None \/ cls_name (o_class o) <> "filter" ->
  assoc p (param_defs (o_class o)) = None -> p <> "meta" ->
  dict_get p (o_params o) = Some v ->
  exists d inner w,
    to_dict (S n) h a = Ok (PDict d) /\
    dict_get (cls_name (o_class o)) d = Some (PDict inner) /\
    untyped_to_dict (to_dict n h) v = Ok w /\
    dict_get p inner = Some w.
Proof.
  intros Ho Hwf Hnf Hp Hpm Hv.
  destruct (to_dict_shape n h a Hwf) as (o' & es & inner & Ho' & Hwfo & Hes & Hin & Hd).
  rewrite Ho in Ho'. injection Ho' as <-.
  destruct (wf_obj_inv _ Hwfo) as (Hreg & Hnd & Hco).
  pose proof (serialized_entries_get _ _ _ _ p Hes Hnd) as Hg. rewrite Hv in Hg.
  destruct Hg as (r & Hr & Hg). unfold serialize_param in Hr. rewrite Hp in Hr.
  bind_inv Hr as w Hw. injection Hr as <-.
  eexists. exists inner, w. split; [exact Hd|].
  split; [cbn [dict_get]; now rewrite String.eqb_refl|]. split; [exact Hw|].
  assert (Hpa : is_bucket (o_class o) = true -> p <> "aggs").
  { intros Hb ->. rewrite assoc_aggs, Hb in Hp. discriminate. }
  assert (Hn2 : dict_get p (if is_bucket (o_class o)
                            then dict_del "aggs" (dict_del "meta" es)
                            else dict_del "meta" es) = Some w).
  { destruct (is_bucket (o_class o)).
    - rewrite !dict_get_del_ne by (specialize (Hpa eq_refl); congruence). exact Hg.
    - rewrite !dict_get_del_ne by congruence. exact Hg. }
  unfold inner_of in Hin.
  destruct (String.eqb (cls_name (o_class o)) "filter") eqn:Ef;
    [|injection Hin as <-; exact Hn2].
  apply String.eqb_eq in Ef. destruct Hnf as [Hnf|Hnf]; [|contradiction].
  pose proof (filter_entry _ o es Hwfo Ef Hes) as Hf. rewrite Hnf in Hf.
  assert (Hfn : dict_get "filter" (if is_bucket (o_class o)
                            then dict_del "aggs" (dict_del "meta" es)
                            else dict_del "meta" es) = None).
  { destruct (is_bucket _); now rewrite !dict_get_del_ne by discriminate. }
  rewrite Hfn in Hin. injection Hin as <-. exact Hn2.
Qed.

Lemma In_keys_set k v (d : dict) k0 :
  In k0 (keys (dict_set k v d)) <-> k0 = k \/ In k0 (keys d).
Proof.
  rewrite keys_dict_set. destruct (dict_has k d) eqn:E.
  - apply dict_has_keys in E. split; [auto | intros [->|H]; auto].
  - rewrite in_app_iff. simpl. intuition.
Qed.

Lemma NoDup_keys_set k v (d : dict) :
  List.NoDup (keys d) -> List.NoDup (keys (dict_set k v d)).
Proof.
  induction d as [|[k' v'] d IH]; simpl; intros H.
  - repeat constructor. simpl. tauto.
  - inversion H as [|? ? Hk Hd]; subst.
    destruct (String.eqb k' k) eqn:E; simpl.
    + apply String.eqb_eq in E. subst. now constructor.
    + constructor; [|now apply IH]. fold (keys (dict_set k v d)).
      rewrite In_keys_set. apply String.eqb_neq in E. intuition.
Qed.

Lemma aggs_of_store_child o k r :
  aggs_of (store_child o k r) = dict_set k (PRef r) (aggs_of o).
Proof. unfold aggs_of at 1, store_child. simpl. now rewrite dict_get_set_eq. Qed.

Lemma subnodes_child o k r :
  is_bucket (o_class o) = true ->
  dict_get k (aggs_of o) = Some (PRef r) -> In r (subnodes o).
Proof.
  intros Hb Hk. pose proof (aggs_of_inv _ _ _ Hk) as Ha.
  apply dict_get_In in Ha. apply dict_get_In in Hk.
  unfold subnodes. apply in_flat_map. exists ("aggs", PDict (aggs_of o)).
  split; [exact Ha|]. simpl. rewrite assoc_aggs, Hb. simpl.
  apply in_flat_map. exists (k, PRef r). split; [exact Hk|]. now left.
Qed.

Lemma after_getitem_lookup h self o co k :
  h !! self = Some o ->
  after_getitem h self o co k !! self = Some (store_child o k (length h)) /\
  after_getitem h self o co k !! length h =
    Some (mk_obj (o_class co) (o_params co) (Some (length h))) /\
  length (after_getitem h self o co k) = S (length h).
Proof.
  intros Ho. pose proof (lookup_lt_Some _ _ _ Ho) as Hlt. unfold after_getitem.
  split; [|split].
  - apply list_lookup_insert_eq. rewrite length_app. simpl. lia.
  - rewrite list_lookup_insert_ne by lia. rewrite lookup_app_r by lia.
    now rewrite Nat.sub_diag.
  - rewrite length_insert, length_app. simpl. lia.
Qed.

Lemma set_param_lookup h r ro p v :
  h !! r = Some ro ->
  set_param h r p v !! r = Some (set_params ro (dict_set p v (o_params ro))) /\
  (forall a, a <> r -> set_param h r p v !! a = h !! a) /\
  length (set_param h r p v) = length h.
Proof.
  intros Hr. unfold set_param. rewrite Hr. split; [|split].
  - apply list_lookup_insert_eq. eapply lookup_lt_Some; eassumption.
  - intros a Ha. now apply list_lookup_insert_ne.
  - apply length_insert.
Qed.

(** When [self[k]] resolves to a bucket that the factory can copy (its
    parameters hold no [filter]), the copy is stored under [k] before it is
    returned: the stored child is the returned object; a parameter set
    through the returned handle is a parameter of the stored child and shows
    in the serialization of the container, with no write-back. *)
Lemma getitem_live_handle (n : nat) (h : heap) (self c : nat) (o co : obj)
    (k : string) :
  h !! self = Some o ->
  is_bucket (o_class o) = true ->
  child h self k = Some c ->
  h !! c = Some co ->
  is_bucket (o_class co) = true ->
  wf_obj co = true ->
  dict_has "filter" (o_params co) = false ->
  dict_has "name_or_agg" (o_params co) = false ->
  let r := length h in
  let h' := after_getitem h self o co k in
  AggBase_getitem (S (S n)) h self k = (h', Ok r) /\
  h !! r = None /\
  child h' self k = Some r /\
  forall p v,
    let h'' := set_param h' r p v in
    child h'' self k = Some r /\
    h'' !! r = Some (mk_obj (o_class co) (dict_set p v (o_params co)) (Some r)) /\
    forall m,
      wf_tree (S (S m)) h'' self = true ->
      exists d ws dr,
        to_dict (S (S m)) h'' self = Ok (PDict d) /\
        dict_get "aggs" d = Some (PDict ws) /\
        dict_get k ws = Some (PDict dr) /\
        to_dict (S m) h'' r = Ok (PDict dr) /\
        (assoc p (param_defs (o_class co)) = None -> p <> "meta" ->
         exists inner w,
           dict_get (cls_name (o_class co)) dr = Some (PDict inner) /\
           untyped_to_dict (to_dict m h'') v = Ok w /\
           dict_get p inner = Some w).
Proof.
  intros Ho Hb Hchild Hc Hcb Hwf Hf Hn r h'.
  apply child_inv in Hchild as (o0 & Ho0 & Hk). rewrite Ho in Ho0. injection Ho0 as <-.
  pose proof (lookup_lt_Some _ _ _ Ho) as Hlt.
  destruct (after_getitem_lookup h self o co k Ho) as (Hs' & Hr' & Hlen').
  fold r h' in Hs', Hr', Hlen'.
  assert (Hchild' : forall hx, hx !! self = Some (store_child o k r) ->
                    child hx self k = Some r).
  { intros hx Hx. unfold child. rewrite Hx, aggs_of_store_child.
    now rewrite dict_get_set_eq. }
  split; [now apply getitem_bucket_child with (c := c)|].
  split; [apply lookup_ge_None; unfold r; lia|].
  split; [now apply Hchild'|].
  intros p v h''.
  destruct (set_param_lookup h' r _ p v Hr') as (Hr'' & Hother & Hlen'').
  fold h'' in Hr'', Hother, Hlen''. simpl in Hr''.
  assert (Hs'' : h'' !! self = Some (store_child o k r)).
  { rewrite Hother by (unfold r; lia). exact Hs'. }
  split; [now apply Hchild'|]. split; [exact Hr''|].
  intros m Hwt.
  assert (Hkr : dict_get k (aggs_of (store_child o k r)) = Some (PRef r)).
  { rewrite aggs_of_store_child. apply dict_get_set_eq. }
  destruct (bucket_wire _ _ _ _ Hs'' Hwt Hb) as (d & Hd & Hag).
  destruct (wf_tree_inv _ _ _ Hwt) as (o1 & Ho1 & _ & Hsub).
  rewrite Hs'' in Ho1. injection Ho1 as <-.
  pose proof (Hsub r (subnodes_child (store_child o k r) k r Hb Hkr)) as Hwr.
  destruct (aggs_of (store_child o k r)) as [|kv cs] eqn:Ecs; [discriminate|].
  destruct Hag as (ws & Hws & Hdw).
  destruct (children_to_dict_get _ _ _ _ _ Hws Hkr) as (w & Hw & Hkw).
  cbn [value_to_dict] in Hw.
  destruct (to_dict_total _ _ _ Hwr) as [dr Hdr]. rewrite Hdr in Hw.
  injection Hw as <-.
  exists d, ws, dr. repeat split; try assumption.
  intros Hp Hpm.
  destruct (node_wire_param m h'' r _ p v Hr'' Hwr) as (d1 & inner & w & Hd1 & Hi & Hw & Hpi).
  - simpl. destruct (String.eqb (cls_name (o_class co)) "filter") eqn:Ef.
    + left. apply String.eqb_eq in Ef.
      assert (p <> "filter") as Hpf.
      { intros ->. rewrite (assoc_filter _ Hcb Ef) in Hp. discriminate. }
      rewrite dict_get_set_ne by exact Hpf.
      apply dict_get_keys. now apply dict_has_false.
    + right. now apply String.eqb_neq.
  - exact Hp.
  - exact Hpm.
  - simpl. apply dict_get_set_eq.
  - rewrite Hdr in Hd1. injection Hd1 as <-. exists inner, w. auto.
Qed.


(** ** Rebuilding from the wire format *)

Lemma round_trip_ok_inv n h a :
  round_trip_ok (S n) h a = true ->
  exists o, h !! a = Some o /\ wf_obj o = true /\ meta_ok o = true /\
            filter_ok o = true /\
            forall c, In c (subnodes o) -> round_trip_ok n h c = true.
Proof.
  simpl. destruct (h !! a) as [o|]; [|discriminate].
  rewrite !andb_true_iff. intros [[[Hwf Hm] Hf] Hsub]. exists o. repeat split; auto.
  intros c Hc. eapply forallb_In; eauto.
Qed.

Lemma round_trip_ok_wf n : forall h a,
  round_trip_ok n h a = true -> wf_tree n h a = true.
Proof.
  induction n as [|n IH]; intros h a H; [discriminate|].
  apply round_trip_ok_inv in H as (o & Ho & Hwf & _ & _ & Hsub).
  simpl. rewrite Ho, Hwf. simpl. apply forallb_forall. intros c Hc. auto.
Qed.

(** A list serialized element by element is rebuilt element by element. *)
Lemma mapM_rebuild {T U : Type} (f : T -> res U)
    (g : heap -> U -> res (heap * T)) (f' : heap -> T -> res U) (l : list T) :
  (forall x y, In x l -> f x = Ok y ->
     forall h0, exists h1 x', g h0 y = Ok (h1, x') /\ h0 `prefix_of` h1 /\
       forall h2, h1 `prefix_of` h2 -> f' h2 x' = Ok y) ->
  forall ys, mapM f l = Ok ys ->
  forall h0, exists h1 l',
    mapM_heap g h0 ys = Ok (h1, l') /\ h0 `prefix_of` h1 /\
    length l' = length l /\
    forall h2, h1 `prefix_of` h2 -> mapM (f' h2) l' = Ok ys.
Proof.
  induction l as [|x l IH]; simpl; intros Hx ys H h0.
  - injection H as <-. exists h0, []. simpl. repeat split; auto.
  - bind_inv H as y Hy. bind_inv H as ys' Hys. injection H as <-.
    destruct (Hx x y (or_introl eq_refl) Hy h0) as (h1 & x' & Hg & Hp1 & Hf').
    destruct (IH (fun x y Hin => Hx x y (or_intror Hin)) ys' Hys h1)
      as (h2 & l' & Hm & Hp2 & Hlen & Hf'').
    exists h2, (x' :: l'). simpl. rewrite Hg. simpl. rewrite Hm. simpl.
    repeat split; [etrans; eassumption | now rewrite Hlen |].
    intros h3 Hp3. rewrite Hf' by (etrans; eassumption). simpl.
    now rewrite Hf'' by exact Hp3.
Qed.

Lemma mapM_length {T U : Type} (f : T -> res U) (l : list T) ys :
  mapM f l = Ok ys -> length ys = length l.
Proof.
  revert ys. induction l as [|x l IH]; simpl; intros ys H.
  - now injection H as <-.
  - bind_inv H as y Hy. bind_inv H as ys' Hys. injection H as <-.
    simpl. now rewrite (IH _ Hys).
Qed.

Lemma mapM_In {T U : Type} (f : T -> res U) (l : list T) ys y :
  mapM f l = Ok ys -> In y ys -> exists x, In x l /\ f x = Ok y.
Proof.
  revert ys. induction l as [|x l IH]; simpl; intros ys H Hin.
  - injection H as <-. destruct Hin.
  - bind_inv H as y0 Hy. bind_inv H as ys' Hys. injection H as <-.
    destruct Hin as [<-|Hin]; [eauto|].
    destruct (IH _ Hys Hin) as (x0 & Hx0 & Hf). eauto.
Qed.

Section Rebuild.
Variable n : nat.
Variable h : heap.

(** The round trip at depth [n], for the nodes below the one at hand. *)
Hypothesis IHn : forall a d,
  round_trip_ok n h a = true -> to_dict n h a = Ok d -> no_refs d = true ->
  forall h0, exists h1 a1,
    A n h0 d PNone [] = Ok (h1, a1) /\ to_dict n h1 a1 = Ok d.

Let A_ := fun (h : heap) (v : pyval) => A n h v PNone [].

Lemma value_rebuild t v w :
  is_obj t v = true ->
  value_to_dict (to_dict n h) v = Ok w ->
  (forall c, In c (refs v) -> round_trip_ok n h c = true) ->
  no_refs w = true ->
  forall h0, exists h1 v',
    get_dsl_type A_ t h0 w = Ok (h1, v') /\ h0 `prefix_of` h1 /\
    is_obj t v' = true /\
    forall h2, h1 `prefix_of` h2 -> value_to_dict (to_dict n h2) v' = Ok w.
Proof.
  destruct t, v; simpl; try discriminate; intros _ Hw Hrefs Hnr h0.
  - destruct (IHn a w (Hrefs a (or_introl eq_refl)) Hw Hnr h0) as (h1 & a1 & HA & Htd).
    exists h1, (PRef a1). unfold A_. rewrite HA. simpl.
    repeat split; [eapply A_prefix; eassumption|].
    intros h2 Hp. eapply to_dict_mono; eauto.
  - injection Hw as <-. exists h0, (PQuery qname qbody). simpl. auto.
Qed.

Lemma hash_rebuild t v w :
  hash_of t v = true ->
  hash_to_dict (to_dict n h) v = Ok w ->
  (forall c, In c (refs v) -> round_trip_ok n h c = true) ->
  no_refs w = true ->
  forall h0, exists h1 v',
    coerce_hash A_ t h0 w = Ok (h1, v') /\ h0 `prefix_of` h1 /\
    hash_of t v' = true /\
    is_empty_container v' = is_empty_container v /\
    forall h2, h1 `prefix_of` h2 -> hash_to_dict (to_dict n h2) v' = Ok w.
Proof.
  destruct v; simpl; try discriminate. intros Hd Hw Hrefs Hnr h0.
  bind_inv Hw as ws Hws. injection Hw as <-. simpl in Hnr.
  destruct (mapM_rebuild
    (fun kv => let* w := value_to_dict (to_dict n h) (snd kv) in Ok (fst kv, w))
    (fun h kv => let* (h', v') := get_dsl_type A_ t h (snd kv) in Ok (h', (fst kv, v')))
    (fun h2 kv => if is_obj t (snd kv)
                  then let* w := value_to_dict (to_dict n h2) (snd kv) in Ok (fst kv, w)
                  else Err TypeError)
    d) with (ys := ws) (h0 := h0) as (h1 & d' & Hm & Hp & Hlen & Hser).
  - intros [k v] [k' w] Hin Hkv h1. simpl in Hkv.
    bind_inv Hkv as w0 Hw0. injection Hkv as <- <-.
    assert (Hin' : In (k, w0) ws).
    { clear - Hws Hin Hw0. revert ws Hws. induction d as [|x d IH]; simpl; intros ws Hws;
        [destruct Hin|].
      bind_inv Hws as y Hy. bind_inv Hws as ys Hys. injection Hws as <-.
      destruct Hin as [->|Hin].
      - simpl in Hy. rewrite Hw0 in Hy. injection Hy as <-. now left.
      - right. eapply IH; eauto. }
    destruct (value_rebuild t v w0) with (h0 := h1) as (h2 & v' & Hg & Hp & Ho & Hs).
    + exact (forallb_In _ _ (k, v) Hd Hin).
    + exact Hw0.
    + intros c Hc. apply Hrefs. apply in_flat_map. exists (k, v). auto.
    + exact (forallb_In _ _ (k, w0) Hnr Hin').
    + exists h2, (k, v'). simpl. rewrite Hg. simpl. repeat split; [exact Hp|].
      intros h3 Hp3. rewrite Ho. now rewrite (Hs h3 Hp3).
  - exact Hws.
  - exists h1, (PDict d'). cbn [coerce_hash]. rewrite Hm. cbn [bind].
    repeat split; [exact Hp| | |].
    + apply forallb_forall. intros kv Hin.
      specialize (Hser h1 (reflexivity _)).
      destruct (is_obj t (snd kv)) eqn:E; [reflexivity|].
      exfalso. clear - Hser Hin E. revert ws Hser.
      induction d' as [|x d' IH]; simpl; intros ws Hser; [destruct Hin|].
      destruct Hin as [->|Hin].
      * rewrite E in Hser. discriminate.
      * bind_inv Hser as y Hy. bind_inv Hser as ys Hys. eapply IH; eauto.
    + destruct d', d; simpl in *; try reflexivity; discriminate.
    + intros h2 Hp2. specialize (Hser h2 Hp2). cbn [hash_to_dict].
      erewrite mapM_mono; [reflexivity| |exact Hser].
      intros kv y _ Hy. simpl in Hy. now destruct (is_obj t (snd kv)).
Qed.
End Rebuild.

Lemma mapM_In_fwd {T U : Type} (f : T -> res U) (l : list T) ys x y :
  mapM f l = Ok ys -> In x l -> f x = Ok y -> In y ys.
Proof.
  revert ys. induction l as [|x0 l IH]; simpl; intros ys H Hin Hf; [destruct Hin|].
  bind_inv H as y0 Hy. bind_inv H as ys' Hys. injection H as <-.
  destruct Hin as [->|Hin].
  - rewrite Hf in Hy. injection Hy as <-. now left.
  - right. eapply IH; eauto.
Qed.

Lemma mapM_guard {T U : Type} (p : T -> bool) (f : T -> res U) (e : error)
    (l : list T) ys :
  mapM (fun x => if p x then f x else Err e) l = Ok ys ->
  forallb p l = true /\ mapM f l = Ok ys.
Proof.
  revert ys. induction l as [|x l IH]; simpl; intros ys H; [auto|].
  bind_inv H as y Hy. bind_inv H as ys' Hys. injection H as <-.
  destruct (p x); [|discriminate]. destruct (IH _ Hys) as [Hp Hm].
  rewrite Hy, Hm. simpl. auto.
Qed.

Lemma is_obj_not_empty t v : is_obj t v = true -> is_empty_container v = false.
Proof. destruct t, v; simpl; try discriminate; reflexivity. Qed.

Section RebuildTyped.
Variable n : nat.
Variable h : heap.

Hypothesis IHn : forall a d,
  round_trip_ok n h a = true -> to_dict n h a = Ok d -> no_refs d = true ->
  forall h0, exists h1 a1,
    A n h0 d PNone [] = Ok (h1, a1) /\ to_dict n h1 a1 = Ok d.

Let A_ := fun (h : heap) (v : pyval) => A n h v PNone [].

Lemma typed_rebuild pi v w :
  coerced pi v = true ->
  typed_to_dict (to_dict n h) pi v = Ok w ->
  (forall c, In c (refs v) -> round_trip_ok n h c = true) ->
  no_refs w = true ->
  forall h0, exists h1 v',
    coerce A_ pi h0 w = Ok (h1, v') /\ h0 `prefix_of` h1 /\
    is_empty_container v' = is_empty_container v /\
    forall h2, h1 `prefix_of` h2 -> typed_to_dict (to_dict n h2) pi v' = Ok w.
Proof.
  unfold coerced, typed_to_dict, coerce.
  destruct (p_multi pi), (p_hash pi); cbn [andb].
  - destruct v; try discriminate. intros Hl Hw Hrefs Hnr h0.
    bind_inv Hw as ws Hws. injection Hw as <-. cbn [no_refs] in Hnr.
    destruct (mapM_rebuild (hash_to_dict (to_dict n h)) (coerce_hash A_ (p_type pi))
      (fun h2 x => if hash_of (p_type pi) x then hash_to_dict (to_dict n h2) x
                   else Err TypeError) l)
      with (ys := ws) (h0 := h0) as (h1 & l' & Hm & Hp & Hlen & Hser).
    + intros x y Hin Hxy h1.
      destruct (hash_rebuild n h IHn (p_type pi) x y) with (h0 := h1)
        as (h2 & x' & Hc & Hp & Hh & _ & Hs).
      * exact (forallb_In _ _ x Hl Hin).
      * exact Hxy.
      * intros c Hc. apply Hrefs. simpl. apply in_flat_map. eauto.
      * exact (forallb_In _ _ y Hnr (mapM_In_fwd _ _ _ _ _ Hws Hin Hxy)).
      * exists h2, x'. repeat split; [exact Hc | exact Hp|].
        intros h3 Hp3. rewrite Hh. now apply Hs.
    + exact Hws.
    + exists h1, (PList l'). cbn [as_list]. fold A_. rewrite Hm. cbn [bind].
      repeat split; [exact Hp| |].
      * destruct l', l; simpl in *; try reflexivity; discriminate.
      * intros h2 Hp2. destruct (mapM_guard _ _ _ _ _ (Hser h2 Hp2)) as [_ ->].
        reflexivity.
  - destruct v; try discriminate. intros Hl Hw Hrefs Hnr h0.
    bind_inv Hw as ws Hws. injection Hw as <-. cbn [no_refs] in Hnr.
    destruct (mapM_rebuild (value_to_dict (to_dict n h)) (get_dsl_type A_ (p_type pi))
      (fun h2 => value_to_dict (to_dict n h2)) l)
      with (ys := ws) (h0 := h0) as (h1 & l' & Hm & Hp & Hlen & Hser).
    + intros x y Hin Hxy h1.
      destruct (value_rebuild n h IHn (p_type pi) x y) with (h0 := h1)
        as (h2 & x' & Hc & Hp & _ & Hs).
      * exact (forallb_In _ _ x Hl Hin).
      * exact Hxy.
      * intros c Hc. apply Hrefs. simpl. apply in_flat_map. eauto.
      * exact (forallb_In _ _ y Hnr (mapM_In_fwd _ _ _ _ _ Hws Hin Hxy)).
      * exists h2, x'. repeat split; [exact Hc | exact Hp | exact Hs].
    + exact Hws.
    + exists h1, (PList l'). cbn [as_list]. fold A_. rewrite Hm. cbn [bind].
      repeat split; [exact Hp| |].
      * destruct l', l; simpl in *; try reflexivity; discriminate.
      * intros h2 Hp2. now rewrite (Hser h2 Hp2).
  - intros Hv Hw Hrefs Hnr h0.
    destruct (hash_rebuild n h IHn (p_type pi) v w Hv Hw Hrefs Hnr h0)
      as (h1 & v' & Hc & Hp & _ & He & Hs).
    exists h1, v'. auto.
  - intros Hv Hw Hrefs Hnr h0.
    destruct (value_rebuild n h IHn (p_type pi) v w Hv Hw Hrefs Hnr h0)
      as (h1 & v' & Hc & Hp & Ho & Hs).
    exists h1, v'. repeat split; auto.
    now rewrite (is_obj_not_empty _ _ Ho), (is_obj_not_empty _ _ Hv).
Qed.
End RebuildTyped.

Lemma to_dict_PDict n h a w : to_dict n h a = Ok w -> exists d, w = PDict d.
Proof.
  destruct n as [|n]; [discriminate|]. simpl.
  destruct (h !! a); [|discriminate]. intros H. bind_inv H as d Hd.
  injection H as <-. eauto.
Qed.

Lemma dict_del_app k (d1 d2 : dict) :
  dict_del k (d1 ++ d2) = dict_del k d1 ++ dict_del k d2.
Proof. unfold dict_del. apply List.filter_app. Qed.

Lemma In_dict_del k (d : dict) kv : In kv (dict_del k d) -> In kv d /\ fst kv <> k.
Proof.
  unfold dict_del. rewrite List.filter_In, negb_true_iff, String.eqb_neq. tauto.
Qed.

Lemma In_dict_set k v (d : dict) kv : In kv (dict_set k v d) -> kv = (k, v) \/ In kv d.
Proof.
  induction d as [|[k' v'] d IH]; simpl.
  - intros [<-|[]]. now left.
  - destruct (String.eqb k' k); simpl; intros [<-|H]; auto.
    destruct (IH H); auto.
Qed.

Lemma DslBase_init_rebuild n cls P : forall sp0 h0,
  List.NoDup (keys P) ->
  (forall k, In k (keys P) -> ~ In k (keys sp0)) ->
  Forall (rebuilds n cls) P ->
  exists h1 sp,
    DslBase_init (fun h v => A n h v PNone []) cls h0 sp0 P = Ok (h1, sp0 ++ sp) /\
    h0 `prefix_of` h1 /\ keys sp = keys P /\
    (forall k, assoc k (param_defs cls) = None -> dict_get k sp = dict_get k P) /\
    forall h2, h1 `prefix_of` h2 ->
      serialized_entries (to_dict n h2) cls sp = Ok P.
Proof.
  induction P as [|[k w] P IH]; intros sp0 h0 Hnd Hdis Hall.
  - exists h0, []. simpl. rewrite app_nil_r. auto.
  - inversion Hnd as [|? ? Hk Hnd']; subst. inversion Hall as [|? ? Hkw Hall']; subst.
    destruct (Hkw h0) as (h1 & v' & Hc & Hp1 & Hser). simpl in Hc, Hser.
    assert (Hset : DslBase_setattr (fun h v => A n h v PNone []) cls h0 sp0 k w
                   = Ok (h1, sp0 ++ [(k, v')])).
    { unfold DslBase_setattr. destruct (assoc k (param_defs cls)).
      - rewrite Hc. simpl. now rewrite dict_set_fresh by (apply Hdis; now left).
      - injection Hc as <- <-. now rewrite dict_set_fresh by (apply Hdis; now left). }
    destruct (IH (sp0 ++ [(k, v')]) h1 Hnd') as (h2 & sp & Hi & Hp2 & Hkeys & Hun & Hs);
      [|exact Hall'|].
    { intros k0 Hk0. unfold keys. rewrite map_app, in_app_iff. simpl.
      intros [Hin|[<-|[]]]; [|contradiction]. revert Hin. apply Hdis. now right. }
    exists h2, ((k, v') :: sp). simpl. rewrite Hset. simpl.
    rewrite Hi, <- app_assoc. simpl. repeat split.
    + etrans; eassumption.
    + now rewrite Hkeys.
    + intros k0 Hk0. destruct (String.eqb k k0) eqn:E; [|now apply Hun].
      apply String.eqb_eq in E. subst k0. rewrite Hk0 in Hc. now injection Hc as _ ->.
    + intros h3 Hp3. rewrite Hser by (etrans; eassumption). simpl.
      now rewrite Hs by exact Hp3.
Qed.

Section RebuildNode.
Variable n : nat.
Variable h : heap.

Hypothesis IHn : forall a d,
  round_trip_ok n h a = true -> to_dict n h a = Ok d -> no_refs d = true ->
  forall h0, exists h1 a1,
    A n h0 d PNone [] = Ok (h1, a1) /\ to_dict n h1 a1 = Ok d.

Variable o : obj.
Hypothesis Hwf : wf_obj o = true.
Hypothesis Hsub : forall c, In c (subnodes o) -> round_trip_ok n h c = true.
Variable es : dict.
Hypothesis Hes : serialized_entries (to_dict n h) (o_class o) (o_params o) = Ok es.

Lemma entry_rebuilds k w :
  In (k, w) es -> no_refs w = true -> rebuilds n (o_class o) (k, w).
Proof.
  intros Hin Hnr.
  destruct (serialized_entries_In _ _ _ _ _ _ Hes Hin) as (v & Hv & Hs).
  destruct (wf_obj_inv _ Hwf) as (Hreg & Hnd & Hco).
  unfold rebuilds. cbn [fst snd]. unfold serialize_param in *.
  destruct (assoc k (param_defs (o_class o))) as [pi|] eqn:Hpi.
  - destruct (is_empty_container v) eqn:Hev; [discriminate|].
    bind_inv Hs as w0 Hw0. injection Hs as ->.
    assert (Hcv : coerced pi v = true).
    { unfold coerced_params in Hco. pose proof (forallb_In _ _ (k, v) Hco Hv) as H.
      simpl in H. now rewrite Hpi in H. }
    assert (Hrefs : forall c, In c (refs v) -> round_trip_ok n h c = true).
    { intros c Hc. apply Hsub. unfold subnodes. apply in_flat_map.
      exists (k, v). split; [exact Hv|]. simpl. now rewrite Hpi. }
    intros h0.
    destruct (typed_rebuild n h IHn pi v w Hcv Hw0 Hrefs Hnr h0)
      as (h1 & v' & Hc & Hp & He & Hs).
    exists h1, v'. repeat split; [exact Hc | exact Hp|].
    intros h2 Hp2. rewrite He, Hev. now rewrite (Hs h2 Hp2).
  - bind_inv Hs as w0 Hw0. injection Hs as ->.
    assert (Hnt : has_to_dict w = false).
    { destruct (has_to_dict v) eqn:Hv'.
      - destruct v; try discriminate Hv'; simpl in Hw0.
        + injection Hw0 as <-. reflexivity.
        + apply to_dict_PDict in Hw0 as [d ->]. reflexivity.
      - now injection Hw0 as <-. }
    intros h0. exists h0, w. repeat split; [reflexivity|].
    intros h2 _. now rewrite Hnt.
Qed.
End RebuildNode.

(** ** The factory on a wire-format mapping *)

(** With exactly one key besides [aggs] and [meta], whose value is a dict,
    [A] calls the class registered under that key with the re-attached
    parameters. *)
Lemma A_mapping n h agg agg_type params :
  no_refs (PDict agg) = true ->
  non_reserved agg = [(agg_type, PDict params)] ->
  A (S n) h (PDict agg) PNone [] =
    (let* cls := get_dsl_class (PStr agg_type) in
     new (fun h v => A n h v PNone []) cls false h (reattached agg params)).
Proof.
  intros Hnr Hrest. rewrite A_unfold. cbn [bind]. rewrite Hnr. cbn [negb].
  unfold non_reserved in Hrest. unfold dict_pop. rewrite Hrest.
  unfold reattached, reattach, dict_pop. cbn [fst].
  destruct (truthy match dict_get "aggs" agg with Some v => v | None => PNone end);
    destruct (truthy match dict_get "meta" (dict_del "aggs" agg) with
                     | Some v => v | None => PNone end);
    cbn [bind]; reflexivity.
Qed.

(** With no key, or more than one, besides [aggs] and [meta], [A] raises its
    [ValueError] about the shape. *)
Lemma A_mapping_shape n h agg :
  no_refs (PDict agg) = true ->
  length (non_reserved agg) <> 1 ->
  A (S n) h (PDict agg) PNone [] = Err (ValueError NotSingleAgg).
Proof.
  intros Hnr Hlen. rewrite A_unfold. cbn [bind]. rewrite Hnr. cbn [negb].
  unfold non_reserved in Hlen. unfold dict_pop.
  destruct (dict_del "meta" (dict_del "aggs" agg)) as [|[k v] [|kv rest]];
    try reflexivity. simpl in Hlen. congruence.
Qed.

Lemma sibling_opt key n : sibling key n = opt_entry key (dict_get key n).
Proof. reflexivity. Qed.

(** Parsing the wire object that [to_dict] assembles. *)
Lemma wire_parse name inner (mo ao : option pyval) :
  name <> "aggs" -> name <> "meta" ->
  (forall a, ao = Some a -> truthy a = true /\ ~ In "aggs" (keys inner)) ->
  (forall m, mo = Some m -> truthy m = true /\ ~ In "meta" (keys inner)) ->
  let D := (name, PDict inner) :: opt_entry "meta" mo ++ opt_entry "aggs" ao in
  non_reserved D = [(name, PDict inner)] /\
  reattached D inner = inner ++ opt_entry "aggs" ao ++ opt_entry "meta" mo.
Proof.
  intros Hna Hnm Ha Hm D. apply String.eqb_neq in Hna, Hnm.
  unfold D, non_reserved, reattached, dict_pop, dict_del.
  destruct ao as [a|], mo as [m|]; cbn [opt_entry app List.filter fst dict_get];
    rewrite ?Hna, ?Hnm; cbn;
    rewrite ?Hna, ?Hnm; cbn.
  - destruct (Ha a eq_refl) as [-> Hai]. destruct (Hm m eq_refl) as [-> Hmi].
    split; [reflexivity|]. rewrite (dict_set_fresh "aggs") by exact Hai.
    rewrite dict_set_fresh; [now rewrite <- app_assoc|].
    unfold keys. rewrite map_app, in_app_iff. simpl. intuition congruence.
  - destruct (Ha a eq_refl) as [-> Hai].
    split; [reflexivity|]. now rewrite (dict_set_fresh "aggs") by exact Hai.
  - destruct (Hm m eq_refl) as [-> Hmi].
    split; [reflexivity|]. now rewrite (dict_set_fresh "meta") by exact Hmi.
  - split; [reflexivity|]. now rewrite app_nil_r.
Qed.

Lemma no_refs_In (d : dict) k w :
  no_refs (PDict d) = true -> In (k, w) d -> no_refs w = true.
Proof. simpl. intros H Hin. exact (forallb_In _ _ (k, w) H Hin). Qed.

Lemma dict_get_absent k (d : dict) : dict_get k d = None -> ~ In k (keys d).
Proof. apply dict_get_keys. Qed.

Lemma NoDup_keys_app (d1 d2 : dict) :
  List.NoDup (keys d1) -> List.NoDup (keys d2) ->
  (forall k, In k (keys d2) -> ~ In k (keys d1)) ->
  List.NoDup (keys (d1 ++ d2)).
Proof.
  intros H1 H2 Hdis. induction d1 as [|[k v] d1 IH]; simpl; [exact H2|].
  inversion H1 as [|? ? Hk H1']; subst. constructor.
  - fold (keys (d1 ++ d2)). unfold keys. rewrite map_app, in_app_iff.
    intros [Hin|Hin]; [contradiction|]. apply (Hdis k Hin). now left.
  - apply IH; [exact H1'|]. intros k0 Hk0 Hin. apply (Hdis k0 Hk0). now right.
Qed.

(** The two shapes of the object under the kind tag. *)
Lemma inner_of_cases cls es inner :
  inner_of cls es = Ok inner ->
  let n2 := if is_bucket cls then dict_del "aggs" (dict_del "meta" es)
            else dict_del "meta" es in
  (inner = n2 /\ (cls_name cls = "filter" -> dict_get "filter" n2 = None)) \/
  (cls_name cls = "filter" /\
   exists f, dict_get "filter" n2 = Some (PDict f) /\
             inner = dict_update (dict_del "filter" n2) f).
Proof.
  intros H n2. unfold inner_of in H. fold n2 in H.
  destruct (String.eqb (cls_name cls) "filter") eqn:Ef.
  - apply String.eqb_eq in Ef.
    destruct (dict_get "filter" n2) as [[]|] eqn:E; try discriminate.
    + right. split; [exact Ef|]. injection H as <-. eauto.
    + left. injection H as <-. auto.
  - left. injection H as <-. split; [reflexivity|].
    apply String.eqb_neq in Ef. contradiction.
Qed.

Lemma truthy_to_dict n h a w : wf_tree n h a = true -> to_dict n h a = Ok w -> truthy w = true.
Proof.
  destruct n as [|n]; [discriminate|]. intros Hwf Hw.
  destruct (to_dict_shape n h a Hwf) as (? & ? & ? & _ & _ & _ & _ & Hd).
  rewrite Hd in Hw. now injection Hw as <-.
Qed.

Lemma NoDup_dict_update f : forall d : dict,
  List.NoDup (keys d) -> List.NoDup (keys (dict_update d f)).
Proof.
  unfold dict_update. induction f as [|[k v] f IH]; simpl; intros d Hd; [exact Hd|].
  apply IH. now apply NoDup_keys_set.
Qed.

Section RoundTripNode.
Variable n : nat.
Variable h : heap.

Hypothesis IHn : forall a d,
  round_trip_ok n h a = true -> to_dict n h a = Ok d -> no_refs d = true ->
  forall h0, exists h1 a1,
    A n h0 d PNone [] = Ok (h1, a1) /\ to_dict n h1 a1 = Ok d.

Variable o : obj.
Hypothesis Hwf : wf_obj o = true.
Hypothesis Hmeta : meta_ok o = true.
Hypothesis Hfok : filter_ok o = true.
Hypothesis Hsub : forall c, In c (subnodes o) -> round_trip_ok n h c = true.
Variable es : dict.
Hypothesis Hes : serialized_entries (to_dict n h) (o_class o) (o_params o) = Ok es.

Lemma aggs_entry_truthy a :
  is_bucket (o_class o) = true -> dict_get "aggs" es = Some a -> truthy a = true.
Proof.
  intros Hb Ha. destruct (wf_obj_inv _ Hwf) as (Hreg & Hnd & Hco).
  pose proof (serialized_entries_get _ _ _ _ "aggs" Hes Hnd) as Hg.
  pose proof (assoc_aggs (o_class o)) as Hpi. rewrite Hb in Hpi.
  destruct (dict_get "aggs" (o_params o)) as [v|] eqn:E; [|congruence].
  pose proof (coerced_params_get _ _ _ _ _ Hco E Hpi) as Hv.
  destruct v; try discriminate Hv.
  destruct Hg as (r & Hr & Hg). unfold serialize_param in Hr. rewrite Hpi in Hr.
  destruct d as [|kv d].
  - simpl in Hr. injection Hr as <-. congruence.
  - cbn [is_empty_container] in Hr. bind_inv Hr as w Hw. injection Hr as <-.
    unfold typed_to_dict in Hw. cbn [p_multi p_hash andb hash_to_dict] in Hw.
    bind_inv Hw as ws Hws. injection Hw as <-.
    rewrite Ha in Hg. injection Hg as ->.
    apply mapM_length in Hws. destruct ws; [discriminate|reflexivity].
Qed.

Lemma meta_entry_truthy m : dict_get "meta" es = Some m -> truthy m = true.
Proof.
  intros Hm. destruct (wf_obj_inv _ Hwf) as (Hreg & Hnd & Hco).
  pose proof (serialized_entries_get _ _ _ _ "meta" Hes Hnd) as Hg.
  unfold meta_ok in Hmeta.
  destruct (dict_get "meta" (o_params o)) as [v|] eqn:E; [|congruence].
  destruct Hg as (r & Hr & Hg). unfold serialize_param in Hr.
  rewrite assoc_meta in Hr. bind_inv Hr as w Hw. injection Hr as <-.
  rewrite Hm in Hg. injection Hg as ->.
  destruct v; simpl in Hw; try (injection Hw as <-; exact Hmeta).
  eapply truthy_to_dict; [|exact Hw]. apply round_trip_ok_wf. apply Hsub.
  unfold subnodes. apply in_flat_map. exists ("meta", PRef a).
  split; [now apply dict_get_In|]. simpl. rewrite assoc_meta. now left.
Qed.

(** Every entry of the object under the kind tag can be given back to the
    constructor. *)
Lemma inner_rebuilds inner k w :
  inner_of (o_class o) es = Ok inner ->
  In (k, w) inner -> no_refs w = true -> rebuilds n (o_class o) (k, w).
Proof.
  intros Hin Hkw Hnr.
  assert (Hes_in : forall kv, In kv (if is_bucket (o_class o)
                                     then dict_del "aggs" (dict_del "meta" es)
                                     else dict_del "meta" es) -> In kv es).
  { intros kv H. destruct (is_bucket _).
    - apply In_dict_del in H as [H _]. now apply In_dict_del in H as [H _].
    - now apply In_dict_del in H as [H _]. }
  destruct (inner_of_cases _ _ _ Hin) as [[-> _]|(Hname & f & Hf & ->)].
  - apply (entry_rebuilds n h IHn o Hwf Hsub es Hes); [now apply Hes_in | exact Hnr].
  - pose proof (filter_entry (to_dict n h) o es Hwf Hname Hes) as Hfe.
    assert (Hf' : dict_get "filter" es = Some (PDict f)).
    { rewrite <- Hf. destruct (is_bucket _); now rewrite !dict_get_del_ne by discriminate. }
    unfold filter_ok in Hfok.
    destruct (dict_get "filter" (o_params o)) as [[]|]; try contradiction;
      [|congruence].
    rewrite Hfe in Hf'. unfold Query_to_dict in Hf'. injection Hf' as <-.
    rewrite !negb_true_iff, !orb_false_iff, !String.eqb_neq in Hfok.
    destruct Hfok as [[Hq1 Hq2] Hq3].
    cbn [dict_update fold_left fst snd] in Hkw.
    apply In_dict_set in Hkw as [[= -> ->]|Hkw].
    + unfold rebuilds. cbn [fst snd].
      rewrite (assoc_untyped_filter_class _ _ Hname Hq1 Hq2).
      intros h0. exists h0, (PDict qbody). repeat split; [reflexivity|].
      intros h2 _. unfold serialize_param.
      now rewrite (assoc_untyped_filter_class _ _ Hname Hq1 Hq2).
    + apply In_dict_del in Hkw as [Hkw _].
      apply (entry_rebuilds n h IHn o Hwf Hsub es Hes); [now apply Hes_in | exact Hnr].
Qed.

Lemma NoDup_inner inner :
  inner_of (o_class o) es = Ok inner -> List.NoDup (keys inner).
Proof.
  intros Hin. destruct (wf_obj_inv _ Hwf) as (Hreg & Hnd & Hco).
  pose proof (NoDup_serialized_entries _ _ _ _ Hes Hnd) as Hnes.
  assert (Hn2 : List.NoDup (keys (if is_bucket (o_class o)
                                  then dict_del "aggs" (dict_del "meta" es)
                                  else dict_del "meta" es))).
  { destruct (is_bucket _); repeat apply NoDup_keys_del; exact Hnes. }
  destruct (inner_of_cases _ _ _ Hin) as [[-> _]|(Hname & f & Hf & ->)]; [exact Hn2|].
  apply NoDup_dict_update. now apply NoDup_keys_del.
Qed.

Lemma inner_no_filter inner :
  inner_of (o_class o) es = Ok inner -> cls_name (o_class o) = "filter" ->
  dict_get "filter" inner = None /\
  forall qn qb, dict_get "filter" (o_params o) = Some (PQuery qn qb) ->
                dict_get qn inner = Some (PDict qb) /\
                assoc qn (param_defs (o_class o)) = None.
Proof.
  intros Hin Hname.
  pose proof (filter_entry (to_dict n h) o es Hwf Hname Hes) as Hfe.
  assert (Hn2 : forall n2, n2 = (if is_bucket (o_class o)
                                 then dict_del "aggs" (dict_del "meta" es)
                                 else dict_del "meta" es) ->
                dict_get "filter" n2 = dict_get "filter" es).
  { intros n2 ->. destruct (is_bucket _); now rewrite !dict_get_del_ne by discriminate. }
  unfold filter_ok in Hfok.
  destruct (inner_of_cases _ _ _ Hin) as [[-> Hnone]|(_ & f & Hf & ->)].
  - split; [now apply Hnone|]. intros qn qb Hq. rewrite Hq in Hfe.
    rewrite <- (Hn2 _ eq_refl), (Hnone Hname) in Hfe. discriminate.
  - rewrite (Hn2 _ eq_refl) in Hf.
    destruct (dict_get "filter" (o_params o)) as [[]|]; try contradiction;
      [|congruence].
    rewrite Hfe in Hf. unfold Query_to_dict in Hf. injection Hf as <-.
    rewrite !negb_true_iff, !orb_false_iff, !String.eqb_neq in Hfok.
    destruct Hfok as [[Hq1 Hq2] Hq3].
    cbn [dict_update fold_left fst snd]. split.
    + rewrite dict_get_set_ne by congruence. apply dict_get_del_eq.
    + intros qn qb [= <- <-]. split; [apply dict_get_set_eq|].
      now apply assoc_untyped_filter_class.
Qed.
End RoundTripNode.

Lemma dict_get_opt_entry key v k :
  dict_get k (opt_entry key v) = if String.eqb key k then v else None.
Proof. destruct v; simpl; now destruct (String.eqb key k). Qed.

Lemma keys_opt_entry key v k : In k (keys (opt_entry key v)) -> k = key /\ v <> None.
Proof. destruct v; simpl; [intros [<-|[]]; split; congruence | intros []]. Qed.

Lemma dict_del_opt_entry_ne k key v :
  key <> k -> dict_del k (opt_entry key v) = opt_entry key v.
Proof.
  intros Hne. destruct v; [|reflexivity]. simpl. now rewrite eqb_neq_s.
Qed.

Lemma dict_del_opt_entry_eq key v : dict_del key (opt_entry key v) = [].
Proof. destruct v; [|reflexivity]. simpl. now rewrite String.eqb_refl. Qed.

Section RoundTripStep.
Variable n : nat.
Variable h : heap.

Hypothesis IHn : forall a d,
  round_trip_ok n h a = true -> to_dict n h a = Ok d -> no_refs d = true ->
  forall h0, exists h1 a1,
    A n h0 d PNone [] = Ok (h1, a1) /\ to_dict n h1 a1 = Ok d.

Lemma node_rebuild a o d :
  h !! a = Some o -> wf_obj o = true -> meta_ok o = true -> filter_ok o = true ->
  (forall c, In c (subnodes o) -> round_trip_ok n h c = true) ->
  to_dict (S n) h a = Ok d -> no_refs d = true ->
  forall h0, exists h1 a1 o1,
    A (S n) h0 d PNone [] = Ok (h1, a1) /\
    to_dict (S n) h1 a1 = Ok d /\
    h1 !! a1 = Some o1 /\ o_class o1 = o_class o /\
    filter_flattened o (o_params o1).
Proof.
  intros Ho Hwf Hmeta Hfok Hsub Hd Hnr h0.
  destruct (wf_obj_inv _ Hwf) as (Hreg & Hnd & Hco).
  destruct (registered_not_reserved _ (registered_In _ Hreg)) as [Hna Hnm].
  rewrite (to_dict_closed _ _ _ _ Ho Hwf) in Hd.
  bind_inv Hd as es Hes. bind_inv Hd as D HD. injection Hd as <-.
  unfold wire_of in HD. bind_inv HD as inner Hinner. injection HD as <-.
  destruct (inner_of_reserved o es inner _ Hwf Hfok Hes Hinner) as [Hinm Hina].
  set (cls := o_class o) in *. set (name := cls_name cls) in *.
  set (mo := dict_get "meta" es).
  set (ao := if is_bucket cls then dict_get "aggs" es else None).
  assert (HD : (name, PDict inner) :: sibling "meta" es
                 ++ (if is_bucket cls then sibling "aggs" es else [])
               = (name, PDict inner) :: opt_entry "meta" mo ++ opt_entry "aggs" ao).
  { unfold ao, mo. now destruct (is_bucket cls). }
  rewrite HD in Hnr |- *.
  assert (Hao : forall a0, ao = Some a0 ->
            is_bucket cls = true /\ dict_get "aggs" es = Some a0).
  { unfold ao. destruct (is_bucket cls); [auto | discriminate]. }
  destruct (wire_parse name inner mo ao Hna Hnm) as [Hrest Hre].
  { intros a0 Ha0. destruct (Hao a0 Ha0) as [Hb Hg]. split.
    - eapply (aggs_entry_truthy n h o Hwf es Hes); eauto.
    - apply dict_get_absent. now apply Hina. }
  { intros m Hm. split.
    - eapply (meta_entry_truthy n h o Hwf Hmeta Hsub es Hes); eauto.
    - now apply dict_get_absent. }
  set (P := inner ++ opt_entry "aggs" ao ++ opt_entry "meta" mo) in *.
  rewrite (A_mapping n h0 _ name inner Hnr Hrest), Hre.
  assert (Hget : get_dsl_class (PStr name) = Ok cls) by exact (registered_get _ Hreg).
  rewrite Hget. cbn [bind].
  (* the parameters handed to the constructor *)
  assert (HndP : List.NoDup (keys P)).
  { unfold P. apply NoDup_keys_app; [eapply NoDup_inner; eauto| |].
    - apply NoDup_keys_app.
      + destruct ao; repeat constructor; simpl; tauto.
      + destruct mo; repeat constructor; simpl; tauto.
      + intros k Hk Hk'. apply keys_opt_entry in Hk as [-> _].
        apply keys_opt_entry in Hk' as [Hk' _]. discriminate.
    - intros k Hk. unfold keys in Hk. rewrite map_app, in_app_iff in Hk.
      destruct Hk as [Hk|Hk]; apply keys_opt_entry in Hk as [-> Hk].
      + destruct ao as [a0|]; [|congruence]. destruct (Hao a0 eq_refl) as [Hb _].
        apply dict_get_absent. now apply Hina.
      + now apply dict_get_absent. }
  assert (HallP : Forall (rebuilds n cls) P).
  { apply List.Forall_forall. intros [k w] Hkw. unfold P in Hkw.
    cbn [no_refs forallb snd] in Hnr. apply andb_true_iff in Hnr as [Hnr1 Hnr2].
    rewrite forallb_app in Hnr2. apply andb_true_iff in Hnr2 as [Hnrm Hnra].
    rewrite !in_app_iff in Hkw. destruct Hkw as [Hkw|[Hkw|Hkw]].
    - eapply (inner_rebuilds n h IHn o Hwf Hfok Hsub es Hes); eauto.
      exact (forallb_In _ _ (k, w) Hnr1 Hkw).
    - destruct ao as [a0|] eqn:Eao; [|destruct Hkw].
      destruct Hkw as [[= <- <-]|[]]. destruct (Hao a0 eq_refl) as [_ Hg].
      apply (entry_rebuilds n h IHn o Hwf Hsub es Hes); [now apply dict_get_In|].
      simpl in Hnra. now rewrite andb_true_r in Hnra.
    - destruct mo as [m|] eqn:Emo; [|destruct Hkw].
      destruct Hkw as [[= <- <-]|[]].
      apply (entry_rebuilds n h IHn o Hwf Hsub es Hes); [now apply dict_get_In|].
      simpl in Hnrm. now rewrite andb_true_r in Hnrm. }
  assert (Hgf : cls_name cls = "filter" -> dict_get "filter" P = None).
  { intros Hname. unfold P. rewrite !dict_get_app, !dict_get_opt_entry.
    destruct (inner_no_filter n h o Hwf Hfok es Hes inner Hinner Hname) as [-> _].
    reflexivity. }
  (* the constructor *)
  unfold new.
  assert (Hfi : (if String.eqb (cls_name cls) "filter" then Filter_init P else P) = P).
  { destruct (String.eqb (cls_name cls) "filter") eqn:Ef; [|reflexivity].
    apply String.eqb_eq in Ef. unfold Filter_init, dict_pop.
    rewrite (Hgf Ef). apply dict_del_absent. apply dict_get_absent. now apply Hgf. }
  rewrite Hfi.
  destruct (DslBase_init_rebuild n cls P [] h0 HndP) as (h1 & sp & Hinit & Hp & Hkeys & Hun & Hser);
    [intros ? _ [] | exact HallP |].
  rewrite Hinit. cbn [bind app].
  set (o1 := mk_obj cls sp (if is_bucket cls then Some (length h1) else None)).
  exists (h1 ++ [o1]), (length h1), o1.
  assert (Hl1 : (h1 ++ [o1]) !! length h1 = Some o1).
  { rewrite lookup_app_r by lia. now rewrite Nat.sub_diag. }
  split; [reflexivity|]. split; [|split; [exact Hl1|split; [reflexivity|]]].
  - (* serializing the rebuilt node *)
    rewrite (to_dict_closed_gen n _ _ o1 Hl1); [|exact Hreg|simpl; now rewrite Hkeys].
    cbn [o_class o_params o1].
    rewrite Hser by (apply prefix_app_r; reflexivity). cbn [bind].
    assert (Hdm : dict_del "meta" P = inner ++ opt_entry "aggs" ao).
    { unfold P. rewrite !dict_del_app, dict_del_opt_entry_eq, app_nil_r.
      rewrite dict_del_opt_entry_ne by discriminate.
      now rewrite (dict_del_absent "meta" inner) by now apply dict_get_absent. }
    assert (Hn2 : (if is_bucket cls then dict_del "aggs" (dict_del "meta" P)
                   else dict_del "meta" P) = inner).
    { rewrite Hdm. unfold ao. destruct (is_bucket cls) eqn:Eb.
      - rewrite dict_del_app, dict_del_opt_entry_eq, app_nil_r.
        apply dict_del_absent, dict_get_absent. now apply Hina.
      - apply app_nil_r. }
    assert (Hinner' : inner_of cls P = Ok inner).
    { unfold inner_of. rewrite Hn2.
      destruct (String.eqb (cls_name cls) "filter") eqn:Ef; [|reflexivity].
      apply String.eqb_eq in Ef.
      now destruct (inner_no_filter n h o Hwf Hfok es Hes inner Hinner Ef) as [-> _]. }
    unfold wire_of. rewrite Hinner'. cbn [bind]. f_equal. f_equal. f_equal.
    rewrite !sibling_opt. unfold P. rewrite !dict_get_app, !dict_get_opt_entry.
    rewrite Hinm. unfold ao.
    destruct (is_bucket cls) eqn:Eb.
    + rewrite (Hina eq_refl). destruct (dict_get "aggs" es), mo; reflexivity.
    + destruct mo; reflexivity.
  - (* the filter query, flattened *)
    intros Hname. simpl.
    destruct (inner_no_filter n h o Hwf Hfok es Hes inner Hinner Hname) as [Hf1 Hf2].
    split.
    + apply dict_get_keys. rewrite Hkeys. apply dict_get_absent. now apply Hgf.
    + intros qn qb Hq. destruct (Hf2 qn qb Hq) as [Hq1 Hq2].
      rewrite (Hun qn Hq2). unfold P. now rewrite dict_get_app, Hq1.
Qed.
End RoundTripStep.

(** Serializing, rebuilding through the factory and serializing again gives
    the same wire object. *)
Lemma round_trip n : forall h a d,
  round_trip_ok n h a = true -> to_dict n h a = Ok d -> no_refs d = true ->
  forall h0, exists h1 a1,
    A n h0 d PNone [] = Ok (h1, a1) /\ to_dict n h1 a1 = Ok d.
Proof.
  induction n as [|n IH]; intros h a d Hok Hd Hnr h0; [discriminate|].
  apply round_trip_ok_inv in Hok as (o & Ho & Hwf & Hm & Hf & Hsub).
  destruct (node_rebuild n h (IH h) a o d Ho Hwf Hm Hf Hsub Hd Hnr h0)
    as (h1 & a1 & o1 & HA & Htd & _).
  eauto.
Qed.


(** ** What the constructor stores *)

Section Stored.
Variable A_ : heap -> pyval -> res (heap * nat).

Lemma DslBase_init_other cls P : forall h sp0 h' sp k,
  DslBase_init A_ cls h sp0 P = Ok (h', sp) -> ~ In k (keys P) ->
  dict_get k sp = dict_get k sp0.
Proof.
  induction P as [|[k0 v0] P IH]; simpl; intros h sp0 h' sp k H Hk.
  - now injection H as <- <-.
  - bind_inv H as [h1 sp1] H1. rewrite (IH _ _ _ _ k H) by tauto.
    unfold DslBase_setattr in H1. destruct (assoc k0 (param_defs cls)).
    + bind_inv H1 as [h2 v'] H2. injection H1 as <- <-.
      apply dict_get_set_ne. tauto.
    + injection H1 as <- <-. apply dict_get_set_ne. tauto.
Qed.

(** Each keyword parameter is stored, coerced when it is typed. *)
Lemma DslBase_init_get cls P : forall h sp0 h' sp k v,
  DslBase_init A_ cls h sp0 P = Ok (h', sp) -> List.NoDup (keys P) ->
  dict_get k P = Some v ->
  exists h0 h1 v',
    match assoc k (param_defs cls) with
    | Some pi => coerce A_ pi h0 v
    | None => Ok (h0, v)
    end = Ok (h1, v') /\
    dict_get k sp = Some v'.
Proof.
  induction P as [|[k0 v0] P IH]; simpl; intros h sp0 h' sp k v H Hnd Hk;
    [discriminate|].
  inversion Hnd as [|? ? Hk0 Hnd']; subst.
  bind_inv H as [h1 sp1] H1.
  destruct (String.eqb k0 k) eqn:E.
  - apply String.eqb_eq in E. subst k0. injection Hk as ->.
    rewrite (DslBase_init_other _ _ _ _ _ _ k H Hk0).
    unfold DslBase_setattr in H1. destruct (assoc k (param_defs cls)).
    + bind_inv H1 as [h2 v'] H2. injection H1 as <- <-.
      exists h, h2, v'. split; [exact H2 | apply dict_get_set_eq].
    + injection H1 as <- <-. exists h, h, v. split; [reflexivity | apply dict_get_set_eq].
  - eapply IH; eauto.
Qed.
End Stored.

Lemma reattached_get_meta agg params meta :
  dict_get "meta" agg = Some meta -> truthy meta = true ->
  dict_get "meta" (reattached agg params) = Some meta.
Proof.
  intros Hm Ht. unfold reattached, dict_pop. cbn [fst].
  rewrite dict_get_del_ne by discriminate. rewrite Hm, Ht. cbv iota.
  apply dict_get_set_eq.
Qed.

Lemma reattached_get_aggs agg params aggs :
  dict_get "aggs" agg = Some aggs -> truthy aggs = true ->
  dict_get "aggs" (reattached agg params) = Some aggs.
Proof.
  intros Ha Ht. unfold reattached, dict_pop. cbn [fst]. rewrite Ha, Ht. cbv iota.
  match goal with |- context [if ?c then _ else _] => destruct c end.
  - rewrite dict_get_set_ne by discriminate. apply dict_get_set_eq.
  - apply dict_get_set_eq.
Qed.

Lemma NoDup_reattached agg params :
  List.NoDup (keys params) -> List.NoDup (keys (reattached agg params)).
Proof.
  intros H. unfold reattached.
  repeat match goal with |- context [if ?c then _ else _] => destruct c end;
    repeat apply NoDup_keys_set; exact H.
Qed.

(** The reserved keys [aggs] and [meta] of a wire-format mapping are taken
    out and, when they are truthy, handed to the constructor of the kind as
    keyword parameters: a truthy [meta] is the [meta] parameter of the node
    built, a truthy [aggs] is coerced to the children of a bucket. *)
Lemma A_reserved_keys (n : nat) (h h' : heap) (a : nat) (agg : dict)
    (agg_type : string) (params : dict) :
  no_refs (PDict agg) = true ->
  uniq (keys params) = true ->
  non_reserved agg = [(agg_type, PDict params)] ->
  A (S n) h (PDict agg) PNone [] = Ok (h', a) ->
  exists cls o,
    get_dsl_class (PStr agg_type) = Ok cls /\
    new (fun h v => A n h v PNone []) cls false h (reattached agg params)
      = Ok (h', a) /\
    h' !! a = Some o /\ o_class o = cls /\
    (forall meta, dict_get "meta" agg = Some meta -> truthy meta = true ->
       dict_get "meta" (o_params o) = Some meta) /\
    (forall aggs, dict_get "aggs" agg = Some aggs -> truthy aggs = true ->
       dict_get "aggs" (reattached agg params) = Some aggs /\
       (is_bucket cls = true ->
          exists h0 h1 children,
            coerce_hash (fun h v => A n h v PNone []) TAgg h0 aggs
              = Ok (h1, children) /\
            dict_get "aggs" (o_params o) = Some children)).
Proof.
  intros Hnr Hu Hrest HA. apply uniq_NoDup in Hu.
  rewrite (A_mapping n h agg agg_type params Hnr Hrest) in HA.
  bind_inv HA as cls Hcls. exists cls.
  pose proof HA as Hnew.
  apply new_inv in HA as (h1 & sp & Hinit & -> & -> & Hp);
    [|intros; eapply A_prefix; eassumption].
  eexists. split; [exact Hcls|]. split; [exact Hnew|].
  split; [rewrite lookup_app_r by lia; now rewrite Nat.sub_diag|].
  split; [reflexivity|]. cbn [o_params].
  assert (Hfi : forall k, k <> "filter" -> forall v,
            dict_get k (reattached agg params) = Some v ->
            dict_get k (if String.eqb (cls_name cls) "filter"
                        then Filter_init (reattached agg params)
                        else reattached agg params) = Some v).
  { intros k Hk v Hv. destruct (String.eqb _ _); [|exact Hv].
    unfold Filter_init, dict_pop.
    destruct (dict_get "filter" (reattached agg params)) as [[]|];
      rewrite ?dict_get_set_ne by congruence;
      now rewrite dict_get_del_ne by congruence. }
  assert (Hndf : List.NoDup (keys (if String.eqb (cls_name cls) "filter"
                        then Filter_init (reattached agg params)
                        else reattached agg params))).
  { pose proof (NoDup_reattached agg params Hu) as H0.
    destruct (String.eqb _ _); [|exact H0]. unfold Filter_init, dict_pop.
    destruct (dict_get "filter" (reattached agg params)) as [[]|];
      try apply NoDup_keys_set; now apply NoDup_keys_del. }
  split.
  - intros meta Hm Ht.
    pose proof (Hfi "meta" ltac:(discriminate) _ (reattached_get_meta agg params meta Hm Ht)) as Hg.
    destruct (DslBase_init_get _ _ _ _ _ _ _ _ _ Hinit Hndf Hg) as (h0 & h2 & v' & Hc & Hs).
    rewrite assoc_meta in Hc. now injection Hc as _ <-.
  - intros aggs Ha Ht. split; [now apply reattached_get_aggs|].
    intros Hb.
    pose proof (Hfi "aggs" ltac:(discriminate) _ (reattached_get_aggs agg params aggs Ha Ht)) as Hg.
    destruct (DslBase_init_get _ _ _ _ _ _ _ _ _ Hinit Hndf Hg) as (h0 & h2 & v' & Hc & Hs).
    rewrite assoc_aggs, Hb in Hc. unfold coerce in Hc. cbn in Hc.
    exists h0, h2, v'. auto.
Qed.

(** C7, as the code has it: the reserved keys [aggs] and [meta] of a
    wire-format mapping are taken out and, when they are truthy (present and
    not empty), handed to the constructor of the kind as keyword parameters:
    a truthy [meta] is the [meta] parameter of the node built, a truthy
    [aggs] is coerced to the children of a bucket.  Building from
    [{"terms": {"field": "tags"}, "aggs": {"x": {"max": {"field": "y"}}}}]
    gives a node of kind [terms] whose parameters besides the children are
    [{"field": "tags"}] and whose one child, [x], is of kind [max]. *)
Theorem C7_reserved_keys :
  (forall (n : nat) (h h' : heap) (a : nat) (agg : dict) (agg_type : string)
          (params : dict),
     no_refs (PDict agg) = true ->
     uniq (keys params) = true ->
     non_reserved agg = [(agg_type, PDict params)] ->
     A (S n) h (PDict agg) PNone [] = Ok (h', a) ->
     exists cls o,
       get_dsl_class (PStr agg_type) = Ok cls /\
       new (fun h v => A n h v PNone []) cls false h (reattached agg params)
         = Ok (h', a) /\
       h' !! a = Some o /\ o_class o = cls /\
       (forall meta, dict_get "meta" agg = Some meta -> truthy meta = true ->
          dict_get "meta" (o_params o) = Some meta) /\
       (forall aggs, dict_get "aggs" agg = Some aggs -> truthy aggs = true ->
          dict_get "aggs" (reattached agg params) = Some aggs /\
          (is_bucket cls = true ->
             exists h0 h1 children,
               coerce_hash (fun h v => A n h v PNone []) TAgg h0 aggs
                 = Ok (h1, children) /\
               dict_get "aggs" (o_params o) = Some children))) /\
  (exists h self o x co,
     A 2 [] (PDict ex_wire) PNone [] = Ok (h, self) /\
     h !! self = Some o /\
     cls_name (o_class o) = "terms" /\
     dict_del "aggs" (o_params o) = [("field", PStr "tags")] /\
     aggs_of o = [("x", PRef x)] /\
     h !! x = Some co /\
     cls_name (o_class co) = "max").
Proof.
  split.
  - exact A_reserved_keys.
  - exists ex_built, 1. do 3 eexists. repeat split; reflexivity.
Qed.

(** ** The shape of a wire-format mapping *)

Lemma mapM_heap_total {T U : Type} (f : heap -> T -> res (heap * U)) (l : list T) :
  (forall x, In x l -> forall h, exists h' y, f h x = Ok (h', y)) ->
  forall h, exists h' ys, mapM_heap f h l = Ok (h', ys).
Proof.
  induction l as [|x l IH]; simpl; intros Hf h; [eauto|].
  destruct (Hf x (or_introl eq_refl) h) as (h1 & y & ->). cbn [bind].
  destruct (IH (fun x Hx => Hf x (or_intror Hx)) h1) as (h2 & ys & ->).
  cbn [bind]. eauto.
Qed.

Lemma mapM_heap_fails {T U : Type} (f : heap -> T -> res (heap * U))
    (good : list T) (b : T) (rest : list T) (e : error) :
  (forall x, In x good -> forall h, exists h' y, f h x = Ok (h', y)) ->
  (forall h, f h b = Err e) ->
  forall h, mapM_heap f h (good ++ b :: rest) = Err e.
Proof.
  induction good as [|x good IH]; simpl; intros Hg Hb h.
  - now rewrite Hb.
  - destruct (Hg x (or_introl eq_refl) h) as (h1 & y & ->). cbn [bind].
    now rewrite (IH (fun x Hx => Hg x (or_intror Hx)) Hb h1).
Qed.

Section Builds.
Variable n : nat.
Let A_ := fun (h : heap) (v : pyval) => A n h v PNone [].
Hypothesis IHn : forall v h, well_shaped n v = true ->
                           exists h' a, A_ h v = Ok (h', a).

Lemma shortcut_builds t v h :
shortcut_ok (well_shaped n) t v = true ->
exists h' w, get_dsl_type A_ t h v = Ok (h', w).
Proof.
destruct t; simpl; intros H.
- destruct (IHn v h H) as (h' & a & ->). cbn [bind]. eauto.
- destruct (Q v); [|discriminate]. cbn [bind]. eauto.
Qed.

Lemma hash_builds t v h :
hash_ok (well_shaped n) t v = true ->
exists h' w, coerce_hash A_ t h v = Ok (h', w).
Proof.
destruct v; simpl; try discriminate. intros H.
destruct (mapM_heap_total
            (fun h kv => let* (h', v') := get_dsl_type A_ t h (snd kv) in
                         Ok (h', (fst kv, v'))) d) with (h := h)
  as (h' & ys & ->).
- intros kv Hin h0.
  destruct (shortcut_builds t (snd kv) h0 (forallb_In _ _ kv H Hin)) as (h1 & w & ->).
  cbn [bind]. eauto.
- cbn [bind]. eauto.
Qed.

Lemma coerce_builds pi v h :
coercible (well_shaped n) pi v = true ->
exists h' w, coerce A_ pi h v = Ok (h', w).
Proof.
unfold coercible, coerce. destruct (p_multi pi), (p_hash pi); simpl; intros H.
- destruct (mapM_heap_total (coerce_hash A_ (p_type pi)) (as_list v)) with (h := h)
    as (h' & ys & ->); [|cbn [bind]; eauto].
  intros x Hin h0. apply hash_builds. exact (forallb_In _ _ x H Hin).
- destruct (mapM_heap_total (get_dsl_type A_ (p_type pi)) (as_list v)) with (h := h)
    as (h' & ys & ->); [|cbn [bind]; eauto].
  intros x Hin h0. apply shortcut_builds. exact (forallb_In _ _ x H Hin).
- now apply hash_builds.
- now apply shortcut_builds.
Qed.

Lemma init_builds cls : forall ps h sp0,
forallb (fun kv => match assoc (fst kv) (param_defs cls) with
                   | Some pi => coercible (well_shaped n) pi (snd kv)
                   | None => true
                   end) ps = true ->
exists h' sp, DslBase_init A_ cls h sp0 ps = Ok (h', sp).
Proof.
induction ps as [|[k v] ps IH]; simpl; intros h sp0 H; [eauto|].
apply andb_true_iff in H as [Hk Hps]. unfold DslBase_setattr.
destruct (assoc k (param_defs cls)) as [pi|].
- destruct (coerce_builds pi v h Hk) as (h1 & w & ->). cbn [bind]. now apply IH.
- cbn [bind]. now apply IH.
Qed.
End Builds.

Lemma well_shaped_mapping n agg :
  well_shaped (S n) (PDict agg) =
    no_refs (PDict agg) &&
    match non_reserved agg with
    | [(agg_type, PDict params)] =>
        match get_dsl_class (PStr agg_type) with
        | Ok cls =>
            forallb
              (fun kv => match assoc (fst kv) (param_defs cls) with
                         | Some pi => coercible (well_shaped n) pi (snd kv)
                         | None => true
                         end)
              (if String.eqb (cls_name cls) "filter"
               then Filter_init (reattached agg params) else reattached agg params)
        | Err _ => false
        end
    | _ => false
    end.
Proof. reflexivity. Qed.

Lemma well_shaped_mapping_inv n agg :
  well_shaped (S n) (PDict agg) = true ->
  exists agg_type params cls,
    no_refs (PDict agg) = true /\
    non_reserved agg = [(agg_type, PDict params)] /\
    get_dsl_class (PStr agg_type) = Ok cls /\
    forallb
      (fun kv => match assoc (fst kv) (param_defs cls) with
                 | Some pi => coercible (well_shaped n) pi (snd kv)
                 | None => true
                 end)
      (if String.eqb (cls_name cls) "filter"
       then Filter_init (reattached agg params) else reattached agg params) = true.
Proof.
  rewrite well_shaped_mapping. intros H. apply andb_true_iff in H as [Hnr H].
  destruct (non_reserved agg) as [|[agg_type [| | | | |params| |]] [|]];
    try discriminate.
  destruct (get_dsl_class (PStr agg_type)) as [cls|] eqn:Ec; [|discriminate].
  exists agg_type, params, cls. auto.
Qed.

(** The factory builds a node from everything that is well shaped. *)
Lemma well_shaped_builds : forall n v h,
  well_shaped n v = true -> exists h' a, A n h v PNone [] = Ok (h', a).
Proof.
  induction n as [|n IH]; intros v h H; [discriminate|].
  destruct v; try (simpl in H; discriminate H).
  - cbn [well_shaped] in H.
    destruct (get_dsl_class (PStr s)) as [cls|] eqn:Ec; [|discriminate].
    rewrite A_unfold. cbn [bind]. rewrite Ec. cbn [bind]. unfold new.
    destruct (String.eqb (cls_name cls) "filter"); simpl; eauto.
  - apply well_shaped_mapping_inv in H as (agg_type & params & cls & Hnr & Hrest & Hc & Hall).
    rewrite (A_mapping n h d agg_type params) by assumption.
    rewrite Hc. cbn [bind]. unfold new. cbv zeta.
    match goal with
    | |- context [DslBase_init ?f ?c ?h0 ?s ?p] =>
        destruct (init_builds n IH c p h0 s Hall) as (h1 & sp & E); rewrite E
    end.
    cbn [bind]. eauto.
  - rewrite A_unfold. simpl. eauto.
Qed.

(** Conversely, what the factory builds a node from is well shaped. *)

Lemma mapM_heap_each {T U : Type} (f : heap -> T -> res (heap * U)) (P : T -> Prop) :
  (forall h x h' y, f h x = Ok (h', y) -> P x) ->
  forall l h h' ys, mapM_heap f h l = Ok (h', ys) -> forall x, In x l -> P x.
Proof.
  intros Hf. induction l as [|x l IH]; simpl; intros h h' ys H x0 Hin; [contradiction|].
  bind_inv H as [h1 y] Hy. bind_inv H as [h2 ys'] Hys.
  destruct Hin as [<-|Hin]; [eapply Hf; eassumption | eapply IH; eassumption].
Qed.

Lemma forallb_intro {T : Type} (f : T -> bool) (l : list T) :
  (forall x, In x l -> f x = true) -> forallb f l = true.
Proof. intros H. apply forallb_forall. exact H. Qed.

Section Built.
Variable n : nat.
Let A_ := fun (h : heap) (v : pyval) => A n h v PNone [].
Hypothesis IHn : forall v h h' a, A_ h v = Ok (h', a) -> well_shaped n v = true.

Lemma shortcut_built t v h h' w :
get_dsl_type A_ t h v = Ok (h', w) -> shortcut_ok (well_shaped n) t v = true.
Proof.
destruct t; simpl; intros H.
- bind_inv H as [h1 a] Ha. eapply IHn; eassumption.
- destruct (Q v); [reflexivity|discriminate].
Qed.

Lemma hash_built t v h h' w :
coerce_hash A_ t h v = Ok (h', w) -> hash_ok (well_shaped n) t v = true.
Proof.
destruct v; simpl; try discriminate. intros H. bind_inv H as [h1 d'] Hd.
apply forallb_intro. intros kv Hin.
refine (mapM_heap_each _ (fun kv => shortcut_ok (well_shaped n) t (snd kv) = true)
          _ _ _ _ _ Hd kv Hin).
intros h0 x h2 y Hx. bind_inv Hx as [h3 v'] Hv. eapply shortcut_built; eassumption.
Qed.

Lemma coerce_built pi v h h' w :
coerce A_ pi h v = Ok (h', w) -> coercible (well_shaped n) pi v = true.
Proof.
unfold coercible, coerce. destruct (p_multi pi), (p_hash pi); simpl; intros H.
- bind_inv H as [h1 l'] Hl. apply forallb_intro. intros x Hin.
  refine (mapM_heap_each _ (fun x => hash_ok (well_shaped n) (p_type pi) x = true)
            _ _ _ _ _ Hl x Hin).
  intros; eapply hash_built; eassumption.
- bind_inv H as [h1 l'] Hl. apply forallb_intro. intros x Hin.
  refine (mapM_heap_each _ (fun x => shortcut_ok (well_shaped n) (p_type pi) x = true)
            _ _ _ _ _ Hl x Hin).
  intros; eapply shortcut_built; eassumption.
- eapply hash_built; eassumption.
- eapply shortcut_built; eassumption.
Qed.

Lemma init_built cls : forall ps h sp0 h' sp,
DslBase_init A_ cls h sp0 ps = Ok (h', sp) ->
forallb (fun kv => match assoc (fst kv) (param_defs cls) with
                   | Some pi => coercible (well_shaped n) pi (snd kv)
                   | None => true
                   end) ps = true.
Proof.
induction ps as [|[k v] ps IH]; simpl; intros h sp0 h' sp H; [reflexivity|].
bind_inv H as [h1 sp1] Hs. apply andb_true_iff. split; [|eapply IH; eassumption].
unfold DslBase_setattr in Hs. destruct (assoc k (param_defs cls)) as [pi|]; [|reflexivity].
bind_inv Hs as [h2 v'] Hv. eapply coerce_built; eassumption.
Qed.
End Built.

Lemma reattach_mapping key v params p :
  reattach key v params = Ok (PDict p) -> exists p0, params = PDict p0.
Proof.
  unfold reattach. destruct (truthy v).
  - destruct params; try discriminate. eauto.
  - intros [= ->]. eauto.
Qed.

Lemma built_well_shaped : forall n v h h' a,
  A n h v PNone [] = Ok (h', a) -> well_shaped n v = true.
Proof.
  induction n as [|n IH]; intros v h h' a H; [discriminate|].
  destruct v; try (rewrite A_unfold in H; simpl in H; discriminate H).
  - rewrite A_unfold in H. cbn [bind] in H. cbn [well_shaped].
    destruct (get_dsl_class (PStr s)); [reflexivity|discriminate].
  - pose proof H as H0. rewrite A_unfold in H0. cbn [bind] in H0.
    destruct (no_refs (PDict d)) eqn:Hnr; [|discriminate]. cbn [negb] in H0.
    unfold dict_pop in H0.
    destruct (dict_del "meta" (dict_del "aggs" d)) as [|[agg_type params] [|]] eqn:Hrest;
      try discriminate.
    bind_inv H0 as p1 Hp1. bind_inv H0 as p2 Hp2. bind_inv H0 as cls Hc.
    destruct p2 as [| | | | |p2| |]; try discriminate.
    apply reattach_mapping in Hp2 as [p1' ->].
    apply reattach_mapping in Hp1 as [params' ->].
    clear H0. fold (non_reserved d) in Hrest.
    rewrite (A_mapping n h d agg_type params' Hnr Hrest), Hc in H. cbn [bind] in H.
    apply new_inv in H as (h1 & sp & Hinit & _); [|intros; eapply A_prefix; eassumption].
    rewrite well_shaped_mapping, Hnr, Hrest, Hc. cbn [andb].
    eapply init_built; [|exact Hinit]. exact IH.
  - reflexivity.
Qed.

Lemma dict_set_app_l (k : string) (v : pyval) (d e : dict) :
  In k (keys d) -> dict_set k v (d ++ e) = dict_set k v d ++ e.
Proof.
  induction d as [|[k' v'] d IH]; simpl; intros H; [contradiction|].
  destruct (String.eqb k' k) eqn:E; [reflexivity|].
  destruct H as [->|H]; [now rewrite String.eqb_refl in E|].
  now rewrite IH.
Qed.

(** The re-attached parameters when [aggs] is truthy and is no key of the
    mapping under the kind tag. *)
Lemma reattached_split agg params aggs :
  ~ In "aggs" (keys params) ->
  dict_get "aggs" agg = Some aggs -> truthy aggs = true ->
  exists pre post,
    reattached agg params = pre ++ ("aggs", aggs) :: post /\
    (forall k, In k (keys pre) -> In k (keys params)) /\
    (forall k, In k (keys post) -> k = "meta").
Proof.
  intros Hna Hg Ht. unfold reattached, dict_pop. rewrite Hg. cbn [fst]. rewrite Ht.
  rewrite (dict_set_fresh _ _ _ Hna).
  set (m := match dict_get "meta" (dict_del "aggs" agg) with
            | Some v => v | None => PNone end).
  destruct (truthy m).
  - destruct (in_dec string_dec "meta" (keys params)) as [Hm|Hm].
    + rewrite dict_set_app_l by exact Hm.
      exists (dict_set "meta" m params), [].
      split; [reflexivity|]. split; [|intros k []].
      intros k Hk. rewrite keys_dict_set in Hk.
      now rewrite (proj2 (dict_has_keys _ _) Hm) in Hk.
    + rewrite dict_set_fresh.
      * rewrite <- app_assoc. exists params, [("meta", m)].
        split; [reflexivity|]. split; [auto|]. intros k [<-|[]]. reflexivity.
      * unfold keys. rewrite map_app, in_app_iff. simpl.
        intros [H|[H|[]]]; [contradiction|discriminate].
  - exists params, []. split; [reflexivity|]. split; [auto|intros k []].
Qed.

Lemma DslBase_init_fails A_ cls (key : string) (v : pyval) (post : dict) (e : error) :
  (forall h sp, DslBase_setattr A_ cls h sp key v = Err e) ->
  forall pre h sp0,
    (forall k, In k (keys pre) -> assoc k (param_defs cls) = None) ->
    DslBase_init A_ cls h sp0 (pre ++ (key, v) :: post) = Err e.
Proof.
  intros Hf. induction pre as [|[k0 v0] pre IH]; simpl; intros h sp0 Hun.
  - now rewrite Hf.
  - unfold DslBase_setattr at 1. rewrite (Hun k0) by now left. cbn [bind].
    apply IH. intros k Hk. apply Hun. now right.
Qed.


(** ** The examples, evaluated *)

Example ex_root_built :
  A 1 [] (PStr "terms") PNone [("field", PStr "t")] = Ok (ex_root, 0).
Proof. reflexivity. Qed.

Example ex_tree_built :
  bucket 2 ex_root 0 "a" (PStr "terms") [] [("field", PStr "f")] = (ex_tree, Ok 1).
Proof. reflexivity. Qed.

Example ex_filter_built :
  A 1 [] (PStr "filter") (PQuery "term" [("f", PInt 1)])
    [("meta", PDict [("a", PInt 1)])] = Ok (ex_filter, 0).
Proof. reflexivity. Qed.

Example ex_wire_built : A 2 [] (PDict ex_wire) PNone [] = Ok (ex_built, 1).
Proof. reflexivity. Qed.

(** ** Witnesses and counterexamples *)





Lemma C3_witness : result ex_root 0 = Some FieldBucketData.
Proof. apply (C3_result_view_of_buckets ex_root 0 (mk_obj Terms [("field", PStr "t")] (Some 0))); reflexivity. Defined.

Lemma C3_counterexample :
  exists h a,
    A 1 [] (PStr "multi_terms") PNone [("terms", PList [])] = Ok (h, a) /\
    result h a = Some BucketData /\
    result h a <> Some FieldBucketData.
Proof. do 2 eexists. repeat split; try reflexivity. discriminate. Qed.

Lemma C4_witness :
  bucket 2 ex_root 0 "a" (PStr "terms") [] [("field", PStr "f")] = (ex_tree, Ok 1) /\
  metric 2 ex_root 0 "a" (PStr "terms") [] [("field", PStr "f")] = (ex_tree, Ok 0) /\
  pipeline 2 ex_root 0 "a" (PStr "terms") [] [("field", PStr "f")] = (ex_tree, Ok 0) /\
  metric 2 ex_root 0 "a" (PStr "terms") [] [("bucket", PInt 1)] = (ex_root, Err TypeError).
Proof.
  destruct (C4_chaining 1 ex_root
              (ex_root ++ [mk_obj Terms [("field", PStr "f")] (Some 1)]) 0 1
              (mk_obj Terms [("field", PStr "t")] (Some 0))
              "a" "terms" [] [("field", PStr "f")]
              eq_refl eq_refl eq_refl I eq_refl eq_refl)
    as (H1 & H2 & H3 & _ & _ & _ & _ & H8).
  split; [exact H1|]. split; [exact H2|]. split; [exact H3|].
  exact (proj1 (proj2 (H8 [("bucket", PInt 1)] eq_refl))).
Defined.

Lemma C4_counterexample :
  exists h root h1 a h2 x,
    A 1 [] (PStr "terms") PNone [("field", PStr "t")] = Ok (h, root) /\
    bucket 2 h root "a" (PStr "terms") [] [("field", PStr "f")] = (h1, Ok a) /\
    metric 2 h1 a "m" (PStr "max") [] [("field", PStr "y")] = (h2, Ok x) /\
    x = a /\ x <> root.
Proof. do 6 eexists. repeat split; try reflexivity. discriminate. Qed.

Lemma C5_witness :
  exists d inner,
    to_dict 1 ex_filter 0 = Ok (PDict d) /\
    dict_get "filter" d = Some (PDict inner) /\
    dict_get "term" inner = Some (PDict [("f", PInt 1)]) /\
    dict_get "filter" inner = None.
Proof.
  destruct (C5_filter_merged 0 ex_filter 0
              (mk_obj FilterAgg
                 [("meta", PDict [("a", PInt 1)]);
                  ("filter", PQuery "term" [("f", PInt 1)])] (Some 0))
              "term" [("f", PInt 1)] eq_refl eq_refl eq_refl eq_refl eq_refl)
    as (es & f & inner & d & Hes & Hf & Hin & Hd & Heq & Hk & Hq & Hnf & _).
  exists d, inner. auto.
Defined.

Lemma C6_witness :
  exists d inner,
    to_dict 2 ex_tree 0 = Ok (PDict d) /\
    dict_get "terms" d = Some (PDict inner) /\
    dict_get "aggs" inner = None /\
    dict_get "meta" inner = None.
Proof.
  destruct (C6_hoisting 1 ex_tree 0
              (mk_obj Terms [("field", PStr "t"); ("aggs", PDict [("a", PRef 1)])] (Some 0)))
    as (d & inner & Hd & Hk & _ & _ & Ha & Hm & _); try reflexivity.
  exists d, inner. destruct (Ha eq_refl) as [Hai _]. auto.
Defined.

Lemma C7_witness :
  exists cls o,
    get_dsl_class (PStr "terms") = Ok cls /\
    ex_built !! 1 = Some o /\ o_class o = cls.
Proof.
  destruct C7_reserved_keys as [Hgen _].
  destruct (Hgen 1 [] ex_built 1 ex_wire "terms" [("field", PStr "tags")]
              eq_refl eq_refl eq_refl eq_refl)
    as (cls & o & Hc & _ & Ho & Hcls & _).
  exists cls, o. auto.
Defined.

Lemma C7_counterexample :
  exists h a o,
    dict_get "meta" ex_empty_meta = Some (PDict []) /\
    A 1 [] (PDict ex_empty_meta) PNone [] = Ok (h, a) /\
    h !! a = Some o /\
    dict_get "meta" (o_params o) = None.
Proof. do 3 eexists. repeat split; reflexivity. Qed.



Lemma C9_witness :
  A 1 ex_root (PDict ex_wire) PNone [("size", PInt 1)] = Err (ValueError ParamsWithDict) /\
  A 1 ex_root (PRef 0) PNone [("size", PInt 1)] = Err (ValueError ParamsWithAgg) /\
  A 1 ex_root (PRef 0) PNone [] = Ok (ex_root, 0).
Proof. apply (C9_ambiguous_input 0 ex_root ex_wire 0 [("size", PInt 1)]). discriminate. Defined.

(** C10: [self[k]] on a filter child that holds its query under [filter]
    does not return the stored copy: the call [A(agg.name, filter=None,
    **agg._params)] is given [filter] twice and raises [TypeError]. *)
Theorem C10_filter_child_raises :
  exists h self,
    bucket 2 ex_root 0 "f" (PStr "filter") [PQuery "term" [("f", PInt 1)]] []
      = (h, Ok self) /\
    child h 0 "f" = Some self /\
    result h self = Some BucketData /\
    snd (AggBase_getitem 3 h 0 "f") = Err TypeError.
Proof. do 2 eexists. repeat split; reflexivity. Qed.

Example getitem_live_handle_ex :
  AggBase_getitem 2 ex_tree 0 "a" =
    (after_getitem ex_tree 0
       (mk_obj Terms [("field", PStr "t"); ("aggs", PDict [("a", PRef 1)])] (Some 0))
       (mk_obj Terms [("field", PStr "f")] (Some 1)) "a", Ok 2) /\
  child (after_getitem ex_tree 0
       (mk_obj Terms [("field", PStr "t"); ("aggs", PDict [("a", PRef 1)])] (Some 0))
       (mk_obj Terms [("field", PStr "f")] (Some 1)) "a") 0 "a" = Some 2.
Proof.
  destruct (getitem_live_handle 0 ex_tree 0 1
              (mk_obj Terms [("field", PStr "t"); ("aggs", PDict [("a", PRef 1)])] (Some 0))
              (mk_obj Terms [("field", PStr "f")] (Some 1)) "a"
              eq_refl eq_refl eq_refl eq_refl eq_refl eq_refl eq_refl eq_refl)
    as (H & _ & Hc & _).
  split; [exact H | exact Hc].
Qed.

(** * Further properties of aggs.py *)

(** ** The classes *)

(** X1: no two aggregation classes share a [name], so the class found under
    the name of a class is that class. *)
Theorem registry_names_unique :
  List.NoDup (map cls_name classes) /\
  forall c, In c classes -> get_dsl_class (PStr (cls_name c)) = Ok c.
Proof.
  split.
  - apply uniq_NoDup. vm_compute. reflexivity.
  - intros c Hin. apply registered_get. unfold registered.
    apply bool_decide_eq_true. now apply list_elem_of_In.
Qed.

(** X2: the response data of a metric or of a pipeline aggregation is wrapped
    in the generic [AggResponse], but for [top_hits], which builds a
    [TopHitsData]. *)
Theorem result_view_of_leaves (h : heap) (self : nat) (o : obj) :
  h !! self = Some o ->
  In (o_class o) classes ->
  is_bucket (o_class o) = false ->
  result h self =
    Some (if String.eqb (cls_name (o_class o)) "top_hits"
          then TopHitsData else AggResponse).
Proof.
  intros Ho Hin Hb. unfold result. rewrite Ho. f_equal.
  destruct (o_class o) as [n c r]. simpl in Hin.
  repeat (destruct Hin as [[= <- <- <-]|Hin]; [try discriminate Hb; reflexivity|]).
  contradiction.
Qed.

Lemma result_view_of_leaves_witness :
  result ex_built 0 = Some AggResponse.
Proof.
  apply (result_view_of_leaves ex_built 0 (mk_obj Max [("field", PStr "y")] None)).
  - reflexivity.
  - simpl. repeat (first [left; reflexivity | right]).
  - reflexivity.
Defined.

(** ** The factory *)

(** X3: the factory only allocates.  Every node of the store is found again,
    unchanged, at its address; the node returned is the one passed in when a
    node was passed in, with the store as it was, and in every other case the
    node allocated last. *)
Theorem A_only_allocates (fuel : nat) (h h' : heap) (v filter : pyval)
    (p : dict) (a : nat) :
  A fuel h v filter p = Ok (h', a) ->
  h `prefix_of` h' /\
  match v with
  | PRef b => h' = h /\ a = b
  | _ => length h <= a /\ length h' = S a
  end.
Proof.
  intros H. split; [eapply A_prefix; exact H|].
  destruct fuel as [|n]; [discriminate|].
  rewrite A_unfold in H. cbv zeta in H. bind_inv H as ps Hps.
  assert (Hnew : forall cls e ps, new (fun h v => A n h v PNone []) cls e h ps = Ok (h', a) ->
                 length h <= a /\ length h' = S a).
  { intros cls e ps0 Hn.
    apply new_inv in Hn as (h1 & sp & _ & -> & -> & Hpre);
      [|intros; eapply A_prefix; eassumption].
    split; [now apply prefix_length|]. rewrite length_app. simpl. lia. }
  destruct v; try (bind_inv H as cls Hcls; eapply Hnew; eassumption).
  - destruct ps; [|discriminate].
    destruct (negb (no_refs (PDict d))); [discriminate|].
    destruct (dict_pop "aggs" PNone d) as [aggs agg].
    destruct (dict_pop "meta" PNone agg) as [meta agg'].
    destruct agg' as [|[agg_type params] [|]]; try discriminate.
    bind_inv H as p1 Hp1. bind_inv H as p2 Hp2. bind_inv H as cls Hcls.
    destruct p2; try discriminate. eapply Hnew; eassumption.
  - destruct ps; [|discriminate]. injection H as <- <-. auto.
Qed.

Lemma A_only_allocates_witness :
  [] `prefix_of` ex_root /\ (length (@nil obj) <= 0 /\ length ex_root = 1).
Proof.
  apply (A_only_allocates 1 [] ex_root (PStr "terms") PNone
           [("field", PStr "t")] 0).
  reflexivity.
Defined.

(** X4: the argument [filter] of a call of the factory, given by position
    or by keyword, is the same call; it is refused for everything but the
    name ["filter"], before anything else about the call is looked at (the
    name may be unknown, a mapping or a node, and there may be other
    parameters). *)
Theorem A_filter_argument (n : nat) (h : heap) (v filter : pyval) (p : dict) :
  filter <> PNone ->
  dict_has "name_or_agg" p = false ->
  dict_has "filter" p = false ->
  call_A (S n) h v [filter] p = call_A (S n) h v [] (dict_set "filter" filter p) /\
  (is_filter_name v = false ->
   call_A (S n) h v [filter] p = Err (ValueError FilterPositional)).
Proof.
  intros Hf Hn Hp.
  assert (Hnf : ~ In "filter" (keys p)) by now apply dict_has_false.
  assert (Hn' : dict_has "name_or_agg" (dict_set "filter" filter p) = false).
  { unfold dict_has in *. now rewrite dict_get_set_ne by discriminate. }
  split.
  - unfold call_A. rewrite Hn, Hp, Hn'. unfold dict_pop.
    rewrite dict_get_set_eq. rewrite (dict_set_fresh _ _ _ Hnf).
    f_equal. unfold dict_del. rewrite List.filter_app. simpl.
    rewrite app_nil_r. symmetry. now apply dict_del_absent.
  - intros Hv. unfold call_A. rewrite Hn, Hp. rewrite A_unfold, Hv.
    destruct filter; try contradiction; reflexivity.
Qed.

Lemma A_filter_argument_witness :
  call_A 1 [] (PStr "terms") [PStr "match_all"] [("field", PStr "f")] =
    call_A 1 [] (PStr "terms") [] [("field", PStr "f"); ("filter", PStr "match_all")] /\
  call_A 1 [] (PStr "terms") [PStr "match_all"] [("field", PStr "f")] =
    Err (ValueError FilterPositional).
Proof.
  destruct (A_filter_argument 0 [] (PStr "terms") (PStr "match_all")
              [("field", PStr "f")]) as [H1 H2]; [discriminate|reflexivity|reflexivity|].
  split; [exact H1 | apply H2; reflexivity].
Defined.

(** ** Children: storing, reading, iterating *)

Lemma aggs_ok_cases (o : obj) :
  aggs_ok o ->
  (dict_get "aggs" (o_params o) = None /\ aggs_of o = []) \/
  dict_get "aggs" (o_params o) = Some (PDict (aggs_of o)).
Proof.
  unfold aggs_ok, aggs_of.
  destruct (dict_get "aggs" (o_params o)) as [[]|]; try contradiction; auto.
Qed.

Lemma store_child_aggs (o : obj) (name : string) (a : nat) :
  dict_get "aggs" (o_params (store_child o name a)) =
    Some (PDict (dict_set name (PRef a) (aggs_of o))).
Proof. unfold store_child. simpl. apply dict_get_set_eq. Qed.

Lemma setdefault_aggs_present (o : obj) (v : pyval) :
  dict_get "aggs" (o_params o) = Some v -> setdefault_aggs o = o.
Proof. intros H. unfold setdefault_aggs, dict_has. now rewrite H. Qed.

Lemma dict_has_set_ne (k k0 : string) (v : pyval) (d : dict) :
  k <> k0 -> dict_has k0 (dict_set k v d) = dict_has k0 d.
Proof. intros H. unfold dict_has. now rewrite dict_get_set_ne. Qed.

Lemma contains_bucket (h : heap) (self : nat) (o : obj) (k : string) :
  h !! self = Some o -> is_bucket (o_class o) = true -> aggs_ok o ->
  contains h self k = Ok (dict_has k (aggs_of o)).
Proof.
  intros Ho Hb Hok. unfold contains, AggBase_contains. rewrite Ho, Hb.
  destruct (aggs_ok_cases o Hok) as [[-> ->]| ->]; reflexivity.
Qed.

Lemma aggs_ok_store_child (o : obj) (name : string) (a : nat) :
  aggs_ok (store_child o name a).
Proof. unfold aggs_ok. now rewrite store_child_aggs. Qed.

(** X5: a metric or pipeline stored under a name is found under it: the
    container contains the name, and reading it returns the stored node
    itself and leaves the store as it is.  The metric or pipeline itself
    contains no name. *)
Theorem setitem_then_read (n m : nat) (h : heap) (self a : nat) (o ao : obj)
    (name : string) :
  h !! self = Some o ->
  is_bucket (o_class o) = true ->
  aggs_ok o ->
  h !! a = Some ao ->
  is_bucket (o_class ao) = false ->
  let h1 := <[self := store_child o name a]> h in
  AggBase_setitem (S n) h self name (PRef a) = (h1, Ok tt) /\
  contains h1 self name = Ok true /\
  AggBase_getitem m h1 self name = (h1, Ok a) /\
  (forall k, contains h1 a k = Ok false).
Proof.
  intros Ho Hb Hok Ha Hab h1.
  pose proof (lookup_lt_Some _ _ _ Ho) as Hlt.
  assert (Hs : h1 !! self = Some (store_child o name a))
    by (apply list_lookup_insert_eq; exact Hlt).
  assert (Hne : a <> self).
  { intros ->. rewrite Ho in Ha. injection Ha as <-. congruence. }
  assert (Ha1 : h1 !! a = Some ao).
  { unfold h1. rewrite list_lookup_insert_ne by congruence. exact Ha. }
  split; [now apply setitem_ref|]. split; [|split].
  - rewrite (contains_bucket _ _ _ _ Hs Hb (aggs_ok_store_child _ _ _)).
    unfold aggs_of. rewrite store_child_aggs. unfold dict_has.
    now rewrite dict_get_set_eq.
  - unfold AggBase_getitem. rewrite Hs.
    change (o_class (store_child o name a)) with (o_class o). rewrite Hb.
    cbn [negb]. rewrite (setdefault_aggs_present _ _ (store_child_aggs o name a)).
    rewrite list_insert_id by exact Hs. rewrite store_child_aggs.
    rewrite dict_get_set_eq. rewrite Ha1, Hab. reflexivity.
  - intros k. unfold contains. rewrite Ha1, Hab. reflexivity.
Qed.

Lemma setitem_then_read_witness :
  exists h1,
    AggBase_setitem 1 ex_built 1 "m" (PRef 0) = (h1, Ok tt) /\
    contains h1 1 "m" = Ok true /\
    AggBase_getitem 0 h1 1 "m" = (h1, Ok 0) /\
    contains h1 0 "m" = Ok false.
Proof.
  destruct (setitem_then_read 0 0 ex_built 1 0
              (mk_obj Terms [("field", PStr "tags"); ("aggs", PDict [("x", PRef 0)])] (Some 1))
              (mk_obj Max [("field", PStr "y")] None) "m"
              eq_refl eq_refl I eq_refl eq_refl) as (H1 & H2 & H3 & H4).
  eexists. split; [exact H1|]. split; [exact H2|]. split; [exact H3 | apply H4].
Defined.

(** X8: storing a child changes the container and nothing else: the store
    keeps its size, every other node is as it was, the container keeps its
    class, its [_base], its other parameters and its other children. *)
Theorem setitem_keeps_others (n : nat) (h : heap) (self a : nat) (o : obj)
    (name : string) :
  h !! self = Some o ->
  is_bucket (o_class o) = true ->
  aggs_ok o ->
  let h1 := <[self := store_child o name a]> h in
  AggBase_setitem (S n) h self name (PRef a) = (h1, Ok tt) /\
  length h1 = length h /\
  (forall x, x <> self -> h1 !! x = h !! x) /\
  (forall k, k <> name ->
     child h1 self k = child h self k /\
     contains h1 self k = contains h self k) /\
  (exists o1, h1 !! self = Some o1 /\
     o_class o1 = o_class o /\ o_base o1 = o_base o /\
     forall p, p <> "aggs" -> dict_get p (o_params o1) = dict_get p (o_params o)).
Proof.
  intros Ho Hb Hok h1.
  pose proof (lookup_lt_Some _ _ _ Ho) as Hlt.
  assert (Hs : h1 !! self = Some (store_child o name a))
    by (apply list_lookup_insert_eq; exact Hlt).
  split; [now apply setitem_ref|]. split; [apply length_insert|].
  split; [intros x Hx; apply list_lookup_insert_ne; congruence|]. split.
  - intros k Hk. split.
    + unfold child. rewrite Hs, Ho. rewrite aggs_of_store_child.
      now rewrite dict_get_set_ne by congruence.
    + rewrite (contains_bucket _ _ _ _ Hs Hb (aggs_ok_store_child _ _ _)).
      rewrite (contains_bucket _ _ _ _ Ho Hb Hok).
      rewrite aggs_of_store_child. now rewrite dict_has_set_ne by congruence.
  - exists (store_child o name a). split; [exact Hs|].
    split; [reflexivity|]. split; [reflexivity|].
    intros p Hp. unfold store_child. simpl.
    now rewrite dict_get_set_ne by congruence.
Qed.

Lemma setitem_keeps_others_witness :
  exists h1,
    AggBase_setitem 1 ex_tree 0 "b" (PRef 1) = (h1, Ok tt) /\
    length h1 = length ex_tree /\
    h1 !! 1 = ex_tree !! 1 /\
    child h1 0 "a" = child ex_tree 0 "a".
Proof.
  destruct (setitem_keeps_others 0 ex_tree 0 1
              (mk_obj Terms [("field", PStr "t"); ("aggs", PDict [("a", PRef 1)])] (Some 0))
              "b" eq_refl eq_refl I) as (H1 & H2 & H3 & H4 & _).
  eexists. split; [exact H1|]. split; [exact H2|]. split.
  - apply H3. discriminate.
  - apply H4. discriminate.
Defined.

(** X9: iterating a bucket gives the names of its children in the order in
    which they were first stored: storing under a new name adds the name at
    the end, storing under a name that is there keeps the order. *)
Theorem iter_insertion_order (n : nat) (h : heap) (self a : nat) (o : obj)
    (name : string) :
  h !! self = Some o ->
  is_bucket (o_class o) = true ->
  aggs_ok o ->
  let h0 := <[self := setdefault_aggs o]> h in
  let h1 := <[self := store_child o name a]> h in
  AggBase_iter h self = (h0, Ok (keys (aggs_of o))) /\
  AggBase_setitem (S n) h self name (PRef a) = (h1, Ok tt) /\
  AggBase_iter h1 self =
    (h1, Ok (if dict_has name (aggs_of o) then keys (aggs_of o)
             else keys (aggs_of o) ++ [name])).
Proof.
  intros Ho Hb Hok h0 h1.
  pose proof (lookup_lt_Some _ _ _ Ho) as Hlt.
  assert (Hs : h1 !! self = Some (store_child o name a))
    by (apply list_lookup_insert_eq; exact Hlt).
  split; [|split; [now apply setitem_ref|]].
  - unfold AggBase_iter. rewrite Ho, Hb. cbn [negb]. fold h0.
    destruct (aggs_ok_cases o Hok) as [[Hn Hnil]|Hd].
    + unfold setdefault_aggs, dict_has. rewrite Hn. simpl.
      rewrite dict_get_set_eq, Hnil. reflexivity.
    + rewrite (setdefault_aggs_present _ _ Hd), Hd. reflexivity.
  - unfold AggBase_iter. rewrite Hs.
    change (o_class (store_child o name a)) with (o_class o). rewrite Hb.
    cbn [negb]. rewrite (setdefault_aggs_present _ _ (store_child_aggs o name a)).
    rewrite list_insert_id by exact Hs. rewrite store_child_aggs.
    now rewrite keys_dict_set.
Qed.

Lemma iter_insertion_order_witness :
  exists h1,
    AggBase_setitem 1 ex_tree 0 "b" (PRef 1) = (h1, Ok tt) /\
    AggBase_iter h1 0 = (h1, Ok ["a"; "b"]).
Proof.
  destruct (iter_insertion_order 0 ex_tree 0 1
              (mk_obj Terms [("field", PStr "t"); ("aggs", PDict [("a", PRef 1)])] (Some 0))
              "b" eq_refl eq_refl I) as (_ & H1 & H2).
  eexists. split; [exact H1 | exact H2].
Defined.

(** ** Reading does not change what is serialized *)

Lemma serialize_params_app td cls ps qs : forall d,
  serialize_params td cls d (ps ++ qs) =
    (let* d1 := serialize_params td cls d ps in serialize_params td cls d1 qs).
Proof.
  induction ps as [|[k v] ps IH]; simpl; intros d; [reflexivity|].
  destruct (serialize_param td cls k v) as [[w|]|e]; simpl; auto.
Qed.

(** An empty [aggs] at the end of the parameters of a bucket is skipped. *)
Lemma serialize_params_empty_aggs td cls ps d :
  is_bucket cls = true ->
  serialize_params td cls d (ps ++ [("aggs", PDict [])]) =
    serialize_params td cls d ps.
Proof.
  intros Hb. rewrite serialize_params_app.
  destruct (serialize_params td cls d ps) as [d1|e]; [|reflexivity].
  simpl. unfold serialize_param. rewrite assoc_aggs, Hb. reflexivity.
Qed.

(** The serializers look at the class and at the parameters of a node. *)
Lemma to_dict_method_params td (o o' : obj) :
  o_class o' = o_class o ->
  serialize_params td (o_class o) [] (o_params o')
    = serialize_params td (o_class o) [] (o_params o) ->
  to_dict_method td o' = to_dict_method td o.
Proof.
  intros Hc Hp.
  unfold to_dict_method, Filter_to_dict, Bucket_to_dict, Agg_to_dict, DslBase_to_dict.
  rewrite Hc, Hp. reflexivity.
Qed.

Lemma setdefault_aggs_to_dict td (o : obj) :
  is_bucket (o_class o) = true ->
  to_dict_method td (setdefault_aggs o) = to_dict_method td o.
Proof.
  intros Hb. unfold setdefault_aggs.
  destruct (dict_has "aggs" (o_params o)) eqn:E; [reflexivity|].
  apply to_dict_method_params; [reflexivity|]. simpl.
  rewrite dict_set_fresh by (now apply dict_has_false).
  now apply serialize_params_empty_aggs.
Qed.

Lemma to_dict_setdefault (h : heap) (self : nat) (o : obj) :
  h !! self = Some o -> is_bucket (o_class o) = true ->
  forall m x w,
    to_dict m (<[self := setdefault_aggs o]> h) x = Ok w <-> to_dict m h x = Ok w.
Proof.
  intros Ho Hb. pose proof (lookup_lt_Some _ _ _ Ho) as Hlt.
  induction m as [|m IH]; intros x w; [simpl; split; discriminate|].
  simpl. destruct (decide (x = self)) as [->|Hne].
  - rewrite list_lookup_insert_eq by exact Hlt. rewrite Ho.
    rewrite setdefault_aggs_to_dict by exact Hb.
    split; intros H; bind_inv H as d Hd; injection H as <-.
    + erewrite to_dict_method_mono; [reflexivity| |exact Hd].
      intros a0 d0. apply IH.
    + erewrite to_dict_method_mono; [reflexivity| |exact Hd].
      intros a0 d0. apply IH.
  - rewrite list_lookup_insert_ne by congruence.
    destruct (h !! x) as [ox|]; [|tauto].
    split; intros H; bind_inv H as d Hd; injection H as <-.
    + erewrite to_dict_method_mono; [reflexivity| |exact Hd].
      intros a0 d0. apply IH.
    + erewrite to_dict_method_mono; [reflexivity| |exact Hd].
      intros a0 d0. apply IH.
Qed.

(** X6: looking up a name that is not there.  The container does not contain
    the name, and reading it raises [KeyError]; the read leaves an empty
    [aggs] dict in a container that had none, which changes neither the
    names the container contains nor the serialization of any node. *)
Theorem getitem_missing (fuel : nat) (h : heap) (self : nat) (o : obj)
    (name : string) :
  h !! self = Some o ->
  is_bucket (o_class o) = true ->
  aggs_ok o ->
  dict_get name (aggs_of o) = None ->
  let h1 := <[self := setdefault_aggs o]> h in
  contains h self name = Ok false /\
  AggBase_getitem fuel h self name = (h1, Err (KeyError name)) /\
  (forall k, contains h1 self k = contains h self k) /\
  (forall m x w, to_dict m h1 x = Ok w <-> to_dict m h x = Ok w).
Proof.
  intros Ho Hb Hok Hk h1.
  pose proof (lookup_lt_Some _ _ _ Ho) as Hlt.
  assert (Hs : h1 !! self = Some (setdefault_aggs o))
    by (apply list_lookup_insert_eq; exact Hlt).
  assert (Hsd : dict_get "aggs" (o_params (setdefault_aggs o)) = Some (PDict (aggs_of o))).
  { destruct (aggs_ok_cases o Hok) as [[Hn Hnil]|Hd].
    - unfold setdefault_aggs, dict_has. rewrite Hn. simpl.
      now rewrite dict_get_set_eq, Hnil.
    - now rewrite (setdefault_aggs_present _ _ Hd). }
  split; [|split; [|split]].
  - rewrite (contains_bucket _ _ _ _ Ho Hb Hok). unfold dict_has. now rewrite Hk.
  - unfold AggBase_getitem. rewrite Ho, Hb. cbn [negb]. fold h1.
    rewrite Hsd, Hk. reflexivity.
  - intros k. rewrite (contains_bucket _ _ _ _ Ho Hb Hok).
    unfold contains, AggBase_contains. rewrite Hs.
    assert (Hc : o_class (setdefault_aggs o) = o_class o).
    { unfold setdefault_aggs. now destruct (dict_has _ _). }
    rewrite Hc, Hb, Hsd. reflexivity.
  - now apply to_dict_setdefault.
Qed.

Lemma getitem_missing_witness :
  contains ex_root 0 "x" = Ok false /\
  AggBase_getitem 0 ex_root 0 "x" =
    (<[0 := setdefault_aggs (mk_obj Terms [("field", PStr "t")] (Some 0))]> ex_root,
     Err (KeyError "x")) /\
  to_dict 1 (<[0 := setdefault_aggs (mk_obj Terms [("field", PStr "t")] (Some 0))]> ex_root) 0
    = Ok (PDict [("terms", PDict [("field", PStr "t")])]).
Proof.
  destruct (getitem_missing 0 ex_root 0 (mk_obj Terms [("field", PStr "t")] (Some 0)) "x"
              eq_refl eq_refl I eq_refl) as (H1 & H2 & _ & H4).
  split; [exact H1|]. split; [exact H2|]. apply H4. reflexivity.
Defined.

(** *** A bucket child is copied *)

Section Replace.
Variables td td' : nat -> res pyval.
Variables c r : nat.
Hypothesis Hmono : forall a d, td a = Ok d -> td' a = Ok d.
Hypothesis Hcopy : forall d, td c = Ok d -> td' r = Ok d.

Lemma mapM_children_replace (k : string) : forall (ags : dict) (ws : dict),
dict_get k ags = Some (PRef c) ->
mapM (fun kv => let* w := value_to_dict td (snd kv) in Ok (fst kv, w)) ags = Ok ws ->
mapM (fun kv => let* w := value_to_dict td' (snd kv) in Ok (fst kv, w))
     (dict_set k (PRef r) ags) = Ok ws.
Proof.
induction ags as [|[k0 v0] ags IH]; intros ws Hk H; [discriminate|].
simpl in Hk. simpl dict_set. destruct (String.eqb k0 k) eqn:E.
- injection Hk as ->. apply String.eqb_eq in E as ->.
  simpl in H |- *. bind_inv H as y Hy. bind_inv H as ys Hys. injection H as <-.
  bind_inv Hy as w Hw. injection Hy as <-.
  rewrite (Hcopy _ Hw). simpl.
  erewrite mapM_mono; [reflexivity| |exact Hys].
  intros kv y _ Hy. bind_inv Hy as w0 Hw0. injection Hy as <-.
  now rewrite (value_to_dict_mono td td' Hmono _ _ Hw0).
- simpl in H |- *. bind_inv H as y Hy. bind_inv H as ys Hys. injection H as <-.
  bind_inv Hy as w Hw. injection Hy as <-.
  rewrite (value_to_dict_mono td td' Hmono _ _ Hw). simpl.
  now rewrite (IH _ Hk Hys).
Qed.

Lemma serialize_params_replace cls (k : string) (ags : dict) :
is_bucket cls = true ->
dict_get k ags = Some (PRef c) ->
forall ps d d',
  dict_get "aggs" ps = Some (PDict ags) ->
  serialize_params td cls d ps = Ok d' ->
  serialize_params td' cls d
    (dict_set "aggs" (PDict (dict_set k (PRef r) ags)) ps) = Ok d'.
Proof.
intros Hb Hk. induction ps as [|[k0 v0] ps IH]; intros d d' Hg H; [discriminate|].
simpl in Hg. simpl dict_set. destruct (String.eqb k0 "aggs") eqn:E.
- injection Hg as ->. apply String.eqb_eq in E as ->.
  simpl in H |- *. bind_inv H as res Hres.
  assert (Hres' : serialize_param td' cls "aggs" (PDict (dict_set k (PRef r) ags)) = Ok res).
  { unfold serialize_param in Hres |- *. rewrite assoc_aggs, Hb in *.
    assert (He : is_empty_container (PDict ags) = false)
      by (destruct ags; [discriminate|reflexivity]).
    assert (He' : is_empty_container (PDict (dict_set k (PRef r) ags)) = false).
    { destruct ags as [|[k1 v1] ags1]; [discriminate|]. simpl.
      destruct (String.eqb k1 k); reflexivity. }
    rewrite He in Hres. rewrite He'.
    bind_inv Hres as w Hw. injection Hres as <-.
    unfold typed_to_dict in Hw |- *. simpl in Hw |- *.
    bind_inv Hw as ws Hws. injection Hw as <-.
    now rewrite (mapM_children_replace k ags ws Hk Hws). }
  rewrite Hres'. simpl.
  destruct res; now apply (serialize_params_mono td td' Hmono).
- simpl in H |- *. bind_inv H as res Hres.
  rewrite (serialize_param_mono td td' Hmono _ _ _ _ Hres). simpl.
  destruct res; now apply IH.
Qed.

Lemma to_dict_method_replace (o : obj) (k : string) (d : dict) :
is_bucket (o_class o) = true ->
dict_get k (aggs_of o) = Some (PRef c) ->
to_dict_method td o = Ok d ->
to_dict_method td' (store_child o k r) = Ok d.
Proof.
intros Hb Hk.
pose proof (aggs_of_inv _ _ _ Hk) as Haggs.
assert (HD : forall d, DslBase_to_dict td o = Ok d ->
                       DslBase_to_dict td' (store_child o k r) = Ok d).
{ unfold DslBase_to_dict. intros d0 H. bind_inv H as n Hn.
  change (o_class (store_child o k r)) with (o_class o).
  unfold store_child at 1. cbn [o_params set_params].
  now rewrite (serialize_params_replace _ k (aggs_of o) Hb Hk _ _ _ Haggs Hn). }
assert (HA : forall d, Agg_to_dict td o = Ok d ->
                       Agg_to_dict td' (store_child o k r) = Ok d).
{ unfold Agg_to_dict. intros d0 H. bind_inv H as n Hn. now rewrite (HD _ Hn). }
assert (HB : forall d, Bucket_to_dict td o = Ok d ->
                       Bucket_to_dict td' (store_child o k r) = Ok d).
{ unfold Bucket_to_dict. intros d0 H. bind_inv H as n Hn. now rewrite (HA _ Hn). }
assert (HF : forall d, Filter_to_dict td o = Ok d ->
                       Filter_to_dict td' (store_child o k r) = Ok d).
{ unfold Filter_to_dict. intros d0 H. bind_inv H as n Hn. now rewrite (HB _ Hn). }
unfold to_dict_method.
change (o_class (store_child o k r)) with (o_class o).
destruct (String.eqb _ _); [apply HF|]. destruct (is_bucket _); auto.
Qed.
End Replace.

Lemma to_dict_after_getitem (h : heap) (self c : nat) (o co : obj) (k : string) :
  h !! self = Some o ->
  is_bucket (o_class o) = true ->
  dict_get k (aggs_of o) = Some (PRef c) ->
  h !! c = Some co ->
  forall m,
    (forall x w, to_dict m h x = Ok w ->
                 to_dict m (after_getitem h self o co k) x = Ok w) /\
    (forall w, to_dict m h c = Ok w ->
               to_dict m (after_getitem h self o co k) (length h) = Ok w).
Proof.
  intros Ho Hb Hk Hc.
  destruct (after_getitem_lookup h self o co k Ho) as (Hs' & Hr' & Hlen').
  pose proof (lookup_lt_Some _ _ _ Ho) as Hlt.
  induction m as [|m [IH1 IH2]]; [split; intros; discriminate|].
  split.
  - intros x w H. simpl in H |- *.
    destruct (h !! x) as [ox|] eqn:Hx; [|discriminate].
    bind_inv H as d Hd. injection H as <-.
    destruct (decide (x = self)) as [->|Hne].
    + rewrite Hs'. rewrite Ho in Hx. injection Hx as <-.
      now rewrite (to_dict_method_replace _ _ c (length h) IH1 IH2 o k d Hb Hk Hd).
    + assert (Hx' : after_getitem h self o co k !! x = Some ox).
      { unfold after_getitem. rewrite list_lookup_insert_ne by congruence.
        rewrite lookup_app_l by (eapply lookup_lt_Some; eassumption). exact Hx. }
      rewrite Hx'.
      now rewrite (to_dict_method_mono _ _ IH1 _ _ Hd).
  - intros w H. simpl in H |- *. rewrite Hc in H. rewrite Hr'.
    bind_inv H as d Hd. injection H as <-.
    assert (Hsame : forall td, to_dict_method td (mk_obj (o_class co) (o_params co) (Some (length h)))
                               = to_dict_method td co).
    { intros td. now apply to_dict_method_params. }
    rewrite Hsame. now rewrite (to_dict_method_mono _ _ IH1 _ _ Hd).
Qed.



(** ** Building by name, then serializing *)

Lemma dict_update_fresh : forall (P sp0 : dict),
  List.NoDup (keys (sp0 ++ P)) -> dict_update sp0 P = sp0 ++ P.
Proof.
  unfold dict_update.
  induction P as [|[k v] P IH]; intros sp0 Hnd; simpl.
  - now rewrite app_nil_r.
  - assert (Hk : ~ In k (keys sp0)).
    { unfold keys in *. rewrite map_app in Hnd. simpl in Hnd.
      apply List.NoDup_remove_2 in Hnd. intros Hin. apply Hnd.
      apply in_or_app. now left. }
    rewrite (dict_set_fresh _ _ _ Hk). rewrite IH.
    + now rewrite <- app_assoc.
    + now rewrite <- app_assoc.
Qed.

Lemma DslBase_init_plain A_ cls P : forall h sp0,
  (forall k, In k (keys P) -> assoc k (param_defs cls) = None) ->
  DslBase_init A_ cls h sp0 P = Ok (h, dict_update sp0 P).
Proof.
  induction P as [|[k v] P IH]; simpl; intros h sp0 Hun; [reflexivity|].
  unfold DslBase_setattr. rewrite (Hun k) by now left. simpl.
  rewrite IH by (intros k0 Hk0; apply Hun; now right). reflexivity.
Qed.

Lemma serialized_entries_plain td cls : forall (P : dict),
  (forall k, In k (keys P) -> assoc k (param_defs cls) = None) ->
  forallb (fun kv => plain (snd kv)) P = true ->
  serialized_entries td cls P = Ok P.
Proof.
  induction P as [|[k v] P IH]; simpl; intros Hun Hpl; [reflexivity|].
  apply andb_true_iff in Hpl as [Hv Hpl].
  unfold serialize_param. rewrite (Hun k) by now left.
  unfold plain in Hv. apply negb_true_iff in Hv. rewrite Hv. simpl.
  rewrite IH; [reflexivity| |exact Hpl].
  intros k0 Hk0. apply Hun. now right.
Qed.



(** ** Assignment goes through the factory *)

(** X14: [self[name] = agg] stores what the factory makes of [agg].  When the
    factory raises, the assignment raises the same and the store is as it
    was; when it returns a node -- built from a name or from a mapping, or
    the node that was assigned -- that node is the child under the name, the
    container contains the name, and the nodes that existed before are
    where they were, the container apart. *)
Theorem setitem_through_factory (n : nat) (h : heap) (self : nat) (o : obj)
    (name : string) (agg : pyval) :
  h !! self = Some o ->
  is_bucket (o_class o) = true ->
  aggs_ok o ->
  match A (S n) h agg PNone [] with
  | Err e => AggBase_setitem (S n) h self name agg = (h, Err e)
  | Ok (h1, a) =>
      let h2 := <[self := store_child o name a]> h1 in
      AggBase_setitem (S n) h self name agg = (h2, Ok tt) /\
      child h2 self name = Some a /\
      contains h2 self name = Ok true /\
      forall x ox, x <> self -> h !! x = Some ox -> h2 !! x = Some ox
  end.
Proof.
  intros Ho Hb Hok. unfold AggBase_setitem.
  destruct (A (S n) h agg PNone []) as [[h1 a]|e] eqn:EA; [|reflexivity].
  pose proof (A_prefix _ _ _ _ _ _ _ EA) as Hpre.
  pose proof (prefix_lookup_Some _ _ _ _ Ho Hpre) as Ho1.
  pose proof (lookup_lt_Some _ _ _ Ho1) as Hlt1.
  cbv zeta. rewrite Ho1, Hb. cbn [negb].
  assert (Hs : <[self := store_child o name a]> h1 !! self = Some (store_child o name a))
    by (apply list_lookup_insert_eq; exact Hlt1).
  split; [|split; [|split]].
  - destruct (aggs_ok_cases o Hok) as [[-> _]| ->]; reflexivity.
  - now apply child_store_child.
  - rewrite (contains_bucket _ _ _ _ Hs Hb (aggs_ok_store_child _ _ _)).
    rewrite aggs_of_store_child. unfold dict_has. now rewrite dict_get_set_eq.
  - intros x ox Hx Hox. rewrite list_lookup_insert_ne by congruence.
    eapply prefix_lookup_Some; eassumption.
Qed.

Lemma setitem_through_factory_witness :
  exists h2,
    AggBase_setitem 1 ex_root 0 "m" (PDict [("max", PDict [("field", PStr "y")])])
      = (h2, Ok tt) /\
    child h2 0 "m" = Some 1 /\
    contains h2 0 "m" = Ok true.
Proof.
  pose proof (setitem_through_factory 0 ex_root 0
                (mk_obj Terms [("field", PStr "t")] (Some 0)) "m"
                (PDict [("max", PDict [("field", PStr "y")])])
                eq_refl eq_refl I) as H.
  simpl in H. destruct H as (H1 & H2 & H3 & _).
  eexists. split; [exact H1|]. split; [exact H2 | exact H3].
Defined.

(** ** The copy made by a read is shallow *)



(** ** A stored child shows in the serialization *)

Lemma keys_children_to_dict (td : nat -> res pyval) : forall cs ws,
  children_to_dict td cs = Ok ws -> keys ws = keys cs.
Proof.
  unfold children_to_dict.
  induction cs as [|[k0 v0] cs IH]; simpl; intros ws H.
  - now injection H as <-.
  - bind_inv H as y Hy. bind_inv H as ys Hys. injection H as <-.
    bind_inv Hy as w0 Hw0. injection Hy as <-. simpl. f_equal. now apply IH.
Qed.

Lemma dict_set_nonempty (k : string) (v : pyval) (d : dict) : dict_set k v d <> [].
Proof. destruct d as [|[k0 v0] d]; simpl; [|destruct (String.eqb k0 k)]; discriminate. Qed.

(** X16: after [self[name] = node], when the tree below the container is
    well formed, the serialization of the container has, beside the kind tag,
    the key [aggs]; the names under it are the names of the children in the
    order of iteration, and under [name] is the serialization of the node
    that was stored. *)
Theorem setitem_shows_in_to_dict (n m : nat) (h : heap) (self a : nat) (o : obj)
    (name : string) :
  h !! self = Some o ->
  is_bucket (o_class o) = true ->
  aggs_ok o ->
  let h1 := <[self := store_child o name a]> h in
  wf_tree (S (S m)) h1 self = true ->
  exists d ws w,
    AggBase_setitem (S n) h self name (PRef a) = (h1, Ok tt) /\
    to_dict (S (S m)) h1 self = Ok (PDict d) /\
    dict_get "aggs" d = Some (PDict ws) /\
    keys ws = (if dict_has name (aggs_of o) then keys (aggs_of o)
               else keys (aggs_of o) ++ [name]) /\
    to_dict (S m) h1 a = Ok w /\
    dict_get name ws = Some w.
Proof.
  intros Ho Hb Hok h1 Hwf.
  pose proof (lookup_lt_Some _ _ _ Ho) as Hlt.
  assert (Hs : h1 !! self = Some (store_child o name a))
    by (apply list_lookup_insert_eq; exact Hlt).
  destruct (bucket_wire _ _ _ _ Hs Hwf Hb) as (d & Hd & Hag).
  rewrite aggs_of_store_child in Hag.
  destruct (dict_set name (PRef a) (aggs_of o)) as [|kv cs] eqn:E;
    [now apply dict_set_nonempty in E|].
  destruct Hag as (ws & Hws & Hg). rewrite <- E in Hws.
  destruct (children_to_dict_get _ _ _ name (PRef a) Hws (dict_get_set_eq _ _ _))
    as (w & Hw & Hgw).
  exists d, ws, w. split; [now apply setitem_ref|]. split; [exact Hd|].
  split; [exact Hg|]. split; [|split; [exact Hw | exact Hgw]].
  rewrite (keys_children_to_dict _ _ _ Hws). apply keys_dict_set.
Qed.

Lemma setitem_shows_in_to_dict_witness :
  exists d ws,
    AggBase_setitem 1 ex_built 1 "m" (PRef 0) =
      (<[1 := store_child (mk_obj Terms [("field", PStr "tags"); ("aggs", PDict [("x", PRef 0)])] (Some 1)) "m" 0]> ex_built, Ok tt) /\
    to_dict 2 (<[1 := store_child (mk_obj Terms [("field", PStr "tags"); ("aggs", PDict [("x", PRef 0)])] (Some 1)) "m" 0]> ex_built) 1 = Ok (PDict d) /\
    dict_get "aggs" d = Some (PDict ws) /\
    keys ws = ["x"; "m"].
Proof.
  destruct (setitem_shows_in_to_dict 0 0 ex_built 1 0
              (mk_obj Terms [("field", PStr "tags"); ("aggs", PDict [("x", PRef 0)])] (Some 1))
              "m" eq_refl eq_refl I eq_refl)
    as (d & ws & w & H1 & H2 & H3 & H4 & _).
  exists d, ws. split; [exact H1|]. split; [exact H2|]. split; [exact H3 | exact H4].
Defined.

(** ** Nested aggregations of a metric *)

Lemma param_defs_leaf (cls : dsl_class) :
  is_bucket cls = false -> param_defs cls = [].
Proof. unfold is_bucket, param_defs. destruct (cat cls); [discriminate| |]; reflexivity. Qed.



(** * Properties of types.py *)

(** ** Keyword dicts *)

Lemma kw_set_fresh (k : string) (v : tval) (d : tdict) :
  ~ In k (map fst d) -> kw_set k v d = d ++ [(k, v)].
Proof.
  induction d as [|[k' v'] d IH]; simpl; intros H; [reflexivity|].
  destruct (String.eqb k' k) eqn:E.
  - apply String.eqb_eq in E. tauto.
  - rewrite IH by tauto. reflexivity.
Qed.

Lemma kw_get_app (k : string) (d e : tdict) :
  kw_get k (d ++ e) = match kw_get k d with Some v => Some v | None => kw_get k e end.
Proof.
  induction d as [|[k' v'] d IH]; simpl; [reflexivity|].
  destruct (String.eqb k' k); [reflexivity|exact IH].
Qed.

Lemma kw_get_absent (k : string) (d : tdict) :
  ~ In k (map fst d) -> kw_get k d = None.
Proof.
  induction d as [|[k' v'] d IH]; simpl; intros H; [reflexivity|].
  destruct (String.eqb k' k) eqn:E.
  - apply String.eqb_eq in E. tauto.
  - apply IH. tauto.
Qed.

Lemma declares_In (fields : list (string * conv)) (k : string) :
  declares fields k = true <-> In k (map fst fields).
Proof.
  unfold declares. rewrite existsb_exists. split.
  - intros (x & Hin & E). apply String.eqb_eq in E. now subst.
  - intros Hin. exists k. split; [exact Hin|apply String.eqb_refl].
Qed.

Lemma declares_app (own pf : list (string * conv)) (k : string) :
  declares (own ++ pf) k = declares own k || declares pf k.
Proof. unfold declares. now rewrite map_app, existsb_app. Qed.

Lemma rest_kwargs_keys (fields : list (string * conv)) (call : tdict) (k : string) :
  In k (map fst (rest_kwargs fields call)) -> ~ In k (map fst fields).
Proof.
  unfold rest_kwargs. rewrite in_map_iff. intros ([k' v] & <- & Hin).
  apply filter_In in Hin as [_ Hn]. simpl in *.
  apply negb_true_iff in Hn. rewrite <- declares_In. congruence.
Qed.

Lemma kw_get_rest_kwargs (fields : list (string * conv)) (call : tdict) (k : string) :
  kw_get k (rest_kwargs fields call) =
    if declares fields k then None else kw_get k call.
Proof.
  unfold rest_kwargs. induction call as [|[k' v'] call IH]; simpl.
  - now destruct (declares fields k).
  - destruct (declares fields k') eqn:Ek'; simpl.
    + rewrite IH. destruct (String.eqb k' k) eqn:E; [|reflexivity].
      apply String.eqb_eq in E as ->. now rewrite Ek'.
    + destruct (String.eqb k' k) eqn:E; [|exact IH].
      apply String.eqb_eq in E as <-. now rewrite Ek'.
Qed.

Section Types.
Variable str : pyval -> string.

Lemma supplied_keys (fs : list (string * conv)) (call : tdict) (k : string) :
In k (map fst (supplied str fs call)) -> In k (map fst fs).
Proof.
induction fs as [|[p c] fs IH]; simpl; [tauto|].
rewrite map_app, in_app_iff. intros [H|H]; [|right; now apply IH].
destruct (bound p call); simpl in H; [contradiction|]. tauto.
Qed.

Lemma supplied_app (own pf : list (string * conv)) (call : tdict) :
supplied str (own ++ pf) call = supplied str own call ++ supplied str pf call.
Proof. unfold supplied. apply flat_map_app. Qed.

Lemma kw_get_supplied (fs : list (string * conv)) (call : tdict) (p : string) (c : conv) :
List.NoDup (map fst fs) -> In (p, c) fs ->
kw_get p (supplied str fs call) =
  match bound p call with
  | DEFAULT => None
  | Val v => Some (Val (convert str c v))
  end.
Proof.
induction fs as [|[p0 c0] fs IH]; simpl; intros Hnd Hin; [contradiction|].
inversion Hnd as [|? ? Hp0 Hnd']; subst.
rewrite kw_get_app. destruct Hin as [[= -> ->]|Hin].
- destruct (bound p call); simpl.
  + apply kw_get_absent. intros H. apply supplied_keys in H. contradiction.
  + now rewrite String.eqb_refl.
- assert (Hne : p0 <> p).
  { intros ->. apply Hp0. change p with (fst (p, c)). now apply in_map. }
  rewrite (IH Hnd' Hin).
  destruct (bound p0 call); simpl; [reflexivity|].
  now rewrite (proj2 (String.eqb_neq _ _) Hne).
Qed.

Lemma fold_init_body (call : tdict) : forall (fs : list (string * conv)) (acc : tdict),
List.NoDup (map fst fs) ->
(forall p, In p (map fst fs) -> ~ In p (map fst acc)) ->
fold_left
  (fun kwargs pc =>
     match bound (fst pc) call with
     | DEFAULT => kwargs
     | Val v => kw_set (fst pc) (Val (convert str (snd pc) v)) kwargs
     end) fs acc
= acc ++ supplied str fs call.
Proof.
induction fs as [|[p c] fs IH]; simpl; intros acc Hnd Hfresh.
- now rewrite app_nil_r.
- inversion Hnd as [|? ? Hp Hnd']; subst.
  destruct (bound p call) as [|v]; simpl.
  + apply IH; [exact Hnd'|]. intros q Hq. apply Hfresh. now right.
  + rewrite kw_set_fresh by (apply Hfresh; now left).
    rewrite IH; [now rewrite <- app_assoc|exact Hnd'|].
    intros q Hq. rewrite map_app, in_app_iff. simpl.
    intros [H|[->|[]]]; [|contradiction].
    revert H. apply Hfresh. now right.
Qed.

(** The body of an [__init__], in closed form: the keywords that name no
  parameter, then the parameters that were given, in the order of the
  body. *)
Lemma init_body_closed (fields : list (string * conv)) (call : tdict) :
List.NoDup (map fst fields) ->
init_body str fields call = rest_kwargs fields call ++ supplied str fields call.
Proof.
intros Hnd. unfold init_body. apply fold_init_body; [exact Hnd|].
intros p Hp Hin. now apply rest_kwargs_keys in Hin.
Qed.

Lemma filter_id {T : Type} (f : T -> bool) (l : list T) :
(forall x, In x l -> f x = true) -> List.filter f l = l.
Proof.
induction l as [|x l IH]; simpl; intros H; [reflexivity|].
rewrite H by now left. rewrite IH; [reflexivity|]. intros; apply H; now right.
Qed.

Lemma filter_none {T : Type} (f : T -> bool) (l : list T) :
(forall x, In x l -> f x = false) -> List.filter f l = [].
Proof.
induction l as [|x l IH]; simpl; intros H; [reflexivity|].
rewrite H by now left. apply IH. intros; apply H; now right.
Qed.

Lemma In_fst {T : Type} (k : string) (v : T) (d : list (string * T)) :
In (k, v) d -> In k (map fst d).
Proof. intros H. change k with (fst (k, v)). now apply in_map. Qed.

(** The [__init__] of the base, called with the keywords that the body of a
  derived class has assembled, assembles the same dict again: its
  parameters are the last ones of the derived class, stored as they are. *)
Lemma init_body_parent (own pf : list (string * conv)) (call : tdict) :
List.NoDup (map fst (own ++ pf)) ->
Forall (fun pc => snd pc = Raw) pf ->
let K := rest_kwargs (own ++ pf) call ++ supplied str (own ++ pf) call in
init_body str pf K = K.
Proof.
intros Hnd Hraw K.
assert (Hndp : List.NoDup (map fst pf)).
{ rewrite map_app in Hnd. now apply List.NoDup_app_remove_l in Hnd. }
assert (Hdisj : forall k, In k (map fst own) -> ~ In k (map fst pf)).
{ intros k Ho Hp. rewrite map_app in Hnd.
  revert Hnd Ho Hp. generalize (map fst own) (map fst pf). clear.
  induction l as [|x l IH]; simpl; intros l0 Hnd Ho Hp; [contradiction|].
  inversion Hnd; subst. destruct Ho as [->|Ho]; [|eauto].
  match goal with H : ~ In _ _ |- _ => apply H end.
  apply in_or_app. now right. }
rewrite init_body_closed by exact Hndp.
assert (Hrest : rest_kwargs pf K =
                rest_kwargs (own ++ pf) call ++ supplied str own call).
{ unfold K. rewrite supplied_app. unfold rest_kwargs at 1.
  rewrite !List.filter_app.
  rewrite (filter_id _ (rest_kwargs (own ++ pf) call)).
  2:{ intros [k v] Hin. simpl. apply negb_true_iff.
      destruct (declares pf k) eqn:E; [|reflexivity].
      apply In_fst, rest_kwargs_keys in Hin. exfalso. apply Hin.
      rewrite map_app, in_app_iff. right. now apply declares_In. }
  rewrite (filter_id _ (supplied str own call)).
  2:{ intros [k v] Hin. simpl. apply negb_true_iff.
      destruct (declares pf k) eqn:E; [|reflexivity].
      apply In_fst, supplied_keys in Hin. apply declares_In in E.
      exfalso. eapply Hdisj; eassumption. }
  rewrite (filter_none _ (supplied str pf call)).
  2:{ intros [k v] Hin. simpl. apply negb_false_iff.
      apply declares_In. now apply In_fst, supplied_keys in Hin. }
  now rewrite app_nil_r. }
assert (Hbound : forall p c, In (p, c) pf -> bound p K = bound p call).
{ intros p c Hin. unfold bound at 1. unfold K.
  rewrite kw_get_app, kw_get_rest_kwargs.
  assert (Hd : declares (own ++ pf) p = true).
  { apply declares_In. rewrite map_app, in_app_iff. right. eapply In_fst; eassumption. }
  rewrite Hd. rewrite (kw_get_supplied (own ++ pf) call p c Hnd)
    by (apply in_or_app; now right).
  rewrite List.Forall_forall in Hraw. specialize (Hraw _ Hin). simpl in Hraw. subst c.
  now destruct (bound p call). }
assert (Hsup : supplied str pf K = supplied str pf call).
{ unfold supplied. clear Hrest. revert Hbound. generalize K. clear.
  induction pf as [|[p c] pf IH]; simpl; intros K Hb; [reflexivity|].
  rewrite (Hb p c) by now left. f_equal. apply IH.
  intros q cq Hq. apply (Hb q cq). now right. }
rewrite Hrest, Hsup. unfold K. rewrite supplied_app. now rewrite app_assoc.
Qed.

(** What is found in the dict assembled by a body. *)
Lemma closed_lookup (fields : list (string * conv)) (call : tdict) :
List.NoDup (map fst fields) ->
let d := rest_kwargs fields call ++ supplied str fields call in
(forall p c, In (p, c) fields ->
   kw_get p d = match bound p call with
                | DEFAULT => None
                | Val v => Some (Val (convert str c v))
                end) /\
(forall k, declares fields k = false -> kw_get k d = kw_get k call).
Proof.
intros Hnd d. split.
- intros p c Hin. unfold d. rewrite kw_get_app, kw_get_rest_kwargs.
  rewrite (proj2 (declares_In fields p)) by (eapply In_fst; eassumption).
  now apply kw_get_supplied.
- intros k Hk. unfold d. rewrite kw_get_app, kw_get_rest_kwargs, Hk.
  destruct (kw_get k call); [reflexivity|].
  apply kw_get_absent. intros H. apply supplied_keys, declares_In in H. congruence.
Qed.
End Types.

(** ** The constructors *)

Lemma init_body_through_base (str : pyval -> string)
    (fields own pf : list (string * conv)) (call : tdict) :
  fields = own ++ pf ->
  List.NoDup (map fst fields) ->
  Forall (fun pc => snd pc = Raw) pf ->
  init_body str pf (init_body str fields call) =
    rest_kwargs fields call ++ supplied str fields call.
Proof.
  intros -> Hnd Hraw. rewrite (init_body_closed str (own ++ pf)) by exact Hnd.
  now apply init_body_parent.
Qed.

(** The [__init__] methods that a call of the class goes through. *)
Ltac resolve_inits :=
  unfold construct;
  match goal with
  | |- context [inits_of (rev type_classes) ?n] =>
      let t := eval vm_compute in (inits_of (rev type_classes) n) in
      change (inits_of (rev type_classes) n) with t
  end;
  cbn [run_inits].

Ltac fields_nodup := apply uniq_NoDup; vm_compute; reflexivity.

Ltac through_base :=
  match goal with
  | |- Ok (Positional (init_body _ ?pf (init_body _ ?fs _))) = _ =>
      let own := eval vm_compute in (firstn (length fs - length pf) fs) in
      f_equal; f_equal;
      apply (init_body_through_base _ fs own pf);
      [reflexivity | fields_nodup | repeat constructor]
  end.

Lemma construct_flat (str : pyval -> string) (c : type_class)
    (fields : list (string * conv)) (splat : bool) (call : tdict) :
  In c type_classes ->
  t_init c = Some (fields, splat) ->
  t_base c <> "RankFeatureFunction" ->
  List.NoDup (map fst fields) /\
  construct str (t_name c) call =
    Ok (Positional (rest_kwargs fields call ++ supplied str fields call)).
Proof.
  intros Hin Hinit Hbase. unfold type_classes in Hin.
  repeat (destruct Hin as [<-|Hin];
          [cbn [t_name t_init t_base] in *;
           first [discriminate Hinit | exfalso; apply Hbase; reflexivity | idtac];
           injection Hinit as <- <-;
           (split; [fields_nodup|]);
           resolve_inits;
           first [through_base
                 | rewrite init_body_closed by fields_nodup; reflexivity]|]).
  contradiction.
Qed.





(** * Properties of utils/run-unasync.py *)

Lemma has_char_append (c : Ascii.ascii) (pre t : string) :
  has_char c (String.append pre (String c t)) = true.
Proof.
  induction pre as [|a pre IH]; simpl.
  - now rewrite Ascii.eqb_refl.
  - rewrite IH. apply orb_true_r.
Qed.

Lemma rpartition_last_append (c : Ascii.ascii) (t : string) :
  has_char c t = false ->
  forall pre, rpartition_last c (String.append pre (String c t)) = t.
Proof.
  intros Ht. induction pre as [|a pre IH]; simpl.
  - now rewrite Ht, Ascii.eqb_refl.
  - now rewrite has_char_append.
Qed.

Lemma rpartition_last_spec (c : Ascii.ascii) (s : string) :
  rpartition_last c s = s \/
  exists pre, s = String.append pre (String c (rpartition_last c s)).
Proof.
  induction s as [|a s IH]; simpl; [now left|].
  destruct (has_char c s) eqn:E.
  - right. destruct IH as [IH|[pre IH]].
    + exfalso. clear -E IH. induction s as [|b s IHs]; [discriminate|].
      simpl in *. destruct (has_char c s) eqn:E2.
      * assert (Hlen : forall t, String.length (rpartition_last c t) <= String.length t).
        { clear. induction t as [|x t IHt]; simpl; [lia|].
          destruct (has_char c t); [lia|]. destruct (Ascii.eqb x c); simpl; lia. }
        specialize (Hlen s). rewrite IH in Hlen. simpl in Hlen. lia.
      * rewrite orb_false_r in E. rewrite E in IH.
        apply (f_equal String.length) in IH. simpl in IH. lia.
    + exists (String a pre). change (String a s = String a (String.append pre (String c (rpartition_last c s)))). f_equal. exact IH.
  - destruct (Ascii.eqb a c) eqn:Ea; [|now left].
    right. exists EmptyString. simpl. apply Ascii.eqb_eq in Ea. now subst.
Qed.

(** X13: the files that [main] hands to [unasync]: those whose name ends in
    [.py] or [.pyi] -- or is [py] or [pyi], with no dot at all -- and does
    not start with [utils.py]. *)
Theorem selected_spec (filename : string) :
  selected filename = true <->
  ((exists stem, filename = String.append stem ".py" \/
                 filename = String.append stem ".pyi") \/
   filename = "py" \/ filename = "pyi") /\
  String.prefix "utils.py" filename = false.
Proof.
  unfold selected. rewrite andb_true_iff, negb_true_iff, orb_true_iff.
  rewrite !String.eqb_eq.
  split; intros [H Hp]; (split; [|exact Hp]).
  - destruct (rpartition_last_spec dot filename) as [E|[pre E]].
    + rewrite E in H. tauto.
    + left. exists pre. destruct H as [H|H]; rewrite H in E; [left|right]; exact E.
  - destruct H as [[stem [H|H]]|[H|H]]; subst filename.
    + left. now apply (rpartition_last_append dot "py").
    + right. now apply (rpartition_last_append dot "pyi").
    + left. reflexivity.
    + right. reflexivity.
Qed.
